(** * Multilateration: a shallow embedding of the engine and its solver

    The Go packages [common], [multilateration] and [simulation] are
    embedded as Rocq functions.

    - [float64] values are modelled by exact rationals ([Q]); the rounding
      of IEEE arithmetic, NaN and the infinities are outside the model.
    - Go's [int] is a 64-bit signed integer: a [Z] together with the
      wrap-around of its arithmetic ([Int.wrap]).  The length of a slice
      is the length of the list that models it.
    - A run-time panic (index out of range, negative [make]) is the
      [Panic] outcome of the [go] monad.
    - The process-wide random source of [math/rand] is an explicit state
      ([RNG]) threaded through every function that draws from it.
    - [math.Sqrt] and gonum's QR least-squares solve are library code
      outside the repository: they are the members of the classes
      [MathLib] and [Gonum]; what is relied on of them is stated in
      [MathLibLaws], [GonumLaws] and [GonumLeastSquares].
    - Iteration over a Go map has no fixed order: every [range] over a map
      takes the order of the keys from a [Schedule]. *)

From stdpp Require Import gmap strings list.
From Stdlib Require Import ZArith QArith Lqa Lia.

Local Open Scope Z_scope.

(** ** Go's [int] *)

Module Int.

Definition min_int : Z := - 2 ^ 63.
Definition max_int : Z := 2 ^ 63 - 1.

(** Two's-complement wrap-around of a mathematical integer into [int]. *)
Definition wrap (z : Z) : Z := (z + 2 ^ 63) mod 2 ^ 64 - 2 ^ 63.

Definition in_range (z : Z) : Prop := min_int <= z <= max_int.

Definition add (a b : Z) : Z := wrap (a + b).
Definition sub (a b : Z) : Z := wrap (a - b).
Definition mul (a b : Z) : Z := wrap (a * b).

(** [len(s)] of a slice. *)
Definition len {A} (l : list A) : Z := Z.of_nat (length l).

End Int.

(** ** Outcomes: a returned value or a run-time panic *)

Inductive go (A : Type) : Type :=
| Ret (a : A)
| Panic.
Arguments Ret {A} a.
Arguments Panic {A}.

Global Instance go_ret : MRet go := fun A a => Ret a.
Global Instance go_bind : MBind go := fun A B k m =>
  match m with
  | Ret a => k a
  | Panic => Panic
  end.

(** A loop over the elements of [l], in order. *)
Fixpoint foldM {A St : Type} (body : A -> St -> go St) (l : list A) (s : St) : go St :=
  match l with
  | [] => Ret s
  | x :: l' => s1 ← body x s; foldM body l' s1
  end.

(** A loop whose body may [return v] from the enclosing function:
    [inl s] goes on with state [s], [inr v] leaves the loop with [v]. *)
Fixpoint foldM_return {A St R : Type} (body : A -> St -> go (St + R))
    (l : list A) (s : St) : go (St + R) :=
  match l with
  | [] => Ret (inl s)
  | x :: l' =>
      r ← body x s;
      match r with
      | inl s1 => foldM_return body l' s1
      | inr v => Ret (inr v)
      end
  end.

(** The indices of [for i := 0; i < n; i++]. *)
Definition upto (n : Z) : list Z := seqZ 0 n.

(** [s[i]]: an index outside the slice panics. *)
Definition index {A} (l : list A) (i : Z) : go A :=
  if decide (0 <= i) then
    match l !! Z.to_nat i with
    | Some x => Ret x
    | None => Panic
    end
  else Panic.

(** [s[i] = x] *)
Definition assign {A} (l : list A) (i : Z) (x : A) : go (list A) :=
  if decide (0 <= i < Int.len l) then Ret (<[Z.to_nat i := x]> l) else Panic.

(** [make([]float64, n)]: a negative length panics. *)
Definition make (n : Z) : go (list Q) :=
  if decide (0 <= n) then Ret (replicate (Z.to_nat n) 0%Q) else Panic.

(** ** float64 comparisons *)

Definition Qltb (a b : Q) : bool :=
  match (a ?= b)%Q with Lt => true | _ => false end.
Definition Qgtb (a b : Q) : bool := Qltb b a.

(** ** Errors

    Every [fmt.Errorf] of the three packages is a constructor; [%w]
    wrapping keeps the wrapped error. *)

Inductive error : Type :=
| ErrVectorDimension (a b : Z)
    (* "vectors must have the same dimension: %d != %d" *)
| ErrInsufficientMeasurements (got need dimension : Z)
    (* "insufficient measurements: got %d, need at least %d ..." *)
| ErrDimensionMismatchA (inner : error)
    (* "dimension mismatch calculating A: %w" *)
| ErrQRSolveFailed (inner : error)
    (* "QR least squares solve failed: %w" *)
| ErrGonum (msg : string)
    (* an error value of the matrix library *)
| ErrNilVectors
    (* "cannot calculate error with nil vectors" *)
| ErrEmptyVectors
    (* "cannot calculate error with empty vectors" *)
| ErrBoundsLength (got expected dimension : Z)
    (* "bounds length must be dimension * 2, got %d, expected %d for dim %d" *)
| ErrNegativeDimension (dimension : Z)
    (* "dimension must be non-negative, got %d" *)
| ErrObjectDimension (objDim simDim : Z)
    (* "object dimension %d does not match simulation dimension %d" *)
| ErrDuplicateID (id : string)
    (* "object with ID %s already exists" *)
| ErrSetPosition (expected got : Z)
    (* "dimension mismatch: expected %d, got %d" *)
| ErrSensorDistance (id : string) (inner : error)
    (* "error calculating distance for sensor %s: %w" *).

(** The taxonomy of the specification, read off the messages; an error
    value that the taxonomy does not place has no kind. *)
Inductive ErrorKind : Type :=
| ConfigurationError
| DimensionMismatch
| DuplicateIdentifier
| InsufficientMeasurements
| SolveFailure.

Fixpoint kind_of (e : error) : option ErrorKind :=
  match e with
  | ErrVectorDimension _ _ => Some DimensionMismatch
  | ErrInsufficientMeasurements _ _ _ => Some InsufficientMeasurements
  | ErrDimensionMismatchA _ => Some DimensionMismatch
  | ErrQRSolveFailed _ => Some SolveFailure
  | ErrGonum _ => None
  | ErrNilVectors => None
  | ErrEmptyVectors => None
  | ErrBoundsLength _ _ _ => Some ConfigurationError
  | ErrNegativeDimension _ => Some ConfigurationError
  | ErrObjectDimension _ _ => Some DimensionMismatch
  | ErrDuplicateID _ => Some DuplicateIdentifier
  | ErrSetPosition _ _ => Some DimensionMismatch
  | ErrSensorDistance _ inner => kind_of inner
  end.

(** The errors of the random constructors.  [NewRandomVector] has a
    message of its own, [AddRandomSensor] and [AddRandomTarget] wrap it
    with [%w], and they return an error of [AddObject] as it is. *)
Inductive random_error : Type :=
| ErrRandomBounds (got expected : Z)
    (* "bounds length must be dimension * 2, got %d, expected %d" *)
| ErrRandomSensor (inner : random_error)
    (* "failed to generate random position for sensor: %w" *)
| ErrRandomTarget (inner : random_error)
    (* "failed to generate random position for target: %w" *)
| ErrAddObject (e : error).

(** ** Library code outside the repository *)

(** [math.Sqrt] *)
Class MathLib : Type := {
  Sqrt : Q -> Q
}.

(** The global source of [math/rand]: the draws still to come and the
    number already taken. *)
Record RNG : Type := {
  floats : nat -> Q;   (* rand.Float64 *)
  norms : nat -> Q;    (* rand.NormFloat64 *)
  drawn : nat
}.

Definition rand_Float64 (r : RNG) : Q * RNG :=
  (floats r (drawn r),
   {| floats := floats r; norms := norms r; drawn := S (drawn r) |}).

Definition rand_NormFloat64 (r : RNG) : Q * RNG :=
  (norms r (drawn r),
   {| floats := floats r; norms := norms r; drawn := S (drawn r) |}).

(** ** Package common: vectors *)

Module common.

(** [type Vector []float64]: [None] is the nil slice. *)
Definition Vector : Type := option (list Q).

Definition elems (v : Vector) : list Q := default [] v.

Definition NewVector (dimension : Z) : go Vector :=
  l ← make dimension; Ret (Some l).

Definition Dimension (v : Vector) : Z := Int.len (elems v).

(** [sumOfSquares += x*x], from [0.0], left to right. *)
Definition sumSq (l : list Q) : Q :=
  foldl (fun acc x => acc + x * x)%Q 0%Q l.

Definition Distance `{MathLib} (v other : Vector) : Q * option error :=
  if decide (Dimension v ≠ Dimension other) then
    (0%Q, Some (ErrVectorDimension (Dimension v) (Dimension other)))
  else
    (Sqrt (sumSq (zip_with Qminus (elems v) (elems other))), None).

Definition Add (v other : Vector) : Vector * option error :=
  if decide (Dimension v ≠ Dimension other) then
    (None, Some (ErrVectorDimension (Dimension v) (Dimension other)))
  else
    (Some (zip_with Qplus (elems v) (elems other)), None).

Definition Subtract (v other : Vector) : Vector * option error :=
  if decide (Dimension v ≠ Dimension other) then
    (None, Some (ErrVectorDimension (Dimension v) (Dimension other)))
  else
    (Some (zip_with Qminus (elems v) (elems other)), None).

Definition MultiplyByScalar (v : Vector) (scalar : Q) : Vector :=
  Some (map (fun x => x * scalar)%Q (elems v)).

Definition Clone (v : Vector) : Vector := Some (elems v).

(** Element writes [v[i] = x] leave a slice nil or non-nil as it was:
    [stored v l] is the slice [v] holding the elements [l]. *)
Definition stored (v : Vector) (l : list Q) : Vector :=
  match v with
  | None => None
  | Some _ => Some l
  end.

Definition NormSq (v : Vector) : Q := sumSq (elems v).

(** One turn of the loop of [NewRandomVector]:
    [v[i] = min + rand.Float64()*(max-min)]. *)
Definition drawCoordinate (bounds : list Q) (i : Z) (st : list Q * RNG)
    : go (list Q * RNG) :=
  let '(v, r) := st in
  min ← index bounds (Int.mul i 2);
  max ← index bounds (Int.add (Int.mul i 2) 1);
  let '(u, r1) := rand_Float64 r in
  v1 ← assign v i (min + u * (max - min))%Q;
  Ret (v1, r1).

Definition NewRandomVector (dimension : Z) (bounds : list Q) (r : RNG)
    : go (Vector * option random_error * RNG) :=
  if decide (Int.len bounds ≠ Int.mul dimension 2) then
    Ret (None, Some (ErrRandomBounds (Int.len bounds) (Int.mul dimension 2)), r)
  else
    v ← NewVector dimension;
    '(v1, r1) ← foldM (drawCoordinate bounds) (upto dimension) (elems v, r);
    Ret (stored v v1, None, r1).

End common.

(** ** gonum: dense matrices and the QR least-squares solve *)

Module mat.

(** [mat.NewDense(r, c, data)]: row-major storage. *)
Record Dense : Type := NewDense { rows : Z; cols : Z; data : list Q }.

(** Row [i] of a matrix. *)
Definition row (A : Dense) (i : nat) : list Q :=
  take (Z.to_nat (cols A)) (drop (i * Z.to_nat (cols A)) (data A)).

Definition dot (u v : list Q) : Q :=
  foldl Qplus 0%Q (zip_with Qmult u v).

(** [dst.MulVec(A, x)]: the product [A*x]; the shapes must agree. *)
Definition MulVec (A : Dense) (x : list Q) : go (list Q) :=
  if decide (Int.len x = cols A) then
    Ret (map (fun i => dot (row A i) x) (seq 0 (Z.to_nat (rows A))))
  else Panic.

(** [dst.SubVec(a, b)]: the difference [a - b]. *)
Definition SubVec (a b : list Q) : go (list Q) :=
  if decide (Int.len a = Int.len b) then Ret (zip_with Qminus a b) else Panic.

(** [blas64.Nrm2]: the Euclidean norm. *)
Definition Nrm2 `{MathLib} (v : list Q) : Q := Sqrt (common.sumSq v).

(** [x.AtVec(i)] *)
Definition AtVec (x : list Q) (i : Z) : go Q := index x i.

End mat.

(** [qr.Factorize(A)] followed by [qr.SolveVecTo(&x, false, b)]: the
    vector left in [x] and the error value. *)
Class Gonum : Type := {
  QR_SolveVecTo : mat.Dense -> list Q -> go (list Q * option error)
}.

(** ** Package multilateration *)

Module multilateration.

Import common.

Record Measurement : Type := {
  SensorPosition : Vector;
  Distance : Q
}.

Record Solution : Type := {
  Position : Vector;
  ResidualError : Q
}.

(** [var emptySolution Solution]: the zero value. *)
Definition emptySolution : Solution :=
  {| Position := None; ResidualError := 0 |}.

(** [if d < 0 { d = 0 }] *)
Definition nonNegative (d : Q) : Q := if Qltb d 0 then 0%Q else d.

(** The rank test of the solver: [rank := dimension], then
    [if rank < dimension] guards the warning (standard output is not
    modelled). *)
Definition rankWarning (dimension : Z) : bool :=
  let rank := dimension in
  bool_decide (rank < dimension).

(** One turn of [for j := 0; j < dimension; j++]. *)
Definition fillEntry (i dimension : Z) (scaledDiff : Vector) (j : Z)
    (aData : list Q) : go (list Q) :=
  x ← index (elems scaledDiff) j;
  assign aData (Int.add (Int.mul i dimension) j) x.

(** One turn of [for i := 0; i < numEquations; i++]. *)
Definition fillEquation (measurements : list Measurement) (dimension : Z)
    (refSensorPos : Vector) (refDistSq refSensorNormSq : Q) (i : Z)
    (st : list Q * list Q) : go (list Q * list Q + Solution * option error) :=
  let '(aData, bData) := st in
  m ← index measurements i;
  let sensorPos := SensorPosition m in
  let dist := nonNegative (Distance m) in
  let distSq := (dist * dist)%Q in
  let sensorNormSq := NormSq sensorPos in
  let '(diffVec, err) := Subtract refSensorPos sensorPos in
  match err with
  | Some e => Ret (inr (emptySolution, Some (ErrDimensionMismatchA e)))
  | None =>
      let scaledDiff := MultiplyByScalar diffVec 2 in
      aData1 ← foldM (fillEntry i dimension scaledDiff) (upto dimension) aData;
      bData1 ← assign bData i
                 (distSq - refDistSq - sensorNormSq + refSensorNormSq)%Q;
      Ret (inl (aData1, bData1))
  end.

(** Lines 100-120: residual, normalisation, extraction of the result. *)
Definition finish `{MathLib} (A : mat.Dense) (b x : list Q)
    (numEquations dimension : Z) : go (Solution * option error) :=
  Ax ← mat.MulVec A x;
  residualVec ← mat.SubVec b Ax;
  let residualNorm := mat.Nrm2 residualVec in
  let normalizedResidual := (residualNorm / Sqrt (inject_Z numEquations))%Q in
  zero ← NewVector dimension;
  resultVector ← foldM (fun i r => xi ← mat.AtVec x i; assign r i xi)
                   (upto dimension) (elems zero);
  Ret ({| Position := Some resultVector;
          ResidualError := normalizedResidual |}, None).

Definition SolveLeastSquares `{MathLib} `{Gonum}
    (measurements : list Measurement) (dimension : Z)
    : go (Solution * option error) :=
  let numMeasurements := Int.len measurements in
  if decide (numMeasurements < Int.add dimension 1) then
    Ret (emptySolution,
         Some (ErrInsufficientMeasurements numMeasurements
                 (Int.add dimension 1) dimension))
  else
    ref ← index measurements (Int.sub numMeasurements 1);
    let refSensorPos := SensorPosition ref in
    let refDist := nonNegative (Distance ref) in
    let refDistSq := (refDist * refDist)%Q in
    let refSensorNormSq := NormSq refSensorPos in
    let numEquations := Int.sub numMeasurements 1 in
    aData ← make (Int.mul numEquations dimension);
    bData ← make numEquations;
    filled ← foldM_return
               (fillEquation measurements dimension refSensorPos
                  refDistSq refSensorNormSq)
               (upto numEquations) (aData, bData);
    match filled with
    | inr early => Ret early
    | inl (aData, bData) =>
        let A := mat.NewDense numEquations dimension aData in
        let b := bData in
        let _ := rankWarning dimension in
        '(x, err) ← QR_SolveVecTo A b;
        match err with
        | Some e => Ret (emptySolution, Some (ErrQRSolveFailed e))
        | None => finish A b x numEquations dimension
        end
    end.

Definition CalculateLocalizationError `{MathLib}
    (truePosition estimatedPosition : Vector) : Q * option error :=
  match truePosition, estimatedPosition with
  | Some t, Some e =>
      if decide (Int.len t = 0 \/ Int.len e = 0) then (0%Q, Some ErrEmptyVectors)
      else common.Distance truePosition estimatedPosition
  | _, _ => (0%Q, Some ErrNilVectors)
  end.

End multilateration.

(** ** Package simulation: objects *)

Module simulation.

Import common.
Export multilateration.

(** [type SimulationObject interface]: a mutating method returns the
    new state of its receiver. *)
Class SimulationObject (T : Type) : Type := {
  GetPosition : T -> Vector;
  SetPosition : T -> Vector -> T * option error;
  Update : T -> Q -> list Q -> RNG -> go (T * RNG);
  GetID : T -> string
}.

(** [type NoiseFunction func(trueDistance float64) float64]; the
    closures draw from the global random source. *)
Definition NoiseFunction : Type := Q -> RNG -> Q * RNG.

(** *** Sensor *)

Record Sensor : Type := {
  sensor_id : string;
  sensor_position : Vector;
  detectionRadius : Q;
  noiseFunc : option NoiseFunction
}.

(** The identifier comes from [uuid.NewString]: it is an argument. *)
Definition NewSensor (id : string) (pos : Vector) (radius : Q)
    (noise : option NoiseFunction) : Sensor :=
  {| sensor_id := id;
     sensor_position := Clone pos;
     detectionRadius := radius;
     noiseFunc := noise |}.

Definition Sensor_SetPosition (s : Sensor) (pos : Vector) : Sensor * option error :=
  if decide (Dimension pos ≠ Dimension (sensor_position s)) then
    (s, Some (ErrSetPosition (Dimension (sensor_position s)) (Dimension pos)))
  else
    ({| sensor_id := sensor_id s;
        sensor_position := Clone pos;
        detectionRadius := detectionRadius s;
        noiseFunc := noiseFunc s |}, None).

#[export] Instance Sensor_object : SimulationObject Sensor := {|
  GetPosition s := Clone (sensor_position s);
  SetPosition := Sensor_SetPosition;
  Update s _ _ r := Ret (s, r);
  GetID := sensor_id
|}.

Definition MeasureDistance `{MathLib} {T} `{SimulationObject T}
    (s : Sensor) (target : T) (r : RNG) : (Q * bool * option error) * RNG :=
  let targetPos := GetPosition target in
  let '(trueDist, err) := common.Distance (sensor_position s) targetPos in
  match err with
  | Some e => ((0%Q, false, Some (ErrSensorDistance (sensor_id s) e)), r)
  | None =>
      if Qltb 0 (detectionRadius s) && Qgtb trueDist (detectionRadius s) then
        ((0%Q, false, None), r)
      else
        let '(noisyDist, r1) :=
          match noiseFunc s with
          | None => (trueDist, r)
          | Some f => f trueDist r
          end in
        let noisyDist := if Qltb noisyDist 0 then 0%Q else noisyDist in
        ((noisyDist, true, None), r1)
  end.

(** *** The example noise functions *)

Definition NoNoise : NoiseFunction := fun trueDistance r => (trueDistance, r).

Definition GaussianNoise (stdDev : Q) : NoiseFunction :=
  let stdDev := if Qltb stdDev 0 then 0%Q else stdDev in
  fun trueDistance r =>
    let '(n, r1) := rand_NormFloat64 r in
    let noise := (n * stdDev)%Q in
    ((trueDistance + noise)%Q, r1).

Definition UniformNoise (maxDelta : Q) : NoiseFunction :=
  let maxDelta := if Qltb maxDelta 0 then 0%Q else maxDelta in
  fun trueDistance r =>
    let '(u, r1) := rand_Float64 r in
    let noise := ((u * 2 - 1) * maxDelta)%Q in
    ((trueDistance + noise)%Q, r1).

Definition PercentageNoise (percentage : Q) : NoiseFunction :=
  let percentage := if Qltb percentage 0 then 0%Q else percentage in
  fun trueDistance r =>
    let noiseMagnitude := (trueDistance * percentage)%Q in
    let '(u, r1) := rand_Float64 r in
    let noise := ((u * 2 - 1) * noiseMagnitude)%Q in
    ((trueDistance + noise)%Q, r1).

(** *** Target *)

Record Target : Type := {
  target_id : string;
  target_position : Vector;
  velocity : Vector
}.

Definition NewTarget (id : string) (pos : Vector) : go Target :=
  let dim := Dimension pos in
  vel ← NewVector dim;
  Ret {| target_id := id; target_position := Clone pos; velocity := vel |}.

Definition Target_SetPosition (t : Target) (pos : Vector) : Target * option error :=
  if decide (Dimension pos ≠ Dimension (target_position t)) then
    (t, Some (ErrSetPosition (Dimension (target_position t)) (Dimension pos)))
  else
    ({| target_id := target_id t;
        target_position := Clone pos;
        velocity := velocity t |}, None).

Definition accelerationScale : Q := 5.
Definition maxSpeed : Q := 10.
Definition damping : Q := -0.8.

(** [t.velocity[i] += (rand.Float64()*2 - 1) * accelerationScale * deltaTime] *)
Definition perturb (deltaTime : Q) (i : Z) (st : list Q * RNG) : go (list Q * RNG) :=
  let '(vel, r) := st in
  v ← index vel i;
  let '(u, r1) := rand_Float64 r in
  vel1 ← assign vel i (v + (u * 2 - 1) * accelerationScale * deltaTime)%Q;
  Ret (vel1, r1).

(** The speed limit: the velocity is scaled down to [maxSpeed]. *)
Definition limitSpeed `{MathLib} (vel : Vector) : Vector :=
  let currentSpeedSq := sumSq (elems vel) in
  if Qgtb currentSpeedSq (maxSpeed * maxSpeed) then
    let scale := (maxSpeed / Sqrt currentSpeedSq)%Q in
    MultiplyByScalar vel scale
  else vel.

(** One turn of the boundary loop. *)
Definition bounce (bounds : list Q) (i : Z) (st : list Q * list Q)
    : go (list Q * list Q) :=
  let '(newPos, vel) := st in
  minBound ← index bounds (Int.mul i 2);
  maxBound ← index bounds (Int.add (Int.mul i 2) 1);
  p ← index newPos i;
  if Qltb p minBound then
    newPos1 ← assign newPos i (minBound + (minBound - p))%Q;
    v ← index vel i;
    vel1 ← assign vel i (v * damping)%Q;
    Ret (newPos1, vel1)
  else if Qgtb p maxBound then
    newPos1 ← assign newPos i (maxBound - (p - maxBound))%Q;
    v ← index vel i;
    vel1 ← assign vel i (v * damping)%Q;
    Ret (newPos1, vel1)
  else Ret (newPos, vel).

Definition Target_Update `{MathLib} (t : Target) (deltaTime : Q)
    (bounds : list Q) (r : RNG) : go (Target * RNG) :=
  let dim := Dimension (target_position t) in
  if decide (Int.len bounds ≠ Int.mul dim 2) then Ret (t, r)
  else
    '(vel1, r1) ← foldM (perturb deltaTime) (upto dim) (elems (velocity t), r);
    let vel2 := limitSpeed (stored (velocity t) vel1) in
    let deltaPos := MultiplyByScalar vel2 deltaTime in
    let '(newPos, err) := Add (target_position t) deltaPos in
    match err with
    | Some _ =>
        Ret ({| target_id := target_id t;
                target_position := target_position t;
                velocity := vel2 |}, r1)
    | None =>
        '(newPos1, vel3) ← foldM (bounce bounds) (upto dim) (elems newPos, elems vel2);
        Ret ({| target_id := target_id t;
                target_position := stored newPos newPos1;
                velocity := stored vel2 vel3 |}, r1)
    end.

#[export] Instance Target_object `{MathLib} : SimulationObject Target := {|
  GetPosition t := Clone (target_position t);
  SetPosition := Target_SetPosition;
  Update := Target_Update;
  GetID := target_id
|}.

(** *** The engine *)

(** Sensors and targets live in memory and are shared by pointer
    between the engine's maps and its callers. *)
Definition ptr : Type := nat.

Record Memory : Type := {
  sensorCells : gmap ptr Sensor;
  targetCells : gmap ptr Target
}.

(** A [SimulationObject] interface value: the dynamic type and the pointer. *)
Inductive ObjectRef : Type :=
| SensorPtr (p : ptr)
| TargetPtr (p : ptr).

(** [*p]: a pointer to nothing panics. *)
Definition deref {A} (cells : gmap ptr A) (p : ptr) : go A :=
  match cells !! p with
  | Some x => Ret x
  | None => Panic
  end.

Record Simulation : Type := {
  dimension : Z;
  bounds : list Q;
  objects : gmap string ObjectRef;
  sensors : gmap string ptr;
  targets : gmap string ptr;
  simulationTime : Q;
  tickDuration : Z;
  lastEstimates : gmap string Solution;
  lastErrors : gmap string Q
}.

Definition NewSimulation (dimension : Z) (bounds : list Q) (tickDuration : Z)
    : option Simulation * option error :=
  if decide (Int.len bounds ≠ Int.mul dimension 2 /\ dimension > 0) then
    (None, Some (ErrBoundsLength (Int.len bounds) (Int.mul dimension 2) dimension))
  else if decide (dimension < 0) then
    (None, Some (ErrNegativeDimension dimension))
  else
    (Some {| dimension := dimension;
             bounds := bounds;
             objects := ∅;
             sensors := ∅;
             targets := ∅;
             simulationTime := 0;
             tickDuration := tickDuration;
             lastEstimates := ∅;
             lastErrors := ∅ |}, None).

(** The sentinel pair of a target without an estimate. *)
Definition noEstimate : Solution := {| Position := None; ResidualError := -1 |}.
Definition noError : Q := -1.

(** [s.lastEstimates[id] = sol; s.lastErrors[id] = e] *)
Definition record (id : string) (sol : Solution) (e : Q) (s : Simulation) : Simulation :=
  {| dimension := dimension s;
     bounds := bounds s;
     objects := objects s;
     sensors := sensors s;
     targets := targets s;
     simulationTime := simulationTime s;
     tickDuration := tickDuration s;
     lastEstimates := <[id := sol]> (lastEstimates s);
     lastErrors := <[id := e]> (lastErrors s) |}.

Section Engine.

Context `{MathLib} `{Gonum}.

Definition AddObject (mem : Memory) (obj : ObjectRef) (s : Simulation)
    : go (Simulation * option error) :=
  '(pos, id) ← match obj with
               | SensorPtr p => sen ← deref (sensorCells mem) p;
                                Ret (GetPosition sen, GetID sen)
               | TargetPtr p => tar ← deref (targetCells mem) p;
                                Ret (GetPosition tar, GetID tar)
               end;
  if decide (Dimension pos ≠ dimension s) then
    Ret (s, Some (ErrObjectDimension (Dimension pos) (dimension s)))
  else if decide (is_Some (objects s !! id)) then
    Ret (s, Some (ErrDuplicateID id))
  else
    let objects1 := <[id := obj]> (objects s) in
    match obj with
    | SensorPtr p =>
        Ret ({| dimension := dimension s;
                bounds := bounds s;
                objects := objects1;
                sensors := <[id := p]> (sensors s);
                targets := targets s;
                simulationTime := simulationTime s;
                tickDuration := tickDuration s;
                lastEstimates := lastEstimates s;
                lastErrors := lastErrors s |}, None)
    | TargetPtr p =>
        Ret ({| dimension := dimension s;
                bounds := bounds s;
                objects := objects1;
                sensors := sensors s;
                targets := <[id := p]> (targets s);
                simulationTime := simulationTime s;
                tickDuration := tickDuration s;
                lastEstimates := <[id := noEstimate]> (lastEstimates s);
                lastErrors := <[id := noError]> (lastErrors s) |}, None)
    end.

Definition GetLastEstimate (s : Simulation) (targetID : string) : Solution * bool :=
  match lastEstimates s !! targetID with
  | Some sol => (sol, true)
  | None => (emptySolution, false)
  end.

Definition GetLastLocalizationError (s : Simulation) (targetID : string) : Q * bool :=
  match lastErrors s !! targetID with
  | Some errVal => (errVal, true)
  | None => (0%Q, false)
  end.

(** The order in which the three [range] loops of [Step] visit the
    keys of [s.objects], of [s.targets] and, for the target under
    key [k], of [s.sensors]. *)
Record Schedule : Type := {
  objOrder : list string;
  tarOrder : list string;
  senOrder : string -> list string
}.

(** One turn of [for _, obj := range s.objects]. *)
Definition updateObject (s : Simulation) (deltaTime : Q) (k : string)
    (st : Memory * RNG) : go (Memory * RNG) :=
  let '(mem, r) := st in
  match objects s !! k with
  | None => Ret (mem, r)
  | Some (SensorPtr p) =>
      sen ← deref (sensorCells mem) p;
      '(sen1, r1) ← Update sen deltaTime (bounds s) r;
      Ret ({| sensorCells := <[p := sen1]> (sensorCells mem);
              targetCells := targetCells mem |}, r1)
  | Some (TargetPtr p) =>
      tar ← deref (targetCells mem) p;
      '(tar1, r1) ← Update tar deltaTime (bounds s) r;
      Ret ({| sensorCells := sensorCells mem;
              targetCells := <[p := tar1]> (targetCells mem) |}, r1)
  end.

(** One turn of [for _, sen := range s.sensors]. *)
Definition measure (s : Simulation) (mem : Memory) (tar : Target) (k : string)
    (st : list Measurement * RNG) : go (list Measurement * RNG) :=
  let '(targetMeasurements, r) := st in
  match sensors s !! k with
  | None => Ret (targetMeasurements, r)
  | Some p =>
      sen ← deref (sensorCells mem) p;
      let '((dist, inRange, err), r1) := MeasureDistance sen tar r in
      match err with
      | Some _ => Ret (targetMeasurements, r1)
      | None =>
          if inRange then
            Ret (targetMeasurements ++
                   [{| SensorPosition := GetPosition sen; Distance := dist |}], r1)
          else Ret (targetMeasurements, r1)
      end
  end.

(** The measurements a target collects in one tick. *)
Definition collect (sched : Schedule) (s : Simulation) (mem : Memory)
    (tar : Target) (k : string) (r : RNG) : go (list Measurement * RNG) :=
  foldM (measure s mem tar) (senOrder sched k) ([], r).

(** What [Step] stores for a target, given its measurements. *)
Definition estimate (s : Simulation) (tar : Target)
    (targetMeasurements : list Measurement) : go Simulation :=
  let targetID := GetID tar in
  let requiredMeasurements := Int.add (dimension s) 1 in
  if decide (Int.len targetMeasurements >= requiredMeasurements) then
    '(solution, err) ← SolveLeastSquares targetMeasurements (dimension s);
    match err with
    | None =>
        let truePos := GetPosition tar in
        let '(localizationErr, distErr) :=
          CalculateLocalizationError truePos (Position solution) in
        match distErr with
        | None => Ret (record targetID solution localizationErr s)
        | Some _ => Ret (record targetID solution (-1) s)
        end
    | Some _ => Ret (record targetID noEstimate (-1) s)
    end
  else Ret (record targetID noEstimate (-1) s).

(** One turn of [for _, tar := range s.targets]. *)
Definition localize (sched : Schedule) (mem : Memory) (k : string)
    (st : Simulation * RNG) : go (Simulation * RNG) :=
  let '(s, r) := st in
  match targets s !! k with
  | None => Ret (s, r)
  | Some p =>
      tar ← deref (targetCells mem) p;
      '(targetMeasurements, r1) ← collect sched s mem tar k r;
      s1 ← estimate s tar targetMeasurements;
      Ret (s1, r1)
  end.

Definition Step (sched : Schedule) (deltaTime : Q)
    (st : Simulation * Memory * RNG) : go (Simulation * Memory * RNG) :=
  let '(s, mem, r) := st in
  let s0 := {| dimension := dimension s;
               bounds := bounds s;
               objects := objects s;
               sensors := sensors s;
               targets := targets s;
               simulationTime := (simulationTime s + deltaTime)%Q;
               tickDuration := tickDuration s;
               lastEstimates := lastEstimates s;
               lastErrors := lastErrors s |} in
  '(mem1, r1) ← foldM (updateObject s0 deltaTime) (objOrder sched) (mem, r);
  '(s1, r2) ← foldM (localize sched mem1) (tarOrder sched) (s0, r1);
  Ret (s1, mem1, r2).

(** The new sensor lives at the address [p] the allocator hands out and
    carries the identifier [id] made from a fresh UUID. *)
Definition AddRandomSensor (p : ptr) (id : string) (radius : Q)
    (noise : option NoiseFunction) (st : Simulation * Memory * RNG)
    : go (Simulation * Memory * RNG * option random_error) :=
  let '(s, mem, r) := st in
  random ← NewRandomVector (dimension s) (bounds s) r;
  let '(pos, err, r1) := random in
  match err with
  | Some e => Ret (s, mem, r1, Some (ErrRandomSensor e))
  | None =>
      let sensor := NewSensor id pos radius noise in
      let mem1 := {| sensorCells := <[p := sensor]> (sensorCells mem);
                     targetCells := targetCells mem |} in
      '(s1, e) ← AddObject mem1 (SensorPtr p) s;
      Ret (s1, mem1, r1, option_map ErrAddObject e)
  end.

Definition AddRandomTarget (p : ptr) (id : string)
    (st : Simulation * Memory * RNG)
    : go (Simulation * Memory * RNG * option random_error) :=
  let '(s, mem, r) := st in
  random ← NewRandomVector (dimension s) (bounds s) r;
  let '(pos, err, r1) := random in
  match err with
  | Some e => Ret (s, mem, r1, Some (ErrRandomTarget e))
  | None =>
      target ← NewTarget id pos;
      let mem1 := {| sensorCells := sensorCells mem;
                     targetCells := <[p := target]> (targetCells mem) |} in
      '(s1, e) ← AddObject mem1 (TargetPtr p) s;
      Ret (s1, mem1, r1, option_map ErrAddObject e)
  end.

(** [obj, exists := s.objects[id]] *)
Definition GetObject (s : Simulation) (id : string) : option ObjectRef * bool :=
  match objects s !! id with
  | Some obj => (Some obj, true)
  | None => (None, false)
  end.

(** [GetSensors], [GetTargets] and [GetAllObjects] append the values of
    a map in the order in which [range] visits its keys. *)
Definition GetSensors (order : list string) (s : Simulation) : list ptr :=
  omap (fun k => sensors s !! k) order.

Definition GetTargets (order : list string) (s : Simulation) : list ptr :=
  omap (fun k => targets s !! k) order.

Definition GetAllObjects (order : list string) (s : Simulation) : list ObjectRef :=
  omap (fun k => objects s !! k) order.

Definition GetCurrentTime (s : Simulation) : Q := simulationTime s.

Definition GetDimension (s : Simulation) : Z := dimension s.

End Engine.

End simulation.

(** ** Vectors as slices: who shares storage with whom

    In the packages above a vector is a value.  A Go slice is a view on a
    backing array, so a copied slice header still points to the array of
    the original.  This model keeps the backing arrays in a heap and
    follows the accessors that hand vectors to the caller. *)

Module aliasing.

Abbreviation addr := nat.

(** The backing arrays, by address; a new array gets the next address. *)
Abbreviation Heap := (list (list Q)).

(** A slice header: nil, or the address of the array and the length. *)
Inductive Vector : Type :=
| nilVector
| sliceOf (base : addr) (len : nat).

Definition len (v : Vector) : nat :=
  match v with
  | nilVector => 0%nat
  | sliceOf _ n => n
  end.

(** The elements seen through a slice. *)
Definition contents (h : Heap) (v : Vector) : list Q :=
  match v with
  | nilVector => []
  | sliceOf a n => take n (default [] (h !! a))
  end.

(** [make(Vector, n)] *)
Definition make (n : nat) (h : Heap) : Vector * Heap :=
  (sliceOf (length h) n, h ++ [replicate n 0%Q]).

(** [v[i] = x] *)
Definition store (h : Heap) (v : Vector) (i : Z) (x : Q) : go Heap :=
  match v with
  | nilVector => Panic
  | sliceOf a n =>
      match h !! a with
      | Some l =>
          if decide (0 <= i < Z.of_nat n /\ Z.of_nat n <= Int.len l) then
            Ret (<[a := <[Z.to_nat i := x]> l]> h)
          else Panic
      | None => Panic
      end
  end.

(** [copy(dst, src)] *)
Definition copy (dst src : Vector) (h : Heap) : Heap :=
  match dst with
  | nilVector => h
  | sliceOf a n =>
      let k := (n `min` len src)%nat in
      match h !! a with
      | Some l => <[a := take k (contents h src) ++ drop k l]> h
      | None => h
      end
  end.

(** [common.Vector.Clone] *)
Definition Clone (v : Vector) (h : Heap) : Vector * Heap :=
  let '(clone, h1) := make (len v) h in
  (clone, copy clone v h1).

Record Target : Type := {
  target_id : string;
  target_position : Vector;
  velocity : Vector
}.

(** [Target.GetPosition] *)
Definition GetPosition (t : Target) (h : Heap) : Vector * Heap :=
  Clone (target_position t) h.

(** [Target.SetPosition]: [t.position = pos.Clone()] *)
Definition SetPosition (t : Target) (pos : Vector) (h : Heap)
    : Target * option error * Heap :=
  if decide (len pos ≠ len (target_position t)) then
    (t, Some (ErrSetPosition (Z.of_nat (len (target_position t)))
                (Z.of_nat (len pos))), h)
  else
    let '(clone, h1) := Clone pos h in
    ({| target_id := target_id t;
        target_position := clone;
        velocity := velocity t |}, None, h1).

Record Solution : Type := {
  Position : Vector;
  ResidualError : Q
}.

(** The end of [SolveLeastSquares]: the result vector is a new array
    filled from the solved [x]. *)
Definition extract (x : list Q) (dimension : Z) (normalizedResidual : Q)
    (h : Heap) : go (Solution * Heap) :=
  let '(resultVector, h1) := make (Z.to_nat dimension) h in
  h2 ← foldM (fun i h' => xi ← index x i; store h' resultVector i xi)
         (upto dimension) h1;
  Ret ({| Position := resultVector; ResidualError := normalizedResidual |}, h2).

Record Simulation : Type := {
  lastEstimates : gmap string Solution
}.

(** [s.lastEstimates[targetID] = solution] in [Step]. *)
Definition keep (targetID : string) (solution : Solution) (s : Simulation) : Simulation :=
  {| lastEstimates := <[targetID := solution]> (lastEstimates s) |}.

(** [Simulation.GetLastEstimate] *)
Definition GetLastEstimate (s : Simulation) (targetID : string) : Solution * bool :=
  match lastEstimates s !! targetID with
  | Some sol => (sol, true)
  | None => ({| Position := nilVector; ResidualError := 0 |}, false)
  end.

(** The array of a slice exists and is long enough. *)
Definition allocated (h : Heap) (v : Vector) : Prop :=
  match v with
  | nilVector => True
  | sliceOf a n => exists l, h !! a = Some l /\ (n <= length l)%nat
  end.

End aliasing.

(** ** Package main: the bounds of the demonstration programs *)

Module main.

(** [createBounds]: [make([]float64, 0, 2*dim)] comes first and panics
    on a negative capacity; then [dim <= 0] returns an empty slice; then
    the loop appends [-bound, bound] once per axis. *)
Definition createBounds (dim : Z) (bound : Q) : go (list Q) :=
  if decide (Int.mul 2 dim < 0) then Panic
  else if decide (dim <= 0) then Ret []
  else foldM (fun _ bounds => Ret (bounds ++ [(- bound)%Q; bound])) (upto dim) [].

End main.

(** ** The vocabulary of the properties *)

(** What the library code is relied on for: the square root of a
    non-negative number is non-negative; the QR solve leaves a vector
    with one entry per column, and it returns on a system with at least
    as many rows as columns. *)
Class MathLibLaws `{MathLib} : Prop := {
  Sqrt_nonneg : forall x : Q, (0 <= x)%Q -> (0 <= Sqrt x)%Q
}.

Class GonumLaws `{Gonum} : Prop := {
  QR_SolveVecTo_shape : forall A b x,
    QR_SolveVecTo A b = Ret (x, None) -> Int.len x = mat.cols A;
  QR_SolveVecTo_returns : forall A b,
    0 < mat.cols A <= mat.rows A ->
    Int.len (mat.data A) = mat.rows A * mat.cols A ->
    Int.len b = mat.rows A ->
    exists r, QR_SolveVecTo A b = Ret r
}.

Section Vocabulary.

Import common simulation.
Context `{MathLib} `{Gonum}.

(** Every per-axis pair of [bounds] has [min <= max]. *)
Fixpoint axesOrdered (bounds : list Q) : bool :=
  match bounds with
  | lo :: hi :: rest => Qle_bool lo hi && axesOrdered rest
  | _ => true
  end.

(** What the boundary loop does to one axis: the coordinate [p] and the
    velocity component [v] between the bounds [lo] and [hi]. *)
Definition reflectAxis (lo hi p v : Q) : Q * Q :=
  if Qltb p lo then ((lo + (lo - p))%Q, (v * damping)%Q)
  else if Qgtb p hi then ((hi - (p - hi))%Q, (v * damping)%Q)
  else (p, v).

(** The equation of measurement [m] against the reference [ref], in the
    words of the specification: the row [2*(refPos - sensorPos)] and the
    right-hand side [dist^2 - refDist^2 - |sensorPos|^2 + |refPos|^2]. *)
Definition equationRow (ref m : Measurement) : list Q :=
  map (Qmult 2) (zip_with Qminus (elems (SensorPosition ref)) (elems (SensorPosition m))).

Definition equationRhs (ref m : Measurement) : Q :=
  (Distance m * Distance m - Distance ref * Distance ref
   - NormSq (SensorPosition m) + NormSq (SensorPosition ref))%Q.

(** The residual [b - A*x] of a system given by its rows. *)
Definition residual (rowsA : list (list Q)) (b x : list Q) : list Q :=
  zip_with Qminus b (map (fun row => mat.dot row x) rowsA).

(** A measurement with its distance clamped as the solver reads it. *)
Definition clamp (m : Measurement) : Measurement :=
  {| SensorPosition := SensorPosition m; Distance := nonNegative (Distance m) |}.

(** An estimate and an error that belong together. *)
Definition syncPair (sol : Solution) (e : Q) : Prop :=
  (Position sol <> None /\ (0 <= e)%Q) \/ (sol = noEstimate /\ e = noError).

(** The stored pair of the target [k] is in sync. *)
Definition inSync (s : Simulation) (k : string) : Prop :=
  exists sol e,
    lastEstimates s !! k = Some sol /\ lastErrors s !! k = Some e /\ syncPair sol e.

(** The engine and the memory of its objects fit together: registered
    pointers lead to objects of the engine's dimension that carry the
    key as identifier, the typed indices agree with [objects], and the
    two bookkeeping maps have exactly the registered targets as keys. *)
Record consistent (s : Simulation) (mem : Memory) : Prop := {
  dimension_ok : 0 <= dimension s < Int.max_int;
  bounds_ok : Int.len (bounds s) <= Int.max_int;
  memory_ok : forall p t, targetCells mem !! p = Some t ->
    Dimension (velocity t) = Dimension (target_position t);
  targets_ok : forall k p, targets s !! k = Some p ->
    exists t, targetCells mem !! p = Some t /\ target_id t = k /\
              Dimension (target_position t) = dimension s;
  sensors_ok : forall k p, sensors s !! k = Some p ->
    exists sen, sensorCells mem !! p = Some sen /\ sensor_id sen = k /\
                Dimension (sensor_position sen) = dimension s;
  objects_ok : forall k o, objects s !! k = Some o ->
    match o with
    | SensorPtr p => sensors s !! k = Some p
    | TargetPtr p => targets s !! k = Some p
    end;
  estimates_ok : forall k, is_Some (lastEstimates s !! k) <-> is_Some (targets s !! k);
  errors_ok : forall k, is_Some (lastErrors s !! k) <-> is_Some (targets s !! k)
}.

(** A schedule visits every key of each map once. *)
Definition validSchedule (sched : Schedule) (s : Simulation) : Prop :=
  objOrder sched ≡ₚ elements (dom (objects s)) /\
  tarOrder sched ≡ₚ elements (dom (targets s)) /\
  forall k, senOrder sched k ≡ₚ elements (dom (sensors s)).

(** The measurement matrix of a target, one row per sensor visited,
    fits in memory. *)
Definition fitsMemory (sched : Schedule) (s : Simulation) : Prop :=
  forall k, Int.len (senOrder sched k) * dimension s <= Int.max_int.

(** The measurements that the target under key [k] collects while the
    loop over the targets runs through [order]. *)
Fixpoint collectedFor (sched : Schedule) (s : Simulation) (mem : Memory)
    (k : string) (order : list string) (r : RNG) : go (option (list Measurement)) :=
  match order with
  | [] => Ret None
  | k' :: rest =>
      match targets s !! k' with
      | None => collectedFor sched s mem k rest r
      | Some p =>
          tar ← deref (targetCells mem) p;
          '(targetMeasurements, r1) ← collect sched s mem tar k' r;
          if decide (k' = k) then Ret (Some targetMeasurements)
          else collectedFor sched s mem k rest r1
      end
  end.

(** The measurements that the target under key [k] collects in the tick
    [Step sched deltaTime (s, mem, r)]. *)
Definition collected (sched : Schedule) (deltaTime : Q)
    (st : Simulation * Memory * RNG) (k : string) : go (option (list Measurement)) :=
  let '(s, mem, r) := st in
  '(mem1, r1) ← foldM (updateObject s deltaTime) (objOrder sched) (mem, r);
  collectedFor sched s mem1 k (tarOrder sched) r1.

(** *** The states an engine can reach

    [reachable n s mem]: the engine [s] and the memory [mem] after a
    construction, any number of object creations, position changes by
    the callers and [AddObject] calls, and [n] ticks. *)

Definition withTarget (mem : Memory) (p : ptr) (t : Target) : Memory :=
  {| sensorCells := sensorCells mem; targetCells := <[p := t]> (targetCells mem) |}.

Definition withSensor (mem : Memory) (p : ptr) (sen : Sensor) : Memory :=
  {| sensorCells := <[p := sen]> (sensorCells mem); targetCells := targetCells mem |}.

Inductive reachable : nat -> Simulation -> Memory -> Prop :=
| reach_new D bounds tick s :
    Int.in_range D -> Int.len bounds <= Int.max_int ->
    NewSimulation D bounds tick = (Some s, None) ->
    reachable 0 s {| sensorCells := ∅; targetCells := ∅ |}
| reach_NewTarget n s mem p id pos t :
    reachable n s mem ->
    targetCells mem !! p = None ->
    NewTarget id pos = Ret t ->
    reachable n s (withTarget mem p t)
| reach_NewSensor n s mem p id pos radius noise :
    reachable n s mem ->
    sensorCells mem !! p = None ->
    reachable n s (withSensor mem p (NewSensor id pos radius noise))
| reach_SetPosition_target n s mem p t pos t' e :
    reachable n s mem ->
    targetCells mem !! p = Some t ->
    Target_SetPosition t pos = (t', e) ->
    reachable n s (withTarget mem p t')
| reach_SetPosition_sensor n s mem p sen pos sen' e :
    reachable n s mem ->
    sensorCells mem !! p = Some sen ->
    Sensor_SetPosition sen pos = (sen', e) ->
    reachable n s (withSensor mem p sen')
| reach_AddObject n s mem obj s' e :
    reachable n s mem ->
    AddObject mem obj s = Ret (s', e) ->
    reachable n s' mem
| reach_Step n s mem sched deltaTime r s' mem' r' :
    reachable n s mem ->
    validSchedule sched s ->
    Step sched deltaTime (s, mem, r) = Ret (s', mem', r') ->
    reachable (S n) s' mem'.

End Vocabulary.

(** ** Reference implementations of the library code

    Exact stand-ins over the rationals, used to run the engine on
    concrete inputs: a square root that is exact on squares, and a
    least-squares solve by Gram-Schmidt orthogonalisation that reports a
    singular system as an error. *)

Module reference.

Definition floorSqrt (q : Q) : Q :=
  Z.sqrt (Qnum q * Zpos (Qden q)) # Qden q.

Definition column (A : mat.Dense) (j : nat) : list Q :=
  map (fun i => nth j (mat.row A i) 0%Q) (seq 0 (Z.to_nat (mat.rows A))).

Definition coef (q a : list Q) : Q := (mat.dot q a / mat.dot q q)%Q.

(** [a] minus its projections on the vectors [qs]. *)
Definition reject (qs : list (list Q)) (a : list Q) : list Q :=
  foldl (fun acc q => zip_with Qminus acc (map (Qmult (coef q acc)) q)) a qs.

Fixpoint orthogonalise (qs cols : list (list Q)) : option (list (list Q)) :=
  match cols with
  | [] => Some qs
  | a :: rest =>
      let q := reject qs a in
      if Qeq_bool (mat.dot q q) 0 then None
      else orthogonalise (qs ++ [q]) rest
  end.

(** Back substitution in the unit upper-triangular system [R x = c]
    with [R_jk = coef q_j a_k] and [c_j = coef q_j b]. *)
Fixpoint backSubstitute (qs cols : list (list Q)) (b : list Q) : list Q :=
  match qs, cols with
  | q :: qs', _ :: cols' =>
      let xs := backSubstitute qs' cols' b in
      (coef q b - mat.dot (map (coef q) cols') xs)%Q :: xs
  | _, _ => []
  end.

Definition wellShaped (A : mat.Dense) (b : list Q) : Prop :=
  0 < mat.cols A <= mat.rows A /\
  Int.len (mat.data A) = mat.rows A * mat.cols A /\
  Int.len b = mat.rows A.

Definition solve (A : mat.Dense) (b : list Q) : go (list Q * option error) :=
  if decide (wellShaped A b) then
    let cols := map (column A) (seq 0 (Z.to_nat (mat.cols A))) in
    match orthogonalise [] cols with
    | None => Ret (replicate (Z.to_nat (mat.cols A)) 0%Q,
                   Some (ErrGonum "matrix singular or near-singular"))
    | Some qs => Ret (backSubstitute qs cols b, None)
    end
  else Panic.

End reference.

#[export] Instance reference_math : MathLib := {| Sqrt := reference.floorSqrt |}.

#[export] Instance reference_gonum : Gonum := {| QR_SolveVecTo := reference.solve |}.

(** ** A small world: three sensors and one target in the plane *)

Module demo.

Import simulation.

Definition target1 : Target :=
  {| target_id := "target-1";
     target_position := Some [0; 0]%Q;
     velocity := Some [0; 0]%Q |}.

(** Three sensors that see [radius] units far, and a target at the origin. *)
Definition memory (radius : Q) : Memory :=
  withTarget
    (withSensor
       (withSensor
          (withSensor {| sensorCells := ∅; targetCells := ∅ |}
             1%nat (NewSensor "sensor-1" (Some [3; 4]%Q) radius None))
          2%nat (NewSensor "sensor-2" (Some [5; 12]%Q) radius None))
       3%nat (NewSensor "sensor-3" (Some [8; 15]%Q) radius None))
    1%nat target1.

Definition fresh : Simulation :=
  {| dimension := 2;
     bounds := [-100; 100; -100; 100]%Q;
     objects := ∅; sensors := ∅; targets := ∅;
     simulationTime := 0; tickDuration := 100;
     lastEstimates := ∅; lastErrors := ∅ |}.

(** [AddObject], for a call that returns. *)
Definition add (radius : Q) (obj : ObjectRef) (s : Simulation) : Simulation :=
  match AddObject (memory radius) obj s with
  | Ret (s', _) => s'
  | Panic => s
  end.

Definition engine (radius : Q) : Simulation :=
  add radius (TargetPtr 1%nat)
    (add radius (SensorPtr 3%nat)
       (add radius (SensorPtr 2%nat) (add radius (SensorPtr 1%nat) fresh))).

(** Each map is visited in the order of its keys. *)
Definition schedule (s : Simulation) : Schedule :=
  {| objOrder := elements (dom (objects s));
     tarOrder := elements (dom (targets s));
     senOrder := fun _ => elements (dom (sensors s)) |}.

(** The caller moves the target out of reach of every sensor. *)
Definition farAway (mem : Memory) : Memory :=
  match targetCells mem !! 1%nat with
  | Some t => withTarget mem 1%nat (Target_SetPosition t (Some [90; 90]%Q)).1
  | None => mem
  end.

End demo.

(** ** Sample inputs *)

(** A random source whose every uniform draw is [0] and whose every
    normal draw is [-3]. *)
Definition lowDraws : RNG :=
  {| floats := fun _ => 0%Q; norms := fun _ => (-3)%Q; drawn := 0 |}.

(** A random source whose every uniform draw is [1/2], which leaves a
    velocity as it is, and whose every normal draw is [0]. *)
Definition evenDraws : RNG :=
  {| floats := fun _ => (1 # 2)%Q; norms := fun _ => 0%Q; drawn := 0 |}.

(** A target at 9 on the axis [0, 10], moving at 10 per second: after
    one second it is at 1, moving at -8. *)
Definition runner : simulation.Target :=
  {| simulation.target_id := "target-1";
     simulation.target_position := Some [9%Q];
     simulation.velocity := Some [10%Q] |}.

(** Three sensors around a target at the origin. *)
Definition threeSensors : list multilateration.Measurement :=
  [ {| multilateration.SensorPosition := Some [3; 4]%Q; multilateration.Distance := 5 |};
    {| multilateration.SensorPosition := Some [5; 12]%Q; multilateration.Distance := 13 |};
    {| multilateration.SensorPosition := Some [8; 15]%Q; multilateration.Distance := 17 |} ].

(** ** Vocabulary of the further properties *)

(** The random source after [n] more draws. *)
Definition advance (r : RNG) (n : nat) : RNG :=
  {| floats := floats r; norms := norms r; drawn := (drawn r + n)%nat |}.

(** [rand.Float64] returns a number of the unit interval. *)
Definition unitDraws (r : RNG) : Prop :=
  forall n, (0 <= floats r n)%Q /\ (floats r n <= 1)%Q.

(** The identifier of the object behind an interface value. *)
Definition identifier (mem : simulation.Memory) (obj : simulation.ObjectRef)
    : option string :=
  match obj with
  | simulation.SensorPtr p =>
      simulation.sensor_id <$> simulation.sensorCells mem !! p
  | simulation.TargetPtr p =>
      simulation.target_id <$> simulation.targetCells mem !! p
  end.

(** The typed indices and [objects] hold the same entries. *)
Definition partitioned (s : simulation.Simulation) : Prop :=
  forall k,
    (forall p, simulation.sensors s !! k = Some p
               <-> simulation.objects s !! k = Some (simulation.SensorPtr p)) /\
    (forall p, simulation.targets s !! k = Some p
               <-> simulation.objects s !! k = Some (simulation.TargetPtr p)).

(** An engine of dimension 0 that was given bounds all the same. *)
Definition pointEngine : simulation.Simulation :=
  {| simulation.dimension := 0;
     simulation.bounds := [-100; 100]%Q;
     simulation.objects := ∅; simulation.sensors := ∅; simulation.targets := ∅;
     simulation.simulationTime := 0; simulation.tickDuration := 100;
     simulation.lastEstimates := ∅; simulation.lastErrors := ∅ |}.

(** The small world before its target is registered. *)
Definition sensorsOnly (radius : Q) : simulation.Simulation :=
  demo.add radius (simulation.SensorPtr 3%nat)
    (demo.add radius (simulation.SensorPtr 2%nat)
       (demo.add radius (simulation.SensorPtr 1%nat) demo.fresh)).

(** A measurement whose sensor position has three coordinates. *)
Definition spatial : multilateration.Measurement :=
  {| multilateration.SensorPosition := Some [1; 2; 3]%Q;
     multilateration.Distance := 4 |}.

(** Two backing arrays: the position of a target and a vector of the
    caller. *)
Definition twoArrays : list (list Q) := [[1; 2]%Q; [3; 4]%Q].

Definition resident : aliasing.Target :=
  {| aliasing.target_id := "target-1";
     aliasing.target_position := aliasing.sliceOf 0 2;
     aliasing.velocity := aliasing.nilVector |}.

(** ** The least-squares problem, in the words of the specification

    These definitions are written from the specification and from the
    mathematics it names, and share nothing with the functions of the
    packages [common] and [mat]: the properties of the solver compare
    the two. *)

(** The sum of a list of numbers. *)
Definition total (l : list Q) : Q := foldr Qplus 0%Q l.


Definition inner (u v : list Q) : Q := total (zip_with Qmult u v).


(** The residual [b - A*y] of the system with the rows [rowsA]. *)
Definition residualVector (rowsA : list (list Q)) (b y : list Q) : list Q :=
  zip_with Qminus b (map (fun row => inner row y) rowsA).


(** The rows of a dense matrix. *)
Definition rowsOf (A : mat.Dense) : list (list Q) :=
  map (mat.row A) (seq 0 (Z.to_nat (mat.rows A))).


(** ** A least-squares solve that certifies its answer

    The reference solve, followed by a test of the normal equations
    [A^T (b - A*x) = 0]: an answer that fails the test is reported as
    an error. *)

Module checked.

(** [A^T r], a vector of [D] coordinates. *)
Fixpoint transposeTimes (D : nat) (rowsA : list (list Q)) (r : list Q) : list Q :=
  match rowsA, r with
  | row :: rowsA', ri :: r' =>
      zip_with Qplus (map (Qmult ri) row) (transposeTimes D rowsA' r')
  | _, _ => replicate D 0%Q
  end.

Definition normalEquations (A : mat.Dense) (b x : list Q) : bool :=
  forallb (fun q => Qeq_bool q 0)
    (transposeTimes (Z.to_nat (mat.cols A)) (rowsOf A)
       (residualVector (rowsOf A) b x)).

Definition solve (A : mat.Dense) (b : list Q) : go (list Q * option error) :=
  '(x, err) ← reference.solve A b;
  match err with
  | Some e => Ret (x, Some e)
  | None =>
      if normalEquations A b x then Ret (x, None)
      else Ret (x, Some (ErrGonum "normal equations not satisfied"))
  end.

End checked.

Definition checked_gonum : Gonum := {| QR_SolveVecTo := checked.solve |}.

(** * Properties *)

(** ** Comparisons *)

Lemma Qltb_lt a b : Qltb a b = true <-> (a < b)%Q.
Proof.
  unfold Qltb. rewrite Qlt_alt. destruct (a ?= b)%Q; split; congruence.
Qed.

Lemma Qltb_ge a b : Qltb a b = false <-> (b <= a)%Q.
Proof.
  split.
  - intros H. apply Qnot_lt_le. intros Hlt. apply Qltb_lt in Hlt. congruence.
  - intros H. destruct (Qltb a b) eqn:E; [|reflexivity].
    apply Qltb_lt in E. exfalso. apply (Qlt_not_le _ _ E H).
Qed.

(** ** Integer arithmetic without overflow *)

Lemma wrap_id z : Int.in_range z -> Int.wrap z = z.
Proof.
  unfold Int.in_range, Int.wrap, Int.min_int, Int.max_int. intros Hz.
  rewrite Z.mod_small; lia.
Qed.

Lemma wrap_in_range z : Int.in_range (Int.wrap z).
Proof.
  unfold Int.in_range, Int.wrap, Int.min_int, Int.max_int.
  pose proof (Z.mod_pos_bound (z + 2 ^ 63) (2 ^ 64)). lia.
Qed.

Lemma len_nonneg {A} (l : list A) : 0 <= Int.len l.
Proof. unfold Int.len. lia. Qed.

(** A slice length that equals a wrapped doubling is the doubling itself. *)
Lemma len_eq_double {A} (l : list A) (d : Z) :
  Int.in_range d -> 0 < d -> Int.len l <= Int.max_int ->
  (Int.len l = Int.mul d 2 <-> Int.len l = 2 * d).
Proof.
  unfold Int.in_range, Int.mul, Int.wrap, Int.min_int, Int.max_int.
  intros Hd Hpos Hl. pose proof (len_nonneg l) as Hn.
  destruct (decide (d < 2 ^ 62)) as [Hs|Hb].
  - rewrite Z.mod_small by lia. lia.
  - replace (d * 2 + 2 ^ 63) with ((d * 2 - 2 ^ 63) + 1 * 2 ^ 64) by lia.
    rewrite Z.mod_add by lia. rewrite Z.mod_small by lia. lia.
Qed.

(** ** Loops *)

Lemma foldM_app {A St} (body : A -> St -> go St) (l1 l2 : list A) (s : St) :
  foldM body (l1 ++ l2) s = (s1 ← foldM body l1 s; foldM body l2 s1).
Proof.
  revert s. induction l1 as [|x l1 IH]; intros s; simpl; [done|].
  destruct (body x s) as [s1|]; simpl; [apply IH|done].
Qed.

(** The invariant rule: [Inv i] holds before the turn on the [i]-th
    element, every turn returns and re-establishes it. *)
Lemma foldM_invariant {A St} (Inv : nat -> St -> Prop)
    (body : A -> St -> go St) (l : list A) (s : St) :
  Inv 0%nat s ->
  (forall i x s, l !! i = Some x -> Inv i s ->
     exists s', body x s = Ret s' /\ Inv (S i) s') ->
  exists s', foldM body l s = Ret s' /\ Inv (length l) s'.
Proof.
  revert Inv s. induction l as [|x l IH]; intros Inv s H0 Hstep; simpl.
  - eauto.
  - destruct (Hstep 0%nat x s eq_refl H0) as (s1 & -> & H1). simpl.
    apply (IH (fun i => Inv (S i))); [done|].
    intros i y s2 Hy. apply (Hstep (S i)). done.
Qed.

(** The same rule for [for i := 0; i < n; i++]. *)
Lemma for_invariant {St} (Inv : Z -> St -> Prop)
    (body : Z -> St -> go St) (n : Z) (s : St) :
  0 <= n ->
  Inv 0 s ->
  (forall i s, 0 <= i < n -> Inv i s ->
     exists s', body i s = Ret s' /\ Inv (i + 1) s') ->
  exists s', foldM body (upto n) s = Ret s' /\ Inv n s'.
Proof.
  intros Hn H0 Hstep.
  destruct (foldM_invariant (fun i => Inv (Z.of_nat i)) body (upto n) s)
    as (s' & Hs' & Hinv); [done| |].
  - intros i x s1 Hx Hi. apply lookup_seqZ in Hx as [-> Hlt].
    destruct (Hstep (Z.of_nat i) s1) as (s2 & ? & ?); [lia|done|].
    exists s2. split; [done|]. by replace (Z.of_nat (S i)) with (Z.of_nat i + 1) by lia.
  - exists s'. split; [done|]. unfold upto in Hinv.
    rewrite length_seqZ, Z2Nat.id in Hinv; done.
Qed.

Lemma index_Ret {A} (l : list A) (i : Z) (x : A) :
  0 <= i -> l !! Z.to_nat i = Some x -> index l i = Ret x.
Proof. intros Hi Hx. unfold index. rewrite decide_True by done. by rewrite Hx. Qed.

Lemma assign_Ret {A} (l : list A) (i : Z) (x : A) :
  0 <= i < Int.len l -> assign l i x = Ret (<[Z.to_nat i := x]> l).
Proof. intros Hi. unfold assign. by rewrite decide_True. Qed.

(** A loop none of whose turns returns early. *)
Lemma foldM_return_invariant {A St R} (Inv : nat -> St -> Prop)
    (body : A -> St -> go (St + R)) (l : list A) (s : St) :
  Inv 0%nat s ->
  (forall i x s, l !! i = Some x -> Inv i s ->
     exists s', body x s = Ret (inl s') /\ Inv (S i) s') ->
  exists s', foldM_return body l s = Ret (inl s') /\ Inv (length l) s'.
Proof.
  revert Inv s. induction l as [|x l IH]; intros Inv s H0 Hstep; simpl.
  - eauto.
  - destruct (Hstep 0%nat x s eq_refl H0) as (s1 & -> & H1). simpl.
    apply (IH (fun i => Inv (S i))); [done|].
    intros i y s2 Hy. apply (Hstep (S i)). done.
Qed.

Lemma for_return_invariant {St R} (Inv : Z -> St -> Prop)
    (body : Z -> St -> go (St + R)) (n : Z) (s : St) :
  0 <= n ->
  Inv 0 s ->
  (forall i s, 0 <= i < n -> Inv i s ->
     exists s', body i s = Ret (inl s') /\ Inv (i + 1) s') ->
  exists s', foldM_return body (upto n) s = Ret (inl s') /\ Inv n s'.
Proof.
  intros Hn H0 Hstep.
  destruct (foldM_return_invariant (fun i => Inv (Z.of_nat i)) body (upto n) s)
    as (s' & Hs' & Hinv); [done| |].
  - intros i x s1 Hx Hi. apply lookup_seqZ in Hx as [-> Hlt].
    destruct (Hstep (Z.of_nat i) s1) as (s2 & ? & ?); [lia|done|].
    exists s2. split; [done|]. by replace (Z.of_nat (S i)) with (Z.of_nat i + 1) by lia.
  - exists s'. split; [done|]. unfold upto in Hinv.
    rewrite length_seqZ, Z2Nat.id in Hinv; done.
Qed.

Lemma foldM_ext {A St} (body1 body2 : A -> St -> go St) (l : list A) :
  (forall x s, body1 x s = body2 x s) ->
  forall s, foldM body1 l s = foldM body2 l s.
Proof.
  intros Hext. induction l as [|x l IH]; intros s; simpl; [done|].
  rewrite Hext. destruct (body2 x s); simpl; [apply IH|done].
Qed.

(** A loop keeps what each of its turns keeps. *)
Lemma foldM_preserves {A St} (P : St -> Prop) (body : A -> St -> go St) (l : list A) :
  (forall x s s', P s -> body x s = Ret s' -> P s') ->
  forall s s', P s -> foldM body l s = Ret s' -> P s'.
Proof.
  intros Hbody. induction l as [|x l IH]; intros s s' Hs; simpl.
  - by intros [= <-].
  - destruct (body x s) as [s1|] eqn:Hx; simpl; [|discriminate].
    apply IH. by eapply Hbody.
Qed.

(** ** The reference library instances *)

Lemma floorSqrt_nonneg (x : Q) : (0 <= x)%Q -> (0 <= reference.floorSqrt x)%Q.
Proof.
  intros _. unfold reference.floorSqrt, Qle. simpl.
  pose proof (Z.sqrt_nonneg (Qnum x * Z.pos (Qden x))). lia.
Qed.

#[export] Instance reference_math_laws : MathLibLaws := {|
  Sqrt_nonneg := floorSqrt_nonneg
|}.

Lemma orthogonalise_length cols : forall qs qs',
  reference.orthogonalise qs cols = Some qs' ->
  length qs' = (length qs + length cols)%nat.
Proof.
  induction cols as [|a rest IH]; intros qs qs' Hq; simpl in *.
  - injection Hq as <-. lia.
  - destruct (Qeq_bool _ _); [discriminate|].
    apply IH in Hq. rewrite length_app in Hq. simpl in Hq. lia.
Qed.

Lemma backSubstitute_length b : forall qs cols,
  length qs = length cols ->
  length (reference.backSubstitute qs cols b) = length cols.
Proof.
  induction qs as [|q qs IH]; intros [|a cols] Hlen; simpl in *; try lia.
  rewrite IH; lia.
Qed.

Lemma reference_solve_shape A b x :
  reference.solve A b = Ret (x, None) -> Int.len x = mat.cols A.
Proof.
  unfold reference.solve. case_decide as Hw; [|discriminate].
  destruct (reference.orthogonalise _ _) as [qs|] eqn:Hq; [|discriminate].
  intros [= <-]. apply orthogonalise_length in Hq. simpl in Hq.
  unfold Int.len. rewrite backSubstitute_length by done.
  rewrite length_map, length_seq. destruct Hw as [? _]. lia.
Qed.

Lemma reference_solve_returns A b :
  0 < mat.cols A <= mat.rows A ->
  Int.len (mat.data A) = mat.rows A * mat.cols A ->
  Int.len b = mat.rows A ->
  exists r, reference.solve A b = Ret r.
Proof.
  intros H1 H2 H3. unfold reference.solve.
  rewrite decide_True by (unfold reference.wellShaped; tauto).
  destruct (reference.orthogonalise _ _); eauto.
Qed.

#[export] Instance reference_gonum_laws : GonumLaws := {|
  QR_SolveVecTo_shape := reference_solve_shape;
  QR_SolveVecTo_returns := reference_solve_returns
|}.

(** ** Construction of the engine *)

Section NewSimulation_facts.

Import simulation.

(** [NewSimulation] returns an engine together with a nil error, or no
    engine together with a ConfigurationError. *)
Lemma NewSimulation_result D bounds tick :
  match NewSimulation D bounds tick with
  | (Some s, None) => dimension s = D /\ simulation.bounds s = bounds
  | (None, Some e) => kind_of e = Some ConfigurationError
  | _ => False
  end.
Proof.
  unfold NewSimulation. repeat case_decide; simpl; auto.
Qed.

(** C3, as stated, fails: dimension 0 is accepted, and so is an axis
    whose minimum exceeds its maximum. *)
Lemma NewSimulation_accepts_more :
  (is_Some (NewSimulation 0 [] 100).1 /\ ~ 1 <= 0) /\
  (is_Some (NewSimulation 1 [5%Q; 1%Q] 100).1 /\ axesOrdered [5%Q; 1%Q] = false).
Proof.
  split; split; try (vm_compute; eauto; fail); try lia; reflexivity.
Qed.

(** C3 (amended): for a dimension [D >= 1] the constructor succeeds
    exactly when [bounds] has [2*D] entries, whatever the order inside
    each pair; it also succeeds for [D = 0] with empty bounds; it fails
    for every negative [D]; and a failure is a ConfigurationError with
    no engine, a success an engine with no error. *)
Theorem NewSimulation_succeeds_iff D bounds tick :
  Int.in_range D -> Int.len bounds <= Int.max_int ->
  let r := NewSimulation D bounds tick in
  (1 <= D -> (is_Some r.1 <-> Int.len bounds = 2 * D)) /\
  (D = 0 -> bounds = [] -> is_Some r.1) /\
  (D < 0 -> r.1 = None) /\
  (r.1 = None -> exists e, r.2 = Some e /\ kind_of e = Some ConfigurationError) /\
  (is_Some r.1 -> r.2 = None).
Proof.
  intros HD Hlen r. subst r.
  pose proof (NewSimulation_result D bounds tick) as Hres.
  assert (Hcode : 1 <= D ->
    (is_Some (NewSimulation D bounds tick).1 <-> Int.len bounds = Int.mul D 2)).
  { intros HD1. unfold NewSimulation.
    repeat case_decide; simpl; split; intros Hx;
      try done; try lia; try (destruct Hx; discriminate); try tauto. }
  split; [|split; [|split; [|split]]].
  - intros HD1. rewrite (Hcode HD1). apply len_eq_double; (done || lia).
  - intros -> ->. vm_compute. eauto.
  - intros Hneg. unfold NewSimulation. repeat case_decide; simpl; (done || lia).
  - intros Hnone. destruct (NewSimulation D bounds tick) as [[s|] [e|]];
      simpl in *; try done. eauto.
  - intros [s Hs]. destruct (NewSimulation D bounds tick) as [[s'|] [e|]];
      simpl in *; try done.
Qed.

Lemma NewSimulation_succeeds_iff_witness :
  let r := NewSimulation 2 [0; 10; 0; 10]%Q 100 in
  (1 <= 2 -> (is_Some r.1 <-> Int.len [0; 10; 0; 10]%Q = 2 * 2)) /\
  (2 = 0 -> [0; 10; 0; 10]%Q = [] -> is_Some r.1) /\
  (2 < 0 -> r.1 = None) /\
  (r.1 = None -> exists e, r.2 = Some e /\ kind_of e = Some ConfigurationError) /\
  (is_Some r.1 -> r.2 = None).
Proof.
  apply (NewSimulation_succeeds_iff 2 [0; 10; 0; 10]%Q 100).
  - unfold Int.in_range, Int.min_int, Int.max_int. lia.
  - vm_compute. discriminate.
Defined.

End NewSimulation_facts.

(** ** Too few measurements *)

Section Insufficient.

Import simulation.
Context `{MathLib} `{Gonum}.

(** C6: with fewer than [D+1] measurements the solver returns the empty
    solution, which holds no position, and an InsufficientMeasurements
    error.  [D+1] is computed in [int]: [D] is below the largest [int]. *)
Theorem SolveLeastSquares_insufficient (ms : list Measurement) (D : Z) :
  Int.min_int <= D < Int.max_int ->
  Int.len ms < D + 1 ->
  SolveLeastSquares ms D =
    Ret (emptySolution, Some (ErrInsufficientMeasurements (Int.len ms) (D + 1) D)) /\
  kind_of (ErrInsufficientMeasurements (Int.len ms) (D + 1) D)
    = Some InsufficientMeasurements /\
  Position emptySolution = None.
Proof.
  intros HD Hlt. split; [|done].
  unfold SolveLeastSquares, Int.add.
  rewrite wrap_id by (unfold Int.in_range; lia).
  by rewrite decide_True.
Qed.

End Insufficient.

Lemma SolveLeastSquares_insufficient_witness :
  let ms := [ {| multilateration.SensorPosition := Some [0; 0]%Q;
                 multilateration.Distance := 5 |};
              {| multilateration.SensorPosition := Some [10; 0]%Q;
                 multilateration.Distance := 7 |} ] in
  multilateration.SolveLeastSquares ms 2 =
    Ret (multilateration.emptySolution,
         Some (ErrInsufficientMeasurements (Int.len ms) (2 + 1) 2)) /\
  kind_of (ErrInsufficientMeasurements (Int.len ms) (2 + 1) 2)
    = Some InsufficientMeasurements /\
  multilateration.Position multilateration.emptySolution = None.
Proof.
  apply SolveLeastSquares_insufficient.
  - unfold Int.min_int, Int.max_int. lia.
  - vm_compute. reflexivity.
Defined.

(** ** Noise and measured distances *)

Section Noise.

Import simulation.

(** C7, as stated, fails: the three random noise functions return
    [trueDistance + noise] as it is, which can be negative for a
    non-negative true distance. *)
Lemma noise_functions_not_clamped :
  ((GaussianNoise 1 1 lowDraws).1 < 0)%Q /\
  ((UniformNoise 3 1 lowDraws).1 < 0)%Q /\
  ((PercentageNoise 2 1 lowDraws).1 < 0)%Q.
Proof. repeat split. Qed.

Context `{MathLib}.

Lemma MeasureDistance_clamped {T} `{SimulationObject T}
    (s : Sensor) (target : T) (r : RNG) :
  (0 <= (MeasureDistance s target r).1.1.1)%Q.
Proof.
  unfold MeasureDistance.
  destruct (common.Distance _ _) as [trueDist [e|]]; simpl; [apply Qle_refl|].
  destruct (_ && _); simpl; [apply Qle_refl|].
  destruct (match noiseFunc s with Some f => _ | None => _ end) as [noisy r1].
  simpl. destruct (Qltb noisy 0) eqn:E; [apply Qle_refl|].
  by apply Qltb_ge.
Qed.

(** C7 (amended): the clamp is in [Sensor.MeasureDistance].  Whatever
    the sensor's noise function (nil, one of the four variants or any
    other), whatever the target and whatever the draws, the distance
    [MeasureDistance] returns is non-negative; and [NoNoise] returns the
    true distance unchanged. *)
Theorem MeasureDistance_nonneg {T} `{SimulationObject T}
    (s : Sensor) (target : T) (r : RNG) :
  (0 <= (MeasureDistance s target r).1.1.1)%Q /\
  (forall d r', NoNoise d r' = (d, r')).
Proof. split; [apply MeasureDistance_clamped|done]. Qed.

End Noise.

(** ** Motion of a target *)

Section TargetUpdate.

Import common simulation.
Context `{MathLib}.

Lemma perturb_loop (deltaTime : Q) (dim : Z) (vel : list Q) (r : RNG) :
  Int.len vel = dim ->
  exists vel1 r1,
    foldM (perturb deltaTime) (upto dim) (vel, r) = Ret (vel1, r1) /\
    Int.len vel1 = dim.
Proof.
  intros Hlen.
  destruct (for_invariant (fun _ st => Int.len st.1 = dim)
              (perturb deltaTime) dim (vel, r)) as ([vel1 r1] & Hrun & Hinv).
  - rewrite <- Hlen. apply len_nonneg.
  - done.
  - intros i [vl r0] Hi Hvl. simpl in Hvl. unfold perturb.
    destruct (lookup_lt_is_Some_2 vl (Z.to_nat i)) as [v Hv].
    { unfold Int.len in Hvl. lia. }
    rewrite (index_Ret _ _ v) by (done || lia). simpl.
    rewrite assign_Ret by lia. simpl.
    eexists. split; [done|]. simpl. unfold Int.len in *.
    by rewrite length_insert.
  - eauto.
Qed.

Lemma limitSpeed_Dimension (vel : Vector) :
  Dimension (limitSpeed vel) = Dimension vel.
Proof.
  unfold limitSpeed. destruct (Qgtb _ _); [|done].
  unfold MultiplyByScalar, Dimension, Int.len. simpl. by rewrite length_map.
Qed.

Lemma bounce_loop (bounds integ vel2 : list Q) (dim : Z) :
  Int.len integ = dim -> Int.len vel2 = dim ->
  Int.len bounds = 2 * dim -> Int.len bounds <= Int.max_int ->
  exists newPos1 vel3,
    foldM (bounce bounds) (upto dim) (integ, vel2) = Ret (newPos1, vel3) /\
    Int.len newPos1 = dim /\ Int.len vel3 = dim /\
    forall (i : nat) p v lo hi,
      integ !! i = Some p -> vel2 !! i = Some v ->
      bounds !! (2 * i)%nat = Some lo -> bounds !! (2 * i + 1)%nat = Some hi ->
      newPos1 !! i = Some (reflectAxis lo hi p v).1 /\
      vel3 !! i = Some (reflectAxis lo hi p v).2.
Proof.
  intros Hinteg Hvel Hb Hfit.
  set (Inv := fun (n : Z) (st : list Q * list Q) =>
    Int.len st.1 = dim /\ Int.len st.2 = dim /\
    forall (i : nat) p v lo hi,
      integ !! i = Some p -> vel2 !! i = Some v ->
      bounds !! (2 * i)%nat = Some lo -> bounds !! (2 * i + 1)%nat = Some hi ->
      st.1 !! i = Some (if decide (Z.of_nat i < n) then (reflectAxis lo hi p v).1 else p) /\
      st.2 !! i = Some (if decide (Z.of_nat i < n) then (reflectAxis lo hi p v).2 else v)).
  destruct (for_invariant Inv (bounce bounds) dim (integ, vel2))
    as ([newPos1 vel3] & Hrun & Hlp & Hlv & Hall).
  - rewrite <- Hinteg. apply len_nonneg.
  - repeat split; try done; rewrite !decide_False by lia; done.
  - intros i [np vl] Hi (Hnp & Hvl & Hax). cbn [fst snd] in Hnp, Hvl, Hax.
    unfold Int.len in Hinteg, Hvel, Hb, Hnp, Hvl, Hfit.
    destruct (lookup_lt_is_Some_2 integ (Z.to_nat i)) as [p Hp]; [lia|].
    destruct (lookup_lt_is_Some_2 vel2 (Z.to_nat i)) as [v Hv]; [lia|].
    destruct (lookup_lt_is_Some_2 bounds (2 * Z.to_nat i)) as [lo Hlo]; [lia|].
    destruct (lookup_lt_is_Some_2 bounds (2 * Z.to_nat i + 1)) as [hi Hhi]; [lia|].
    destruct (Hax _ _ _ _ _ Hp Hv Hlo Hhi) as [Hcp Hcv].
    rewrite decide_False in Hcp, Hcv by lia.
    assert (Hm : Int.mul i 2 = i * 2).
    { unfold Int.mul. apply wrap_id.
      unfold Int.in_range, Int.min_int, Int.max_int in *. lia. }
    assert (Ha : Int.add (i * 2) 1 = i * 2 + 1).
    { unfold Int.add. apply wrap_id.
      unfold Int.in_range, Int.min_int, Int.max_int in *. lia. }
    unfold bounce. rewrite Hm, Ha.
    assert (Hn1 : Z.to_nat (i * 2) = (2 * Z.to_nat i)%nat) by lia.
    assert (Hn2 : Z.to_nat (i * 2 + 1) = (2 * Z.to_nat i + 1)%nat) by lia.
    rewrite (index_Ret bounds (i * 2) lo) by (lia || by rewrite Hn1). simpl.
    rewrite (index_Ret bounds (i * 2 + 1) hi) by (lia || by rewrite Hn2). simpl. rewrite (index_Ret np i p) by (done || lia). simpl.
    assert (Hstep : forall np' vl',
      np' = (if Qltb p lo || Qgtb p hi then <[Z.to_nat i := (reflectAxis lo hi p v).1]> np else np) ->
      vl' = (if Qltb p lo || Qgtb p hi then <[Z.to_nat i := (reflectAxis lo hi p v).2]> vl else vl) ->
      Inv (i + 1) (np', vl')).
    { intros np' vl' -> ->. unfold Inv. cbn [fst snd]. split; [|split].
      - destruct (_ || _); unfold Int.len; rewrite ?length_insert; lia.
      - destruct (_ || _); unfold Int.len; rewrite ?length_insert; lia.
      - intros j p' v' lo' hi' Hp' Hv' Hlo' Hhi'.
        destruct (Hax _ _ _ _ _ Hp' Hv' Hlo' Hhi') as [Hjp Hjv].
        destruct (decide (j = Z.to_nat i)) as [->|Hne].
        + rewrite !decide_True by lia.
          assert (p' = p) as -> by congruence.
          assert (v' = v) as -> by congruence.
          assert (lo' = lo) as -> by congruence.
          assert (hi' = hi) as -> by congruence.
          destruct (Qltb p lo || Qgtb p hi) eqn:E.
          * rewrite !list_lookup_insert_eq by lia. done.
          * rewrite Hcp, Hcv. apply orb_false_iff in E as [E1 E2].
            unfold reflectAxis. rewrite E1, E2. done.
        + destruct (Qltb p lo || Qgtb p hi);
            rewrite ?list_lookup_insert_ne by done;
            rewrite Hjp, Hjv;
            destruct (decide (Z.of_nat j < i)), (decide (Z.of_nat j < i + 1));
            (done || (exfalso; lia)). }
    unfold reflectAxis in Hstep.
    destruct (Qltb p lo) eqn:E1; simpl in *.
    + rewrite assign_Ret by (unfold Int.len; rewrite ?length_insert; lia). simpl.
      rewrite (index_Ret vl i v) by (done || lia). simpl.
      rewrite assign_Ret by (unfold Int.len; rewrite ?length_insert; lia). simpl. eexists. split; [done|].
      by apply Hstep.
    + destruct (Qgtb p hi) eqn:E2; simpl in *.
      * rewrite assign_Ret by (unfold Int.len; rewrite ?length_insert; lia). simpl.
        rewrite (index_Ret vl i v) by (done || lia). simpl.
        rewrite assign_Ret by (unfold Int.len; rewrite ?length_insert; lia). simpl. eexists. split; [done|].
        by apply Hstep.
      * eexists. split; [done|]. by apply Hstep.
  - exists newPos1, vel3. cbn [fst snd] in Hlp, Hlv, Hall.
    split; [done|]. split; [done|]. split; [done|].
    intros j p v lo hi Hp Hv Hlo Hhi.
    destruct (Hall _ _ _ _ _ Hp Hv Hlo Hhi) as [Hx Hy].
    apply lookup_lt_Some in Hp. unfold Int.len in Hinteg.
    rewrite decide_True in Hx by lia. rewrite decide_True in Hy by lia. done.
Qed.

Lemma elems_stored (v : Vector) (l : list Q) :
  Int.len l = Dimension v -> elems (stored v l) = l.
Proof.
  destruct v as [xs|]; [done|]. unfold Dimension, Int.len. simpl.
  destruct l; [done|simpl; lia].
Qed.

Lemma Dimension_stored (v : Vector) (l : list Q) :
  Int.len l = Dimension v -> Dimension (stored v l) = Dimension v.
Proof. intros Hl. unfold Dimension at 1. by rewrite elems_stored. Qed.

(** The run of [Update] inside well-sized bounds. *)
Lemma Target_Update_run (t : Target) (deltaTime : Q) (bounds : list Q) (r : RNG) :
  Dimension (velocity t) = Dimension (target_position t) ->
  Int.len bounds = 2 * Dimension (target_position t) ->
  Int.len bounds <= Int.max_int ->
  exists vel1 r1 t',
    foldM (perturb deltaTime) (upto (Dimension (target_position t)))
      (elems (velocity t), r) = Ret (vel1, r1) /\
    Target_Update t deltaTime bounds r = Ret (t', r1) /\
    target_id t' = target_id t /\
    Dimension (target_position t') = Dimension (target_position t) /\
    Dimension (velocity t') = Dimension (target_position t) /\
    let vel2 := elems (limitSpeed (stored (velocity t) vel1)) in
    let integ := zip_with Qplus (elems (target_position t))
                   (map (fun x => x * deltaTime)%Q vel2) in
    forall (i : nat) (p v lo hi : Q),
      integ !! i = Some p -> vel2 !! i = Some v ->
      bounds !! (2 * i)%nat = Some lo -> bounds !! (2 * i + 1)%nat = Some hi ->
      exists p' v',
        elems (target_position t') !! i = Some p' /\
        elems (velocity t') !! i = Some v' /\
        ((p < lo)%Q -> p' = (lo + (lo - p))%Q /\ v' = (v * -0.8)%Q) /\
        ((lo <= p)%Q -> (hi < p)%Q -> (p' == hi + (hi - p))%Q /\ v' = (v * -0.8)%Q) /\
        ((lo <= p)%Q -> (p <= hi)%Q -> p' = p /\ v' = v).
Proof.
  intros Hvel Hb Hfit.
  set (dim := Dimension (target_position t)) in *.
  destruct (perturb_loop deltaTime dim (elems (velocity t)) r Hvel)
    as (vel1 & r1 & Hrun1 & Hlen1).
  exists vel1, r1.
  assert (Hdim2 : Int.mul dim 2 = 2 * dim).
  { unfold Int.mul. rewrite wrap_id; [lia|].
    pose proof (len_nonneg bounds).
    unfold Int.in_range, Int.min_int, Int.max_int in *. lia. }
  set (vel2v := limitSpeed (stored (velocity t) vel1)).
  assert (Hvel2 : Dimension vel2v = dim).
  { unfold vel2v. rewrite limitSpeed_Dimension, Dimension_stored; congruence. }
  set (integ := zip_with Qplus (elems (target_position t))
                  (map (fun x => x * deltaTime)%Q (elems vel2v))).
  assert (Hinteg : Int.len integ = dim).
  { unfold integ, Int.len. rewrite length_zip_with, length_map.
    clear -Hvel2. unfold dim, Dimension, Int.len in *. lia. }
  destruct (bounce_loop bounds integ (elems vel2v) dim Hinteg Hvel2 Hb Hfit)
    as (newPos1 & vel3 & Hrun2 & Hl1 & Hl3 & Hax).
  exists {| target_id := target_id t;
            target_position := Some newPos1;
            velocity := stored vel2v vel3 |}.
  split; [done|]. split; [|split; [done|split; [done|split]]].
  - unfold Target_Update. fold dim. rewrite Hdim2.
    rewrite decide_False by (intros Hne; apply Hne; done).
    rewrite Hrun1. simpl. fold vel2v.
    unfold Add, MultiplyByScalar.
    rewrite decide_False.
    2:{ intros Hne. apply Hne. unfold Dimension at 2. simpl.
        unfold Int.len. rewrite length_map. exact (eq_sym Hvel2). }
    cbn [elems default from_option id]. fold integ. rewrite Hrun2. simpl. reflexivity.
  - cbn [velocity]. rewrite Dimension_stored; congruence.
  - cbn zeta. intros i p v lo hi Hp Hv Hlo Hhi.
    destruct (Hax i p v lo hi Hp Hv Hlo Hhi) as [Hp' Hv'].
    exists (reflectAxis lo hi p v).1, (reflectAxis lo hi p v).2.
    cbn [target_position velocity stored elems default].
    rewrite elems_stored by congruence.
    split; [done|]. split; [done|].
    unfold reflectAxis. split; [|split].
    + intros Hlt. apply Qltb_lt in Hlt. rewrite Hlt. done.
    + intros Hle Hgt. apply Qltb_ge in Hle. rewrite Hle.
      apply Qltb_lt in Hgt. unfold Qgtb. rewrite Hgt. simpl.
      split; [ring|done].
    + intros Hle Hle2. apply Qltb_ge in Hle. rewrite Hle.
      apply Qltb_ge in Hle2. unfold Qgtb. rewrite Hle2. done.
Qed.

(** C9: when [bounds] has [2*dimension] entries, [Update] returns, and
    on every axis the integrated coordinate [p] (the position plus the
    perturbed, speed-limited velocity times [deltaTime]) is treated on
    its own: below the minimum it becomes [lo + (lo - p)], above the
    maximum it becomes [hi + (hi - p)], and in both cases the velocity
    component is multiplied by [-0.8]; inside the interval coordinate
    and velocity component stay as integrated. *)
Theorem Target_Update_reflects (t : Target) (deltaTime : Q) (bounds : list Q) (r : RNG) :
  Dimension (velocity t) = Dimension (target_position t) ->
  Int.len bounds = 2 * Dimension (target_position t) ->
  Int.len bounds <= Int.max_int ->
  exists vel1 r1 t',
    foldM (perturb deltaTime) (upto (Dimension (target_position t)))
      (elems (velocity t), r) = Ret (vel1, r1) /\
    Target_Update t deltaTime bounds r = Ret (t', r1) /\
    let vel2 := elems (limitSpeed (stored (velocity t) vel1)) in
    let integ := zip_with Qplus (elems (target_position t))
                   (map (fun x => x * deltaTime)%Q vel2) in
    forall (i : nat) (p v lo hi : Q),
      integ !! i = Some p -> vel2 !! i = Some v ->
      bounds !! (2 * i)%nat = Some lo -> bounds !! (2 * i + 1)%nat = Some hi ->
      exists p' v',
        elems (target_position t') !! i = Some p' /\
        elems (velocity t') !! i = Some v' /\
        ((p < lo)%Q -> p' = (lo + (lo - p))%Q /\ v' = (v * -0.8)%Q) /\
        ((lo <= p)%Q -> (hi < p)%Q -> (p' == hi + (hi - p))%Q /\ v' = (v * -0.8)%Q) /\
        ((lo <= p)%Q -> (p <= hi)%Q -> p' = p /\ v' = v).
Proof.
  intros Hvel Hb Hfit.
  destruct (Target_Update_run t deltaTime bounds r Hvel Hb Hfit)
    as (vel1 & r1 & t' & Hrun1 & Hrun & _ & _ & _ & Hax).
  exists vel1, r1, t'. auto.
Qed.

End TargetUpdate.

Example runner_bounces :
  match simulation.Target_Update runner 1 [0; 10]%Q evenDraws with
  | Ret (t', _) =>
      Forall2 Qeq (common.elems (simulation.target_position t')) [1%Q] /\
      Forall2 Qeq (common.elems (simulation.velocity t')) [(-8)%Q]
  | Panic => False
  end.
Proof. vm_compute. split; repeat constructor. Qed.

Lemma Target_Update_reflects_witness :
  exists vel1 r1 t',
    foldM (simulation.perturb 1)
      (upto (common.Dimension (simulation.target_position runner)))
      (common.elems (simulation.velocity runner), evenDraws) = Ret (vel1, r1) /\
    simulation.Target_Update runner 1 [0; 10]%Q evenDraws = Ret (t', r1) /\
    let vel2 := common.elems (simulation.limitSpeed
                  (common.stored (simulation.velocity runner) vel1)) in
    let integ := zip_with Qplus (common.elems (simulation.target_position runner))
                   (map (fun x => x * 1)%Q vel2) in
    forall (i : nat) (p v lo hi : Q),
      integ !! i = Some p -> vel2 !! i = Some v ->
      [0; 10]%Q !! (2 * i)%nat = Some lo -> [0; 10]%Q !! (2 * i + 1)%nat = Some hi ->
      exists p' v',
        common.elems (simulation.target_position t') !! i = Some p' /\
        common.elems (simulation.velocity t') !! i = Some v' /\
        ((p < lo)%Q -> p' = (lo + (lo - p))%Q /\ v' = (v * -0.8)%Q) /\
        ((lo <= p)%Q -> (hi < p)%Q -> (p' == hi + (hi - p))%Q /\ v' = (v * -0.8)%Q) /\
        ((lo <= p)%Q -> (p <= hi)%Q -> p' = p /\ v' = v).
Proof.
  apply (Target_Update_reflects runner 1 [0; 10]%Q evenDraws).
  - vm_compute. reflexivity.
  - vm_compute. reflexivity.
  - vm_compute. discriminate.
Defined.

(** ** The linear system of the solver *)

Section LinearSystem.

Import common multilateration.

Lemma Qmult_2_comm (x : Q) : (x * 2 = 2 * x)%Q.
Proof.
  destruct x as [n d]. unfold Qmult. simpl. f_equal; [lia|].
  apply Pos.mul_1_r.
Qed.

Lemma scaled_row (ref m : Measurement) :
  Dimension (SensorPosition ref) = Dimension (SensorPosition m) ->
  Subtract (SensorPosition ref) (SensorPosition m) =
    (Some (zip_with Qminus (elems (SensorPosition ref)) (elems (SensorPosition m))), None) /\
  elems (MultiplyByScalar
           (Some (zip_with Qminus (elems (SensorPosition ref))
                    (elems (SensorPosition m)))) 2) = equationRow ref m.
Proof.
  intros Hd. split.
  - unfold Subtract. by rewrite decide_False by (intros Hne; by apply Hne).
  - unfold MultiplyByScalar, equationRow. simpl.
    apply map_ext. intros x. apply Qmult_2_comm.
Qed.

Lemma nonNegative_id (d : Q) : (0 <= d)%Q -> nonNegative d = d.
Proof. intros Hd. unfold nonNegative. apply Qltb_ge in Hd. by rewrite Hd. Qed.

(** Writing a row into its place in the row-major storage. *)
Lemma fill_row (P T row : list Q) (i D : Z) :
  0 <= i -> 0 <= D ->
  Int.len row = D -> Int.len P = i * D ->
  i * D + D <= Int.max_int ->
  foldM (fillEntry i D (Some row)) (upto D) (P ++ replicate (Z.to_nat D) 0%Q ++ T)
  = Ret (P ++ row ++ T).
Proof.
  intros Hi HD Hrow HP Hfit.
  destruct (for_invariant
    (fun j (a : list Q) =>
       a = P ++ take (Z.to_nat j) row ++ replicate (Z.to_nat (D - j)) 0%Q ++ T)
    (fillEntry i D (Some row)) D (P ++ replicate (Z.to_nat D) 0%Q ++ T))
    as (a & Hrun & Hinv).
  - done.
  - simpl. by rewrite Z.sub_0_r.
  - intros j a Hj ->. unfold fillEntry. simpl.
    unfold Int.len in Hrow, HP.
    destruct (lookup_lt_is_Some_2 row (Z.to_nat j)) as [x Hx]; [lia|].
    rewrite (index_Ret row j x) by (done || lia). simpl.
    assert (Hidx : Int.add (Int.mul i D) j = i * D + j).
    { unfold Int.add, Int.mul.
      rewrite (wrap_id (i * D)) by (unfold Int.in_range, Int.min_int, Int.max_int in *; nia).
      apply wrap_id. unfold Int.in_range, Int.min_int, Int.max_int in *. nia. }
    rewrite Hidx. rewrite assign_Ret.
    2:{ unfold Int.len. rewrite !length_app, length_take, !length_replicate. lia. }
    eexists. split; [done|].
    replace (Z.to_nat (i * D + j)) with (length P + Z.to_nat j)%nat by lia.
    rewrite insert_app_r.
    f_equal.
    replace (Z.to_nat j) with (length (take (Z.to_nat j) row) + 0)%nat at 1
      by (rewrite length_take; lia).
    rewrite insert_app_r.
    replace (Z.to_nat (D - j)) with (Datatypes.S (Z.to_nat (D - (j + 1)))) by lia.
    simpl. replace (Z.to_nat (j + 1)) with (Datatypes.S (Z.to_nat j)) by lia.
    rewrite (take_S_r _ _ x) by done. by rewrite <- app_assoc.
  - rewrite Hrun. f_equal. rewrite Hinv.
    rewrite Z.sub_diag. simpl. rewrite firstn_all2; [done|].
    unfold Int.len in Hrow. lia.
Qed.

Lemma length_rows (ref : Measurement) (l : list Measurement) (D : Z) :
  Dimension (SensorPosition ref) = D ->
  Forall (fun m => Dimension (SensorPosition m) = D) l ->
  Forall (fun row => Int.len row = D) (map (equationRow ref) l).
Proof.
  intros Href Hl. apply Forall_map. eapply Forall_impl; [exact Hl|].
  intros m Hm. simpl. unfold equationRow, Int.len.
  rewrite length_map, length_zip_with.
  unfold Dimension, Int.len in *. lia.
Qed.

Lemma length_concat_rows (rowsA : list (list Q)) (D : Z) :
  Forall (fun row => Int.len row = D) rowsA ->
  Int.len (concat rowsA) = Int.len rowsA * D.
Proof.
  unfold Int.len. induction 1 as [|row rowsA Hrow _ IH]; simpl; [lia|].
  rewrite length_app. lia.
Qed.

Lemma row_concat (rowsA : list (list Q)) (n D : Z) (i : nat) (row : list Q) :
  0 <= D ->
  Forall (fun row => Int.len row = D) rowsA ->
  rowsA !! i = Some row ->
  mat.row (mat.NewDense n D (concat rowsA)) i = row.
Proof.
  intros HD Hall. unfold mat.row. simpl. revert i row.
  induction Hall as [|r rowsA Hr _ IH]; intros i row Hi; [done|].
  unfold Int.len in Hr. destruct i as [|i]; simpl in *.
  - injection Hi as ->. rewrite drop_0, take_app_length'; [done|lia].
  - rewrite drop_app_ge by lia.
    replace (Z.to_nat D + i * Z.to_nat D - length r)%nat with (i * Z.to_nat D)%nat by lia.
    by apply IH.
Qed.

Lemma MulVec_rows (rowsA : list (list Q)) (D : Z) (x : list Q) :
  0 <= D ->
  Forall (fun row => Int.len row = D) rowsA ->
  Int.len x = D ->
  mat.MulVec (mat.NewDense (Int.len rowsA) D (concat rowsA)) x =
    Ret (map (fun row => mat.dot row x) rowsA).
Proof.
  intros HD Hall Hx. unfold mat.MulVec. simpl. rewrite decide_True by done.
  f_equal. unfold Int.len. rewrite Nat2Z.id.
  apply list_eq. intros i. rewrite !list_lookup_fmap.
  destruct (rowsA !! i) as [row|] eqn:Hrow; simpl.
  - rewrite lookup_seq_lt by (by eapply lookup_lt_Some). simpl.
    by rewrite (row_concat rowsA _ D i row).
  - apply lookup_ge_None in Hrow. by rewrite lookup_seq_ge.
Qed.

(** Copying the solved vector into the result. *)
Lemma copy_loop (x : list Q) (D : Z) :
  Int.len x = D ->
  foldM (fun i r => xi ← mat.AtVec x i; assign r i xi) (upto D)
    (replicate (Z.to_nat D) 0%Q) = Ret x.
Proof.
  intros Hx. pose proof (len_nonneg x) as HD. rewrite Hx in HD.
  destruct (for_invariant
    (fun j (r : list Q) =>
       r = take (Z.to_nat j) x ++ replicate (Z.to_nat (D - j)) 0%Q)
    (fun i r => xi ← mat.AtVec x i; assign r i xi) D
    (replicate (Z.to_nat D) 0%Q)) as (r & Hrun & Hinv).
  - done.
  - simpl. by rewrite Z.sub_0_r.
  - intros j r Hj ->. unfold Int.len in Hx. unfold mat.AtVec.
    destruct (lookup_lt_is_Some_2 x (Z.to_nat j)) as [xj Hxj]; [lia|].
    rewrite (index_Ret x j xj) by (done || lia). simpl.
    rewrite assign_Ret.
    2:{ unfold Int.len. rewrite length_app, length_take, length_replicate. lia. }
    eexists. split; [done|].
    replace (Z.to_nat j) with (length (take (Z.to_nat j) x) + 0)%nat at 1
      by (rewrite length_take; lia).
    rewrite insert_app_r.
    replace (Z.to_nat (D - j)) with (Datatypes.S (Z.to_nat (D - (j + 1)))) by lia.
    simpl. replace (Z.to_nat (j + 1)) with (Datatypes.S (Z.to_nat j)) by lia.
    rewrite (take_S_r _ _ xj) by done. by rewrite <- app_assoc.
  - rewrite Hrun. f_equal. rewrite Hinv, Z.sub_diag. simpl.
    rewrite app_nil_r. apply firstn_all2. unfold Int.len in Hx. lia.
Qed.

Lemma fill_system (others : list Measurement) (ref : Measurement) (D : Z) :
  1 <= D ->
  Int.len (others ++ [ref]) * D <= Int.max_int ->
  Forall (fun m => Dimension (SensorPosition m) = D) (others ++ [ref]) ->
  foldM_return
    (fillEquation (others ++ [ref]) D (SensorPosition ref)
       (nonNegative (Distance ref) * nonNegative (Distance ref))%Q
       (NormSq (SensorPosition ref)))
    (upto (Int.len others))
    (replicate (Z.to_nat (Int.len others * D)) 0%Q,
     replicate (Z.to_nat (Int.len others)) 0%Q)
  = Ret (inl (concat (map (equationRow ref) others),
              map (fun m => equationRhs (clamp ref) (clamp m)) others)).
Proof.
  intros HD Hfit Hdim.
  apply Forall_app in Hdim as [Hdim Href]. rewrite Forall_singleton in Href.
  set (n := Int.len others).
  pose proof (len_nonneg others) as Hn. fold n in Hn.
  assert (Hfit' : (n + 1) * D <= Int.max_int).
  { unfold n, Int.len in *. rewrite length_app in Hfit. simpl in Hfit. lia. }
  destruct (for_return_invariant
    (fun i (st : list Q * list Q) =>
       st = (concat (map (equationRow ref) (take (Z.to_nat i) others))
               ++ replicate (Z.to_nat ((n - i) * D)) 0%Q,
             map (fun m => equationRhs (clamp ref) (clamp m)) (take (Z.to_nat i) others)
               ++ replicate (Z.to_nat (n - i)) 0%Q))
    (fillEquation (others ++ [ref]) D (SensorPosition ref)
       (nonNegative (Distance ref) * nonNegative (Distance ref))%Q
       (NormSq (SensorPosition ref)))
    n
    (replicate (Z.to_nat (n * D)) 0%Q, replicate (Z.to_nat n) 0%Q))
    as (st & Hrun & Hinv).
  - done.
  - simpl. by rewrite !Z.sub_0_r.
  - intros i st Hi ->. unfold fillEquation.
    destruct (lookup_lt_is_Some_2 others (Z.to_nat i)) as [m Hm].
    { unfold n, Int.len in *. lia. }
    rewrite (index_Ret (others ++ [ref]) i m);
      [|lia|by rewrite lookup_app_l by (by eapply lookup_lt_Some)].
    simpl.
    assert (Hmd : Dimension (SensorPosition m) = D).
    { eapply Forall_lookup_1 in Hdim; [|exact Hm]. exact Hdim. }
    destruct (scaled_row ref m) as [Hsub Hscaled]; [congruence|].
    rewrite Hsub.
    set (P := concat (map (equationRow ref) (take (Z.to_nat i) others))).
    assert (HP : Int.len P = i * D).
    { unfold P. rewrite (length_concat_rows _ D).
      - unfold Int.len. rewrite length_map, length_take.
        unfold n, Int.len in *. lia.
      - apply length_rows; [done|]. by apply Forall_take. }
    assert (Hrow : Int.len (equationRow ref m) = D).
    { pose proof (length_rows ref [m] D Href) as Hr.
      ospecialize (Hr _); [by rewrite Forall_singleton|].
      simpl in Hr. by rewrite Forall_singleton in Hr. }
    replace (Z.to_nat ((n - i) * D))
      with (Z.to_nat D + Z.to_nat ((n - (i + 1)) * D))%nat by nia.
    rewrite replicate_add.
    change (MultiplyByScalar
              (Some (zip_with Qminus (elems (SensorPosition ref))
                       (elems (SensorPosition m)))) 2)
      with (Some (elems (MultiplyByScalar
              (Some (zip_with Qminus (elems (SensorPosition ref))
                       (elems (SensorPosition m)))) 2))).
    rewrite Hscaled.
    rewrite (fill_row P _ (equationRow ref m) i D) by (done || nia). simpl.
    rewrite assign_Ret.
    2:{ unfold Int.len. rewrite length_app, length_map, length_take, length_replicate.
        unfold n, Int.len in *. lia. }
    simpl. eexists. split; [done|].
    replace (Z.to_nat (i + 1)) with (Datatypes.S (Z.to_nat i)) by lia.
    rewrite (take_S_r _ _ m) by done.
    rewrite !map_app, concat_app. simpl. rewrite app_nil_r.
    fold P. rewrite <- !app_assoc. f_equal.
    replace (Z.to_nat i)
      with (length (map (fun m => equationRhs (clamp ref) (clamp m))
                      (take (Z.to_nat i) others)) + 0)%nat at 1.
    2:{ rewrite length_map, length_take. unfold n, Int.len in *. lia. }
    rewrite insert_app_r.
    replace (Z.to_nat (n - i)) with (Datatypes.S (Z.to_nat (n - (i + 1)))) by lia.
    done.
  - rewrite Hrun, Hinv. rewrite !Z.sub_diag. simpl.
    rewrite !app_nil_r. unfold n, Int.len. rewrite Nat2Z.id.
    by rewrite firstn_all.
Qed.

Context `{MathLib} `{Gonum} `{!GonumLaws}.


(** The run of the solver on a well-shaped input: the system it hands
    to the QR solve and what it makes of the answer. *)
Lemma SolveLeastSquares_run (others : list Measurement) (ref : Measurement) (D : Z) :
  1 <= D ->
  D <= Int.len others ->
  Int.len (others ++ [ref]) * D <= Int.max_int ->
  Forall (fun m => Dimension (SensorPosition m) = D) (others ++ [ref]) ->
  let rowsA := map (equationRow ref) others in
  let A := mat.NewDense (Int.len others) D (concat rowsA) in
  let b := map (fun m => equationRhs (clamp ref) (clamp m)) others in
  SolveLeastSquares (others ++ [ref]) D =
    ('(x, err) ← QR_SolveVecTo A b;
     match err with
     | Some e => Ret (emptySolution, Some (ErrQRSolveFailed e))
     | None =>
         Ret ({| Position := Some x;
                 ResidualError :=
                   (mat.Nrm2 (residual rowsA b x)
                    / Sqrt (inject_Z (Int.len others)))%Q |}, None)
     end).
Proof.
  intros HD Hm Hfit Hdim. cbn zeta.
  set (ms := others ++ [ref]) in *.
  set (n := Int.len others) in *.
  assert (Hlen : Int.len ms = n + 1).
  { unfold ms, n, Int.len. rewrite length_app. simpl. lia. }
  assert (Hrange : forall z, 0 <= z <= (n + 1) * D -> Int.wrap z = z).
  { intros z Hz. apply wrap_id. rewrite Hlen in Hfit.
    unfold Int.in_range, Int.min_int, Int.max_int in *. lia. }
  unfold SolveLeastSquares. rewrite Hlen.
  unfold Int.add, Int.sub, Int.mul.
  rewrite (Hrange (D + 1)) by nia.
  rewrite decide_False by lia.
  replace (n + 1 - 1) with n by lia.
  rewrite (Hrange n) by nia. rewrite (Hrange (n * D)) by nia.
  rewrite (index_Ret ms n ref).
  2:{ lia. }
  2:{ unfold ms, n, Int.len. rewrite Nat2Z.id.
      rewrite lookup_app_r by lia. by rewrite Nat.sub_diag. }
  simpl.
  assert (Hrefd : Dimension (SensorPosition ref) = D).
  { apply Forall_app in Hdim as [_ Hr]. by rewrite Forall_singleton in Hr. }
  assert (Hothers : Forall (fun m => Dimension (SensorPosition m) = D) others).
  { by apply Forall_app in Hdim as [Hr _]. }
  unfold make. rewrite !decide_True by nia. simpl.
  pose proof (fill_system others ref D HD Hfit Hdim) as Hfill.
  fold ms in Hfill. fold n in Hfill. rewrite Hfill. simpl.
  set (rowsA := map (equationRow ref) others).
  set (b := map (fun m => equationRhs (clamp ref) (clamp m)) others).
  destruct (QR_SolveVecTo (mat.NewDense n D (concat rowsA)) b)
    as [[x [e|]]|] eqn:Hqr; simpl; [done| |done].
  apply QR_SolveVecTo_shape in Hqr. simpl in Hqr.
  assert (Hrows : Forall (fun row => Int.len row = D) rowsA).
  { by apply length_rows. }
  assert (HnA : Int.len rowsA = n).
  { unfold rowsA, n, Int.len. by rewrite length_map. }
  unfold finish.
  rewrite <- HnA at 1. rewrite MulVec_rows by (done || lia). simpl.
  unfold mat.SubVec. rewrite decide_True.
  2:{ unfold b, rowsA, Int.len. by rewrite !length_map. }
  simpl. unfold NewVector, make. rewrite decide_True by lia. simpl.
  rewrite copy_loop by done. simpl. reflexivity.
Qed.

(** *** Rank deficiency

    The solver's own rank test never fires, and a solution carries a
    position and a residual only: the one way in which a system without
    full column rank is reported is the error value of the QR solve,
    which the solver returns as a failure. *)

Lemma rankWarning_never (D : Z) : rankWarning D = false.
Proof. unfold rankWarning. apply bool_decide_eq_false. lia. Qed.

Lemma SolveLeastSquares_fails_with_the_solve (others : list Measurement)
    (ref : Measurement) (D : Z) :
  1 <= D ->
  D <= Int.len others ->
  Int.len (others ++ [ref]) * D <= Int.max_int ->
  Forall (fun m => Dimension (SensorPosition m) = D) (others ++ [ref]) ->
  let A := mat.NewDense (Int.len others) D (concat (map (equationRow ref) others)) in
  let b := map (fun m => equationRhs (clamp ref) (clamp m)) others in
  forall sol err,
    SolveLeastSquares (others ++ [ref]) D = Ret (sol, err) ->
    exists x e, QR_SolveVecTo A b = Ret (x, e) /\
      match e with
      | Some e' => sol = emptySolution /\ err = Some (ErrQRSolveFailed e')
      | None => Position sol = Some x /\ err = None
      end.
Proof.
  intros HD Hm Hfit Hdim A b sol err.
  rewrite SolveLeastSquares_run by done. cbn zeta. fold A b.
  destruct (QR_SolveVecTo A b) as [[x [e|]]|]; simpl; [| |discriminate].
  - intros [= <- <-]. by exists x, (Some e).
  - intros [= <- <-]. by exists x, None.
Qed.

End LinearSystem.

Example threeSensors_located :
  match multilateration.SolveLeastSquares threeSensors 2 with
  | Ret (sol, None) =>
      Forall2 Qeq (common.elems (multilateration.Position sol)) [0; 0]%Q /\
      (multilateration.ResidualError sol == 0)%Q
  | _ => False
  end.
Proof. vm_compute. split; repeat constructor. Qed.

(** Three sensors on a line: the reference solve reports the singular
    system, and the solver fails. *)
Example collinear_sensors_fail :
  multilateration.SolveLeastSquares
    [ {| multilateration.SensorPosition := Some [0; 0]%Q; multilateration.Distance := 5 |};
      {| multilateration.SensorPosition := Some [1; 0]%Q; multilateration.Distance := 5 |};
      {| multilateration.SensorPosition := Some [2; 0]%Q; multilateration.Distance := 4 |} ] 2
  = Ret (multilateration.emptySolution,
         Some (ErrQRSolveFailed (ErrGonum "matrix singular or near-singular"))).
Proof. vm_compute. reflexivity. Qed.

(** ** The engine: consistency and bookkeeping *)

Section EngineFacts.

Import common simulation.
Context `{MathLib} `{Gonum} `{!MathLibLaws} `{!GonumLaws}.

Lemma sumSq_nonneg (l : list Q) : (0 <= sumSq l)%Q.
Proof.
  unfold sumSq.
  assert (Hgen : forall acc : Q, (0 <= acc)%Q ->
            (0 <= foldl (fun a x => a + x * x) acc l)%Q).
  { induction l as [|x l IH]; intros acc Hacc; simpl; [done|].
    apply IH. assert (Hx : (0 <= x * x)%Q).
    { destruct x as [n d]. unfold Qle. simpl. nia. }
    lra. }
  apply Hgen. apply Qle_refl.
Qed.

Lemma Distance_same_dimension (v w : Vector) :
  Dimension v = Dimension w ->
  exists d, common.Distance v w = (d, None) /\ (0 <= d)%Q.
Proof.
  intros Hd. unfold common.Distance.
  rewrite decide_False by (intros Hne; by apply Hne).
  eexists. split; [done|]. apply Sqrt_nonneg, sumSq_nonneg.
Qed.

Lemma Target_Update_total (t : Target) (deltaTime : Q) (bounds : list Q)
    (r : RNG) (D : Z) :
  Dimension (velocity t) = Dimension (target_position t) ->
  Dimension (target_position t) = D ->
  0 <= D < Int.max_int ->
  Int.len bounds <= Int.max_int ->
  exists t' r',
    Target_Update t deltaTime bounds r = Ret (t', r') /\
    target_id t' = target_id t /\
    Dimension (target_position t') = D /\
    Dimension (velocity t') = D.
Proof.
  intros Hvel Hpos HD Hfit.
  destruct (decide (Int.len bounds = Int.mul D 2)) as [Heq|Hne].
  - assert (Hb : Int.len bounds = 2 * D).
    { destruct (decide (D = 0)) as [->|Hnz].
      - rewrite Heq. reflexivity.
      - apply len_eq_double in Heq; [done| |lia|done].
        unfold Int.in_range, Int.min_int, Int.max_int in *. lia. }
    rewrite <- Hpos in Hb.
    destruct (Target_Update_run t deltaTime bounds r Hvel Hb Hfit)
      as (vel1 & r1 & t' & _ & Hrun & Hid & Hp & Hv & _).
    exists t', r1. repeat split; congruence.
  - exists t, r. unfold Target_Update. rewrite Hpos.
    rewrite decide_True by done. repeat split; congruence.
Qed.

(** [record] touches the two bookkeeping maps only. *)
Lemma record_consistent (s : Simulation) (mem : Memory) (k : string)
    (sol : Solution) (e : Q) :
  consistent s mem -> is_Some (targets s !! k) -> consistent (record k sol e s) mem.
Proof.
  intros [] Hk. split; simpl; try done.
  - intros k'. destruct (decide (k = k')) as [->|Hne].
    + rewrite lookup_insert_eq. split; eauto.
    + by rewrite lookup_insert_ne.
  - intros k'. destruct (decide (k = k')) as [->|Hne].
    + rewrite lookup_insert_eq. split; eauto.
    + by rewrite lookup_insert_ne.
Qed.

(** Replacing a target by one with the same identifier and dimensions. *)
Lemma update_target_consistent (s : Simulation) (mem : Memory) (p : ptr)
    (t t' : Target) :
  consistent s mem ->
  targetCells mem !! p = Some t ->
  target_id t' = target_id t ->
  Dimension (target_position t') = Dimension (target_position t) ->
  Dimension (velocity t') = Dimension (target_position t') ->
  consistent s {| sensorCells := sensorCells mem;
                  targetCells := <[p := t']> (targetCells mem) |}.
Proof.
  intros [] Hp Hid Hpos Hvel. split; simpl; try done.
  - intros q u. destruct (decide (p = q)) as [->|Hne].
    + rewrite lookup_insert_eq. intros [= <-]. done.
    + rewrite lookup_insert_ne by done. apply memory_ok0.
  - intros k q Hk. destruct (targets_ok0 k q Hk) as (u & Hu & Hidu & Hdu).
    destruct (decide (p = q)) as [->|Hne].
    + exists t'. rewrite lookup_insert_eq. split; [done|].
      assert (u = t) as -> by congruence. split; congruence.
    + exists u. by rewrite lookup_insert_ne.
Qed.

Lemma updateObject_total (s : Simulation) (deltaTime : Q) (k : string)
    (mem : Memory) (r : RNG) :
  consistent s mem ->
  exists mem' r',
    updateObject s deltaTime k (mem, r) = Ret (mem', r') /\ consistent s mem'.
Proof.
  intros Hc. unfold updateObject.
  destruct (objects s !! k) as [[p|p]|] eqn:Hk; [| |by eauto].
  - pose proof (objects_ok _ _ Hc _ _ Hk) as Hs. simpl in Hs.
    destruct (sensors_ok _ _ Hc _ _ Hs) as (sen & Hsen & _ & _).
    unfold deref. rewrite Hsen. simpl.
    eexists _, _. split; [done|].
    rewrite insert_id by done. by destruct mem.
  - pose proof (objects_ok _ _ Hc _ _ Hk) as Hs. simpl in Hs.
    destruct (targets_ok _ _ Hc _ _ Hs) as (t & Ht & _ & Hdim).
    unfold deref. rewrite Ht. simpl.
    destruct (Target_Update_total t deltaTime (bounds s) r (dimension s))
      as (t' & r' & Hrun & Hid & Hp & Hv).
    { by eapply memory_ok. } { done. } { by destruct Hc. } { by destruct Hc. }
    rewrite Hrun. simpl. eexists _, _. split; [done|].
    eapply update_target_consistent; eauto; congruence.
Qed.

Lemma updateAll_total (s : Simulation) (deltaTime : Q) (order : list string)
    (mem : Memory) (r : RNG) :
  consistent s mem ->
  exists mem' r',
    foldM (updateObject s deltaTime) order (mem, r) = Ret (mem', r') /\
    consistent s mem'.
Proof.
  intros Hc.
  destruct (foldM_invariant (fun _ st => consistent s st.1)
              (updateObject s deltaTime) order (mem, r)) as ([mem' r'] & Hrun & Hinv).
  - done.
  - intros i k [m r0] _ Hm. simpl in Hm.
    destruct (updateObject_total s deltaTime k m r0 Hm) as (m' & r' & Hrun & Hc').
    by exists (m', r').
  - eauto.
Qed.

Lemma collect_total (sched : Schedule) (s : Simulation) (mem : Memory)
    (tar : Target) (k : string) (r : RNG) :
  consistent s mem ->
  exists tm r',
    collect sched s mem tar k r = Ret (tm, r') /\
    Forall (fun m => Dimension (SensorPosition m) = dimension s) tm /\
    (length tm <= length (senOrder sched k))%nat.
Proof.
  intros Hc. unfold collect.
  destruct (foldM_invariant
    (fun i (st : list Measurement * RNG) =>
       Forall (fun m => Dimension (SensorPosition m) = dimension s) st.1 /\
       (length st.1 <= i)%nat)
    (measure s mem tar) (senOrder sched k) ([], r)) as ([tm r'] & Hrun & Hall & Hlen).
  - simpl. split; [constructor|lia].
  - intros i sid [tm0 r0] _ [Hall Hlen]. simpl in Hall, Hlen. unfold measure.
    destruct (sensors s !! sid) as [p|] eqn:Hsid.
    2:{ eexists. split; [done|]. simpl. split; [done|lia]. }
    destruct (sensors_ok _ _ Hc _ _ Hsid) as (sen & Hsen & _ & Hdim).
    unfold deref. rewrite Hsen. simpl.
    destruct (MeasureDistance sen tar r0) as [[[dist inRange] [err|]] r1].
    { eexists. split; [done|]. simpl. split; [done|lia]. }
    destruct inRange.
    2:{ eexists. split; [done|]. simpl. split; [done|lia]. }
    eexists. split; [done|]. simpl. split.
    + apply Forall_app. split; [done|]. by apply Forall_singleton.
    + rewrite length_app. simpl. lia.
  - exists tm, r'. auto.
Qed.

Lemma estimate_total (s : Simulation) (mem : Memory) (tar : Target)
    (tm : list Measurement) :
  consistent s mem ->
  1 <= dimension s ->
  Dimension (target_position tar) = dimension s ->
  Forall (fun m => Dimension (SensorPosition m) = dimension s) tm ->
  Int.len tm * dimension s <= Int.max_int ->
  exists sol e,
    estimate s tar tm = Ret (record (target_id tar) sol e s) /\
    syncPair sol e /\
    (Int.len tm < dimension s + 1 -> sol = noEstimate /\ e = noError).
Proof.
  intros Hc HD Htar Hdims Hfit. unfold estimate.
  assert (Hadd : Int.add (dimension s) 1 = dimension s + 1).
  { unfold Int.add. apply wrap_id. destruct Hc.
    unfold Int.in_range, Int.min_int, Int.max_int in *. lia. }
  rewrite Hadd. case_decide as Hge.
  2:{ exists noEstimate, noError. split; [done|]. split; [by right|done]. }
  destruct tm as [|ref others _] using rev_ind.
  { unfold Int.len in Hge. simpl in Hge. lia. }
  assert (Hn : dimension s <= Int.len others).
  { unfold Int.len in *. rewrite length_app in Hge. simpl in Hge. lia. }
  rewrite SolveLeastSquares_run by done. cbn zeta.
  set (rowsA := map (equationRow ref) others).
  set (b := map (fun m => equationRhs (clamp ref) (clamp m)) others).
  assert (Hrows : Forall (fun row => Int.len row = dimension s) rowsA).
  { apply Forall_app in Hdims as [Ho Hr]. rewrite Forall_singleton in Hr.
    by apply length_rows. }
  destruct (QR_SolveVecTo_returns
              (mat.NewDense (Int.len others) (dimension s) (concat rowsA)) b)
    as [[x err] Hqr]; simpl.
  { lia. }
  { rewrite (length_concat_rows _ (dimension s)) by done.
    unfold rowsA, Int.len. by rewrite length_map. }
  { unfold b, Int.len. by rewrite length_map. }
  rewrite Hqr. simpl. destruct err as [e|]; simpl.
  { exists noEstimate, noError. split; [done|]. split; [by right|lia]. }
  apply QR_SolveVecTo_shape in Hqr. simpl in Hqr.
  unfold CalculateLocalizationError, Clone. simpl.
  rewrite decide_False.
  2:{ unfold Dimension in Htar. rewrite Htar, Hqr. lia. }
  destruct (Distance_same_dimension (Some (elems (target_position tar))) (Some x))
    as (d & Hd & Hd0).
  { unfold Dimension in *. simpl. congruence. }
  rewrite Hd. eexists _, d. split; [done|]. split; [|lia].
  left. simpl. split; [done|done].
Qed.

Lemma localize_total (sched : Schedule) (s : Simulation) (mem : Memory)
    (k : string) (r : RNG) :
  consistent s mem ->
  1 <= dimension s ->
  fitsMemory sched s ->
  match targets s !! k with
  | None => localize sched mem k (s, r) = Ret (s, r)
  | Some p =>
      exists tar tm r1 sol e,
        targetCells mem !! p = Some tar /\
        collect sched s mem tar k r = Ret (tm, r1) /\
        localize sched mem k (s, r) = Ret (record k sol e s, r1) /\
        syncPair sol e /\
        (Int.len tm < dimension s + 1 -> sol = noEstimate /\ e = noError)
  end.
Proof.
  intros Hc HD Hfit. unfold localize.
  destruct (targets s !! k) as [p|] eqn:Hk; [|done].
  destruct (targets_ok _ _ Hc _ _ Hk) as (tar & Htar & Hid & Hdim).
  destruct (collect_total sched s mem tar k r Hc) as (tm & r1 & Hcol & Hdims & Hlen).
  destruct (estimate_total s mem tar tm Hc HD Hdim Hdims) as (sol & e & Hest & Hsync & Hfew).
  { specialize (Hfit k). unfold Int.len in *. nia. }
  exists tar, tm, r1, sol, e. split; [done|]. split; [done|].
  unfold deref. rewrite Htar. simpl. rewrite Hcol. simpl. rewrite Hest. simpl.
  rewrite Hid. done.
Qed.

(** What a target collects depends on the engine through its two
    indices only. *)
Lemma collect_ext (sched : Schedule) (s1 s2 : Simulation) (mem : Memory)
    (tar : Target) (k : string) (r : RNG) :
  sensors s1 = sensors s2 ->
  collect sched s1 mem tar k r = collect sched s2 mem tar k r.
Proof.
  intros Hs. unfold collect. apply foldM_ext.
  intros sid [tm r0]. unfold measure. by rewrite Hs.
Qed.

Lemma collectedFor_ext (sched : Schedule) (s1 s2 : Simulation) (mem : Memory)
    (k : string) (order : list string) :
  sensors s1 = sensors s2 -> targets s1 = targets s2 ->
  forall r, collectedFor sched s1 mem k order r = collectedFor sched s2 mem k order r.
Proof.
  intros Hs Ht. induction order as [|k' rest IH]; intros r; simpl; [done|].
  rewrite Ht. destruct (targets s2 !! k') as [p|]; [|apply IH].
  destruct (deref (targetCells mem) p) as [tar|]; simpl; [|done].
  rewrite (collect_ext sched s1 s2) by done.
  destruct (collect sched s2 mem tar k' r) as [[tm r1]|]; simpl; [|done].
  case_decide; [done|apply IH].
Qed.

(** The loop over the targets. *)
Lemma localizeAll_total (sched : Schedule) (mem : Memory) (order : list string) :
  forall (s : Simulation) (r : RNG),
  consistent s mem ->
  1 <= dimension s ->
  fitsMemory sched s ->
  NoDup order ->
  exists s' r',
    foldM (localize sched mem) order (s, r) = Ret (s', r') /\
    consistent s' mem /\
    dimension s' = dimension s /\
    targets s' = targets s /\
    (forall k, k ∉ order ->
       lastEstimates s' !! k = lastEstimates s !! k /\
       lastErrors s' !! k = lastErrors s !! k) /\
    (forall k, k ∈ order -> is_Some (targets s !! k) -> inSync s' k) /\
    (forall k tm,
       collectedFor sched s mem k order r = Ret (Some tm) ->
       Int.len tm < dimension s + 1 ->
       lastEstimates s' !! k = Some noEstimate /\
       lastErrors s' !! k = Some noError).
Proof.
  induction order as [|k0 rest IH]; intros s r Hc HD Hfit Hnd.
  { exists s, r. simpl.
    split; [done|]. split; [done|]. split; [done|]. split; [done|].
    split; [done|]. split.
    - intros k Hk. by apply elem_of_nil in Hk.
    - intros k tm Hcf. discriminate. }
  apply NoDup_cons in Hnd as [Hk0 Hnd].
  pose proof (localize_total sched s mem k0 r Hc HD Hfit) as Hloc.
  cbn [foldM collectedFor]. destruct (targets s !! k0) as [p|] eqn:Htk.
  - destruct Hloc as (tar & tm0 & r1 & sol & e & Htar & Hcol & Hrun & Hsync & Hfew).
    rewrite Hrun. simpl.
    assert (Hc1 : consistent (record k0 sol e s) mem).
    { apply record_consistent; [done|]. by rewrite Htk. }
    destruct (IH (record k0 sol e s) r1 Hc1 HD Hfit Hnd)
      as (s' & r' & Hrest & Hc' & Hdim & Htars & Hout & Hin & Hcoll).
    exists s', r'. split; [done|]. split; [done|]. split; [done|]. split; [done|].
    assert (Hown : lastEstimates s' !! k0 = Some sol /\ lastErrors s' !! k0 = Some e).
    { destruct (Hout k0 Hk0) as [-> ->]. simpl. by rewrite !lookup_insert_eq. }
    split; [|split].
    + intros k Hk. apply not_elem_of_cons in Hk as [Hne Hk].
      destruct (Hout k Hk) as [-> ->]. simpl.
      by rewrite !lookup_insert_ne by done.
    + intros k Hk Hreg. apply elem_of_cons in Hk as [->|Hk].
      * destruct Hown as [? ?]. by exists sol, e.
      * by apply Hin.
    + intros k tm. unfold deref. rewrite Htar. simpl. rewrite Hcol. simpl.
      case_decide as Hkk.
      * subst k0. intros [= <-] Hlt. destruct (Hfew Hlt) as [-> ->]. done.
      * intros Hcf Hlt. apply (Hcoll k tm); [|done].
        by rewrite (collectedFor_ext sched _ s).
  - rewrite Hloc. simpl.
    destruct (IH s r Hc HD Hfit Hnd)
      as (s' & r' & Hrest & Hc' & Hdim & Htars & Hout & Hin & Hcoll).
    exists s', r'. split; [done|]. split; [done|]. split; [done|]. split; [done|].
    split; [|split].
    + intros k Hk. apply not_elem_of_cons in Hk as [Hne Hk]. by apply Hout.
    + intros k Hk Hreg. apply elem_of_cons in Hk as [->|Hk].
      * rewrite Htk in Hreg. by destruct Hreg.
      * by apply Hin.
    + intros k tm Hcf Hlt. by apply (Hcoll k tm).
Qed.

(** One tick on a consistent engine. *)
Lemma Step_total (sched : Schedule) (deltaTime : Q) (s : Simulation)
    (mem : Memory) (r : RNG) :
  consistent s mem ->
  1 <= dimension s ->
  validSchedule sched s ->
  fitsMemory sched s ->
  exists s' mem' r',
    Step sched deltaTime (s, mem, r) = Ret (s', mem', r') /\
    consistent s' mem' /\
    targets s' = targets s /\
    (forall k, is_Some (targets s !! k) -> inSync s' k) /\
    (forall k tm,
       collected sched deltaTime (s, mem, r) k = Ret (Some tm) ->
       Int.len tm < dimension s + 1 ->
       lastEstimates s' !! k = Some noEstimate /\
       lastErrors s' !! k = Some noError).
Proof.
  intros Hc HD (Hobj & Htar & Hsen) Hfit.
  unfold Step, collected.
  set (s0 := {| dimension := dimension s; bounds := bounds s;
                objects := objects s; sensors := sensors s;
                targets := targets s;
                simulationTime := (simulationTime s + deltaTime)%Q;
                tickDuration := tickDuration s;
                lastEstimates := lastEstimates s;
                lastErrors := lastErrors s |}).
  assert (Hc0 : forall m, consistent s m -> consistent s0 m).
  { intros m []. by split. }
  change (foldM (updateObject s deltaTime) (objOrder sched) (mem, r))
    with (foldM (updateObject s0 deltaTime) (objOrder sched) (mem, r)).
  destruct (updateAll_total s deltaTime (objOrder sched) mem r Hc)
    as (mem1 & r1 & Hupd & Hc1).
  change (foldM (updateObject s deltaTime) (objOrder sched) (mem, r))
    with (foldM (updateObject s0 deltaTime) (objOrder sched) (mem, r)) in Hupd.
  rewrite Hupd. simpl.
  destruct (localizeAll_total sched mem1 (tarOrder sched) s0 r1)
    as (s' & r' & Hrun & Hc' & Hdim & Htars & Hout & Hin & Hcoll).
  { by apply Hc0. } { done. } { done. }
  { rewrite Htar. apply NoDup_elements. }
  rewrite Hrun. simpl. exists s', mem1, r'.
  split; [done|]. split; [done|]. split; [done|]. split.
  - intros k Hk. apply Hin; [|done].
    rewrite Htar. apply elem_of_elements, elem_of_dom. done.
  - intros k tm Hcf Hlt. apply (Hcoll k tm); [|done].
    by rewrite (collectedFor_ext sched s0 s).
Qed.

(** C4: on a consistent engine of dimension at least 1, [Step] returns,
    and afterwards the stored estimate and error of every registered
    target are in sync: a position together with a distance [>= 0], or
    the sentinel estimate together with [-1]. *)
Theorem Step_keeps_in_sync (sched : Schedule) (deltaTime : Q) (s : Simulation)
    (mem : Memory) (r : RNG) :
  consistent s mem ->
  1 <= dimension s ->
  validSchedule sched s ->
  fitsMemory sched s ->
  exists s' mem' r',
    Step sched deltaTime (s, mem, r) = Ret (s', mem', r') /\
    forall k, is_Some (targets s' !! k) ->
      exists sol e,
        lastEstimates s' !! k = Some sol /\ lastErrors s' !! k = Some e /\
        ((Position sol <> None /\ (0 <= e)%Q) \/
         (sol = {| Position := None; ResidualError := -1 |} /\ e = (-1)%Q)).
Proof.
  intros Hc HD Hv Hfit.
  destruct (Step_total sched deltaTime s mem r Hc HD Hv Hfit)
    as (s' & mem' & r' & Hrun & _ & Htars & Hsync & _).
  exists s', mem', r'. split; [done|].
  intros k Hk. rewrite Htars in Hk. exact (Hsync k Hk).
Qed.

(** C5: in a tick in which the target under key [k] collects fewer than
    [D+1] measurements, the sentinel pair is what the engine holds for
    [k] afterwards, whatever it held before; and with so few
    measurements the stored result is the same for every solver: the
    solver is not consulted. *)
Theorem Step_few_measurements (sched : Schedule) (deltaTime : Q) (s : Simulation)
    (mem : Memory) (r : RNG) :
  consistent s mem ->
  1 <= dimension s ->
  validSchedule sched s ->
  fitsMemory sched s ->
  exists s' mem' r',
    Step sched deltaTime (s, mem, r) = Ret (s', mem', r') /\
    (forall k tm,
       collected sched deltaTime (s, mem, r) k = Ret (Some tm) ->
       Int.len tm < dimension s + 1 ->
       lastEstimates s' !! k = Some {| Position := None; ResidualError := -1 |} /\
       lastErrors s' !! k = Some (-1)%Q) /\
    (forall (solver : Gonum) (s0 : Simulation) (tar : Target) (tm : list Measurement),
       dimension s0 = dimension s ->
       Int.len tm < dimension s + 1 ->
       @estimate _ solver s0 tar tm =
         Ret (record (target_id tar)
                {| Position := None; ResidualError := -1 |} (-1)%Q s0)).
Proof.
  intros Hc HD Hv Hfit.
  destruct (Step_total sched deltaTime s mem r Hc HD Hv Hfit)
    as (s' & mem' & r' & Hrun & _ & _ & _ & Hfew).
  exists s', mem', r'. split; [done|]. split; [exact Hfew|].
  intros solver s0 tar tm Hs0 Hlt. unfold estimate. rewrite Hs0.
  unfold Int.add. rewrite wrap_id.
  2:{ destruct Hc. unfold Int.in_range, Int.min_int, Int.max_int in *. lia. }
  rewrite decide_False by lia. done.
Qed.

Lemma NewSimulation_consistent D bounds tick s :
  Int.in_range D -> Int.len bounds <= Int.max_int ->
  NewSimulation D bounds tick = (Some s, None) ->
  consistent s {| sensorCells := ∅; targetCells := ∅ |} /\
  lastEstimates s = ∅ /\ lastErrors s = ∅.
Proof.
  intros HD Hb. unfold NewSimulation.
  case_decide as Hg1; [discriminate|]. case_decide as Hg2; [discriminate|].
  intros [= <-]. split; [|done]. split; simpl; try done.
  - split; [lia|].
    destruct (decide (D = 0)) as [->|Hnz]; [done|].
    destruct (decide (Int.len bounds = Int.mul D 2)) as [Heq|Hne];
      [|exfalso; apply Hg1; split; [done|lia]].
    apply len_eq_double in Heq; [|done|lia|done].
    unfold Int.max_int in *. lia.
  - intros k. rewrite !lookup_empty. done.
  - intros k. rewrite !lookup_empty. done.
Qed.

Lemma update_sensor_consistent (s : Simulation) (mem : Memory) (p : ptr)
    (sen sen' : Sensor) :
  consistent s mem ->
  sensorCells mem !! p = Some sen ->
  sensor_id sen' = sensor_id sen ->
  Dimension (sensor_position sen') = Dimension (sensor_position sen) ->
  consistent s (withSensor mem p sen').
Proof.
  intros [] Hp Hid Hpos. split; simpl; try done.
  intros k q Hk. destruct (sensors_ok0 k q Hk) as (u & Hu & Hidu & Hdu).
  destruct (decide (p = q)) as [->|Hne].
  - exists sen'. rewrite lookup_insert_eq. split; [done|].
    assert (u = sen) as -> by congruence. split; congruence.
  - exists u. by rewrite lookup_insert_ne.
Qed.

Lemma fresh_target_consistent (s : Simulation) (mem : Memory) (p : ptr) (t : Target) :
  consistent s mem ->
  targetCells mem !! p = None ->
  Dimension (velocity t) = Dimension (target_position t) ->
  consistent s (withTarget mem p t).
Proof.
  intros [] Hp Hvel. split; simpl; try done.
  - intros q u. destruct (decide (p = q)) as [->|Hne].
    + rewrite lookup_insert_eq. by intros [= <-].
    + rewrite lookup_insert_ne by done. apply memory_ok0.
  - intros k q Hk. destruct (targets_ok0 k q Hk) as (u & Hu & Hidu & Hdu).
    exists u. rewrite lookup_insert_ne; [done|]. intros ->. congruence.
Qed.

Lemma fresh_sensor_consistent (s : Simulation) (mem : Memory) (p : ptr) (sen : Sensor) :
  consistent s mem ->
  sensorCells mem !! p = None ->
  consistent s (withSensor mem p sen).
Proof.
  intros [] Hp. split; simpl; try done.
  intros k q Hk. destruct (sensors_ok0 k q Hk) as (u & Hu & Hidu & Hdu).
  exists u. rewrite lookup_insert_ne; [done|]. intros ->. congruence.
Qed.

Lemma NewTarget_dimensions (id : string) (pos : Vector) (t : Target) :
  NewTarget id pos = Ret t ->
  Dimension (velocity t) = Dimension (target_position t).
Proof.
  unfold NewTarget, NewVector, make.
  rewrite decide_True by apply len_nonneg. simpl. intros [= <-]. simpl.
  unfold Dimension, Int.len. simpl. rewrite length_replicate. lia.
Qed.

(** What a successful [AddObject] on a target leaves behind. *)
Lemma AddObject_target (mem : Memory) (p : ptr) (tar : Target)
    (s s' : Simulation) :
  targetCells mem !! p = Some tar ->
  AddObject mem (TargetPtr p) s = Ret (s', None) ->
  targets s' = <[target_id tar := p]> (targets s) /\
  lastEstimates s' = <[target_id tar := noEstimate]> (lastEstimates s) /\
  lastErrors s' = <[target_id tar := noError]> (lastErrors s).
Proof.
  intros Hp. unfold AddObject, deref. rewrite Hp. simpl.
  repeat case_decide; intros [= <-]; done.
Qed.

Lemma AddObject_consistent (mem : Memory) (obj : ObjectRef) (s s' : Simulation)
    (e : option error) :
  consistent s mem ->
  AddObject mem obj s = Ret (s', e) ->
  consistent s' mem /\
  (forall k sol, lastEstimates s' !! k = Some sol ->
     lastEstimates s !! k = Some sol \/ sol = noEstimate) /\
  (forall k x, lastErrors s' !! k = Some x ->
     lastErrors s !! k = Some x \/ x = noError).
Proof.
  intros Hc. unfold AddObject, deref.
  destruct obj as [p|p].
  - destruct (sensorCells mem !! p) as [sen|] eqn:Hp; simpl; [|discriminate].
    case_decide as Hd; [intros [= <- <-]; auto|].
    case_decide as Hdup; [intros [= <- <-]; auto|].
    intros [= <- <-]. split; [|auto].
    destruct Hc. split; simpl; try done.
    + intros k q. destruct (decide (sensor_id sen = k)) as [<-|Hne].
      * rewrite lookup_insert_eq. intros [= <-]. exists sen.
        split; [done|]. split; [done|].
        exact Hd.
      * rewrite lookup_insert_ne by done. apply sensors_ok0.
    + intros k o. destruct (decide (sensor_id sen = k)) as [<-|Hne].
      * rewrite lookup_insert_eq. intros [= <-]. by rewrite lookup_insert_eq.
      * rewrite lookup_insert_ne by done. intros Ho.
        specialize (objects_ok0 k o Ho). destruct o; [|done].
        by rewrite lookup_insert_ne.
  - destruct (targetCells mem !! p) as [tar|] eqn:Hp; simpl; [|discriminate].
    case_decide as Hd; [intros [= <- <-]; auto|].
    case_decide as Hdup; [intros [= <- <-]; auto|].
    intros [= <- <-]. split; [|split].
    + destruct Hc. split; simpl; try done.
      * intros k q. destruct (decide (target_id tar = k)) as [<-|Hne].
        -- rewrite lookup_insert_eq. intros [= <-]. exists tar.
           split; [done|]. split; [done|].
           exact Hd.
        -- rewrite lookup_insert_ne by done. apply targets_ok0.
      * intros k o. destruct (decide (target_id tar = k)) as [<-|Hne].
        -- rewrite lookup_insert_eq. intros [= <-]. by rewrite lookup_insert_eq.
        -- rewrite lookup_insert_ne by done. intros Ho.
           specialize (objects_ok0 k o Ho). destruct o; [done|].
           by rewrite lookup_insert_ne.
      * intros k. destruct (decide (target_id tar = k)) as [<-|Hne].
        -- rewrite !lookup_insert_eq. split; eauto.
        -- rewrite !lookup_insert_ne by done. apply estimates_ok0.
      * intros k. destruct (decide (target_id tar = k)) as [<-|Hne].
        -- rewrite !lookup_insert_eq. split; eauto.
        -- rewrite !lookup_insert_ne by done. apply errors_ok0.
    + simpl. intros k sol. destruct (decide (target_id tar = k)) as [<-|Hne].
      * rewrite lookup_insert_eq. intros [= <-]. by right.
      * rewrite lookup_insert_ne by done. by left.
    + simpl. intros k x. destruct (decide (target_id tar = k)) as [<-|Hne].
      * rewrite lookup_insert_eq. intros [= <-]. by right.
      * rewrite lookup_insert_ne by done. by left.
Qed.

Lemma estimate_records (s : Simulation) (tar : Target) (tm : list Measurement)
    (s1 : Simulation) :
  estimate s tar tm = Ret s1 ->
  exists sol e, s1 = record (target_id tar) sol e s.
Proof.
  unfold estimate. case_decide; [|intros [= <-]; eauto].
  destruct (SolveLeastSquares tm (dimension s)) as [[sol [e|]]|];
    cbn [mbind go_bind]; [intros [= <-]; eauto| |discriminate].
  destruct (CalculateLocalizationError _ _) as [d [e|]]; intros [= <-]; eauto.
Qed.

Lemma localize_consistent (sched : Schedule) (mem : Memory) (k : string)
    (s s1 : Simulation) (r r1 : RNG) :
  consistent s mem ->
  localize sched mem k (s, r) = Ret (s1, r1) ->
  consistent s1 mem.
Proof.
  intros Hc. unfold localize.
  destruct (targets s !! k) as [p|] eqn:Hk; [|by intros [= <- <-]].
  destruct (targets_ok _ _ Hc _ _ Hk) as (tar & Htar & Hid & _).
  unfold deref. rewrite Htar. simpl.
  destruct (collect sched s mem tar k r) as [[tm r2]|]; simpl; [|discriminate].
  destruct (estimate s tar tm) as [s2|] eqn:Hest; simpl; [|discriminate].
  intros [= <- <-]. apply estimate_records in Hest as (sol & e & ->).
  apply record_consistent; [done|]. rewrite Hid, Hk. eauto.
Qed.

Lemma Step_consistent (sched : Schedule) (deltaTime : Q) (s s' : Simulation)
    (mem mem' : Memory) (r r' : RNG) :
  consistent s mem ->
  Step sched deltaTime (s, mem, r) = Ret (s', mem', r') ->
  consistent s' mem'.
Proof.
  intros Hc. unfold Step.
  set (s0 := {| dimension := dimension s; bounds := bounds s;
                objects := objects s; sensors := sensors s;
                targets := targets s;
                simulationTime := (simulationTime s + deltaTime)%Q;
                tickDuration := tickDuration s;
                lastEstimates := lastEstimates s;
                lastErrors := lastErrors s |}).
  assert (Hc0 : forall m, consistent s m -> consistent s0 m).
  { intros m []. by split. }
  destruct (updateAll_total s0 deltaTime (objOrder sched) mem r (Hc0 _ Hc))
    as (mem1 & r1 & -> & Hc1). simpl.
  destruct (foldM (localize sched mem1) (tarOrder sched) (s0, r1))
    as [[s2 r2]|] eqn:Hloc; simpl; [|discriminate].
  intros [= <- <- <-].
  apply (foldM_preserves (fun st => consistent st.1 mem1)
           (localize sched mem1) (tarOrder sched)) in Hloc; [done| |done].
  intros k [sa ra] [sb rb] Ha Hrun. by eapply localize_consistent.
Qed.

Lemma reachable_consistent (n : nat) (s : Simulation) (mem : Memory) :
  reachable n s mem -> consistent s mem.
Proof.
  induction 1 as [D bounds tick s HD Hb Hnew
                 |n s mem p id pos t _ IH Hp Hnt
                 |n s mem p id pos radius noise _ IH Hp
                 |n s mem p t pos t' e _ IH Hp Hset
                 |n s mem p sen pos sen' e _ IH Hp Hset
                 |n s mem obj s' e _ IH Hadd
                 |n s mem sched deltaTime r s' mem' r' _ IH _ Hstep].
  - by apply NewSimulation_consistent in Hnew as [? _].
  - apply fresh_target_consistent; [done|done|]. by eapply NewTarget_dimensions.
  - by apply fresh_sensor_consistent.
  - unfold Target_SetPosition in Hset. case_decide as Hd.
    + injection Hset as <- <-. unfold withTarget. rewrite insert_id by done.
      by destruct mem.
    + injection Hset as <- <-.
      eapply update_target_consistent; [done|done|done|done|].
      simpl. rewrite (memory_ok _ _ IH _ _ Hp). done.
  - unfold Sensor_SetPosition in Hset. case_decide as Hd.
    + injection Hset as <- <-. unfold withSensor. rewrite insert_id by done.
      by destruct mem.
    + injection Hset as <- <-.
      eapply update_sensor_consistent; [done|done|done|done].
  - by eapply AddObject_consistent in Hadd as [? _].
  - by eapply Step_consistent.
Qed.

(** Before the first tick every stored pair is the sentinel. *)
Lemma unstepped_sentinels (s : Simulation) (mem : Memory) :
  reachable 0 s mem ->
  (forall k sol, lastEstimates s !! k = Some sol -> sol = noEstimate) /\
  (forall k x, lastErrors s !! k = Some x -> x = noError).
Proof.
  intros Hr. remember 0%nat as n eqn:Hn.
  induction Hr as [D bounds tick s HD Hb Hnew
                 |n s mem p id pos t _ IH Hp Hnt
                 |n s mem p id pos radius noise _ IH Hp
                 |n s mem p t pos t' e _ IH Hp Hset
                 |n s mem p sen pos sen' e _ IH Hp Hset
                 |n s mem obj s' e Hr IH Hadd
                 |n s mem sched deltaTime r s' mem' r' _ IH _ Hstep];
    try (by apply IH); [| |discriminate].
  - apply NewSimulation_consistent in Hnew as (_ & -> & ->); [|done|done].
    split; intros k x; by rewrite lookup_empty.
  - subst n. destruct (IH eq_refl) as [IH1 IH2].
    apply reachable_consistent in Hr.
    destruct (AddObject_consistent _ _ _ _ _ Hr Hadd) as (_ & Ha1 & Ha2).
    split.
    + intros k sol Hk. destruct (Ha1 k sol Hk) as [Hold| ->]; [by eapply IH1|done].
    + intros k x Hk. destruct (Ha2 k x Hk) as [Hold| ->]; [by eapply IH2|done].
Qed.

(** What the two getters return on an engine in use: the stored pair of
    a registered target, which is the sentinel pair as long as no tick
    has run, and the zero values with [false] for any other
    identifier. *)
Lemma reachable_getters (n : nat) (s : Simulation) (mem : Memory) (id : string) :
  reachable n s mem ->
  match targets s !! id with
  | Some _ =>
      (GetLastEstimate s id).2 = true /\
      (GetLastLocalizationError s id).2 = true /\
      (n = 0%nat ->
         GetLastEstimate s id = (noEstimate, true) /\
         GetLastLocalizationError s id = (noError, true))
  | None =>
      GetLastEstimate s id = (emptySolution, false) /\
      GetLastLocalizationError s id = (0%Q, false)
  end.
Proof.
  intros Hr. pose proof (reachable_consistent n s mem Hr) as Hc.
  unfold GetLastEstimate, GetLastLocalizationError.
  destruct (targets s !! id) as [q|] eqn:Hreg.
  - destruct (proj2 (estimates_ok _ _ Hc id)) as [sol Hsol]; [by rewrite Hreg|].
    destruct (proj2 (errors_ok _ _ Hc id)) as [x Hx]; [by rewrite Hreg|].
    rewrite Hsol, Hx. simpl. split; [done|]. split; [done|].
    intros ->. destruct (unstepped_sentinels s mem Hr) as [Hs1 Hs2].
    rewrite (Hs1 _ _ Hsol), (Hs2 _ _ Hx). done.
  - destruct (lastEstimates s !! id) as [sol|] eqn:Hsol.
    { assert (Hs : is_Some (targets s !! id)) by (apply (estimates_ok _ _ Hc); eauto).
      rewrite Hreg in Hs. by destruct Hs. }
    destruct (lastErrors s !! id) as [x|] eqn:Hx.
    { assert (Hs : is_Some (targets s !! id)) by (apply (errors_ok _ _ Hc); eauto).
      rewrite Hreg in Hs. by destruct Hs. }
    done.
Qed.

End EngineFacts.

(** ** The small world at work *)

Lemma demo_reachable (radius : Q) :
  reachable 0 (demo.engine radius) (demo.memory radius).
Proof.
  unfold demo.engine.
  set (s1 := demo.add radius (simulation.SensorPtr 1%nat) demo.fresh).
  set (s2 := demo.add radius (simulation.SensorPtr 2%nat) s1).
  set (s3 := demo.add radius (simulation.SensorPtr 3%nat) s2).
  apply reach_AddObject with (s := s3) (obj := simulation.TargetPtr 1%nat) (e := None);
    [|vm_compute; reflexivity].
  apply reach_AddObject with (s := s2) (obj := simulation.SensorPtr 3%nat) (e := None);
    [|vm_compute; reflexivity].
  apply reach_AddObject with (s := s1) (obj := simulation.SensorPtr 2%nat) (e := None);
    [|vm_compute; reflexivity].
  apply reach_AddObject with (s := demo.fresh) (obj := simulation.SensorPtr 1%nat) (e := None);
    [|vm_compute; reflexivity].
  unfold demo.memory.
  eapply reach_NewTarget with (id := "target-1"%string) (pos := Some [0; 0]%Q);
    [|reflexivity|reflexivity].
  apply reach_NewSensor; [|reflexivity].
  apply reach_NewSensor; [|reflexivity].
  apply reach_NewSensor; [|reflexivity].
  apply (reach_new 2 [-100; 100; -100; 100]%Q 100).
  - unfold Int.in_range, Int.min_int, Int.max_int. lia.
  - vm_compute. discriminate.
  - reflexivity.
Qed.

Lemma demo_schedule_valid (s : simulation.Simulation) :
  validSchedule (demo.schedule s) s.
Proof. unfold validSchedule, demo.schedule. simpl. auto. Qed.

Lemma Step_keeps_in_sync_witness :
  exists s' mem' r',
    simulation.Step (demo.schedule (demo.engine 30)) (1 # 10)
      (demo.engine 30, demo.memory 30, evenDraws) = Ret (s', mem', r') /\
    forall k, is_Some (simulation.targets s' !! k) ->
      exists sol e,
        simulation.lastEstimates s' !! k = Some sol /\
        simulation.lastErrors s' !! k = Some e /\
        ((multilateration.Position sol <> None /\ (0 <= e)%Q) \/
         (sol = {| multilateration.Position := None;
                   multilateration.ResidualError := -1 |} /\ e = (-1)%Q)).
Proof.
  apply (Step_keeps_in_sync (demo.schedule (demo.engine 30)) (1 # 10)
           (demo.engine 30) (demo.memory 30) evenDraws).
  - apply (reachable_consistent 0), demo_reachable.
  - vm_compute. discriminate.
  - apply demo_schedule_valid.
  - intros k. vm_compute. discriminate.
Defined.

(** One tick on the small world finds the target where it is. *)
Example demo_tick_locates :
  match simulation.Step (demo.schedule (demo.engine 30)) (1 # 10)
          (demo.engine 30, demo.memory 30, evenDraws) with
  | Ret (s', _, _) =>
      match simulation.GetLastEstimate s' "target-1",
            simulation.GetLastLocalizationError s' "target-1" with
      | (sol, true), (e, true) =>
          Forall2 Qeq (common.elems (multilateration.Position sol)) [0; 0]%Q /\
          (e == 0)%Q
      | _, _ => False
      end
  | Panic => False
  end.
Proof. vm_compute. split; repeat constructor. Qed.

(** With the target out of reach the next tick replaces the estimate
    by the sentinel pair. *)
Example demo_tick_resets :
  match simulation.Step (demo.schedule (demo.engine 30)) (1 # 10)
          (demo.engine 30, demo.memory 30, evenDraws) with
  | Ret (s1, mem1, r1) =>
      match simulation.Step (demo.schedule s1) (1 # 10) (s1, demo.farAway mem1, r1) with
      | Ret (s2, _, _) =>
          simulation.GetLastEstimate s2 "target-1" = (simulation.noEstimate, true) /\
          simulation.GetLastLocalizationError s2 "target-1" = (simulation.noError, true)
      | Panic => False
      end
  | Panic => False
  end.
Proof. vm_compute. split; reflexivity. Qed.

Lemma Step_few_measurements_witness :
  exists s' mem' r',
    simulation.Step (demo.schedule (demo.engine 1)) (1 # 10)
      (demo.engine 1, demo.memory 1, evenDraws) = Ret (s', mem', r') /\
    (forall k tm,
       collected (demo.schedule (demo.engine 1)) (1 # 10)
         (demo.engine 1, demo.memory 1, evenDraws) k = Ret (Some tm) ->
       Int.len tm < simulation.dimension (demo.engine 1) + 1 ->
       simulation.lastEstimates s' !! k
         = Some {| multilateration.Position := None;
                   multilateration.ResidualError := -1 |} /\
       simulation.lastErrors s' !! k = Some (-1)%Q) /\
    (forall (solver : Gonum) (s0 : simulation.Simulation) (tar : simulation.Target)
            (tm : list multilateration.Measurement),
       simulation.dimension s0 = simulation.dimension (demo.engine 1) ->
       Int.len tm < simulation.dimension (demo.engine 1) + 1 ->
       @simulation.estimate _ solver s0 tar tm =
         Ret (simulation.record (simulation.target_id tar)
                {| multilateration.Position := None;
                   multilateration.ResidualError := -1 |} (-1)%Q s0)).
Proof.
  apply (Step_few_measurements (demo.schedule (demo.engine 1)) (1 # 10)
           (demo.engine 1) (demo.memory 1) evenDraws).
  - apply (reachable_consistent 0), demo_reachable.
  - vm_compute. discriminate.
  - apply demo_schedule_valid.
  - intros k. vm_compute. discriminate.
Defined.

(** Sensors that see one unit far collect nothing from the target. *)
Example demo_nothing_collected :
  collected (demo.schedule (demo.engine 1)) (1 # 10)
    (demo.engine 1, demo.memory 1, evenDraws) "target-1" = Ret (Some []).
Proof. vm_compute. reflexivity. Qed.

(** ** Shared storage *)

Section Aliasing.

Import aliasing.

Lemma Clone_fresh (v c : Vector) (h h1 : Heap) :
  allocated h v ->
  Clone v h = (c, h1) ->
  c = sliceOf (length h) (len v) /\
  h1 !! length h = Some (contents h v) /\
  (forall a, (a < length h)%nat -> h1 !! a = h !! a).
Proof.
  intros Hv. unfold Clone, make, copy.
  rewrite lookup_app_r by lia. rewrite Nat.sub_diag. cbn [lookup list_lookup].
  rewrite Nat.min_id. intros [= <- <-].
  assert (Hsrc : contents (h ++ [replicate (len v) 0%Q]) v = contents h v).
  { destruct v as [|a n]; [done|]. destruct Hv as (l & Hl & _). simpl.
    by rewrite lookup_app_l by (by eapply lookup_lt_Some). }
  assert (Hlen : length (contents h v) = len v).
  { destruct v as [|a n]; [done|]. destruct Hv as (l & Hl & Hn). simpl.
    rewrite Hl. simpl. rewrite length_take. lia. }
  split; [done|]. split.
  - rewrite list_lookup_insert_eq by (rewrite length_app; simpl; lia).
    rewrite Hsrc. f_equal.
    rewrite drop_ge by (rewrite length_replicate; lia).
    rewrite app_nil_r. apply firstn_all2. lia.
  - intros a Ha. rewrite list_lookup_insert_ne by lia.
    by rewrite lookup_app_l.
Qed.

(** [GetPosition] hands out a copy: it holds the position, and the
    caller's writes to it leave the target's position as it was. *)
Lemma GetPosition_is_a_copy (t : Target) (h h1 h2 : Heap) (v : Vector)
    (i : Z) (x : Q) :
  allocated h (target_position t) ->
  GetPosition t h = (v, h1) ->
  store h1 v i x = Ret h2 ->
  contents h1 v = contents h (target_position t) /\
  contents h2 (target_position t) = contents h (target_position t).
Proof.
  intros Ht Hget. unfold GetPosition in Hget.
  destruct (Clone_fresh _ _ _ _ Ht Hget) as (-> & Hnew & Hold).
  assert (Hlen : length (contents h (target_position t)) = len (target_position t)).
  { destruct (target_position t) as [|a n]; [done|]. destruct Ht as (l & Hl & Hn).
    simpl. rewrite Hl. simpl. rewrite length_take. lia. }
  unfold store. cbv beta iota. rewrite Hnew.
  case_decide; [|discriminate]. intros [= <-].
  split.
  - simpl. rewrite Hnew. simpl. apply firstn_all2. lia.
  - destruct (target_position t) as [|b m]; [done|]. destruct Ht as (l' & Hl' & Hm).
    simpl. pose proof (lookup_lt_Some _ _ _ Hl') as Hb.
    rewrite list_lookup_insert_ne by lia. by rewrite Hold.
Qed.

(** [GetLastEstimate] hands out the stored slice itself: what the
    caller writes through it is what the engine holds afterwards. *)
Lemma GetLastEstimate_is_shared (s : Simulation) (id : string) (h h2 : Heap)
    (i : Z) (x : Q) :
  store h (Position (GetLastEstimate s id).1) i x = Ret h2 ->
  contents h2 (Position (GetLastEstimate s id).1) !! Z.to_nat i = Some x.
Proof.
  unfold store. destruct (Position (GetLastEstimate s id).1) as [|a n]; [discriminate|].
  destruct (h !! a) as [l|] eqn:Hl; [|discriminate].
  case_decide as Hi; [|discriminate]. intros [= <-]. simpl.
  rewrite list_lookup_insert_eq by (by eapply lookup_lt_Some). simpl.
  unfold Int.len in Hi.
  rewrite lookup_take_lt by lia. apply list_lookup_insert_eq. lia.
Qed.

(** C8 fails for [GetLastEstimate]: the engine stores the solution the
    solver extracted for (3, 4); the caller reads it with
    [GetLastEstimate] and writes 99 into the first coordinate of the
    position it was given; the next [GetLastEstimate] shows (99, 4). *)
Theorem GetLastEstimate_shares_storage :
  match extract [3; 4]%Q 2 0 [] with
  | Ret (solution, h1) =>
      let s := keep "target-1" solution {| lastEstimates := ∅ |} in
      let returned := (GetLastEstimate s "target-1").1 in
      match store h1 (Position returned) 0 99 with
      | Ret h2 =>
          contents h1 (Position (GetLastEstimate s "target-1").1) = [3; 4]%Q /\
          contents h2 (Position (GetLastEstimate s "target-1").1) = [99; 4]%Q
      | Panic => False
      end
  | Panic => False
  end.
Proof. vm_compute. split; reflexivity. Qed.

End Aliasing.

(** * Further properties of the packages *)

(** ** The random source *)

Lemma advance_0 (r : RNG) : advance r 0 = r.
Proof. destruct r. unfold advance. simpl. by rewrite Nat.add_0_r. Qed.

Lemma rand_Float64_advance (r : RNG) (n : nat) :
  rand_Float64 (advance r n) = (floats r (drawn r + n)%nat, advance r (S n)).
Proof.
  unfold rand_Float64, advance. simpl. do 2 f_equal. lia.
Qed.

Lemma evenDraws_unit : unitDraws evenDraws.
Proof. intros n. simpl. split; discriminate. Qed.

Lemma lowDraws_unit : unitDraws lowDraws.
Proof. intros n. simpl. split; discriminate. Qed.

(** A point between two bounds. *)
Lemma between (lo hi u : Q) :
  (lo <= hi)%Q -> (0 <= u)%Q -> (u <= 1)%Q ->
  (lo <= lo + u * (hi - lo))%Q /\ (lo + u * (hi - lo) <= hi)%Q.
Proof. intros. split; nra. Qed.

(** ** Package common: random vectors and distances *)

Section RandomVector.

Import common.

(** The run of [NewRandomVector] on bounds of the right length. *)
Lemma NewRandomVector_run (dimension : Z) (bounds : list Q) (r : RNG) :
  Int.in_range (2 * dimension) ->
  Int.len bounds = 2 * dimension ->
  exists v,
    NewRandomVector dimension bounds r
      = Ret (Some v, None, advance r (Z.to_nat dimension)) /\
    Int.len v = dimension /\
    forall (i : nat) (lo hi : Q),
      bounds !! (2 * i)%nat = Some lo -> bounds !! (2 * i + 1)%nat = Some hi ->
      v !! i = Some (lo + floats r (drawn r + i)%nat * (hi - lo))%Q.
Proof.
  intros Hr Hb.
  assert (Hd : 0 <= dimension) by (pose proof (len_nonneg bounds); lia).
  unfold NewRandomVector.
  assert (Hm : Int.mul dimension 2 = 2 * dimension).
  { unfold Int.mul. rewrite wrap_id; [lia|].
    by replace (dimension * 2) with (2 * dimension) by lia. }
  rewrite Hm, decide_False by (intros Hne; by apply Hne).
  unfold NewVector, make. rewrite decide_True by done. simpl.
  set (Inv := fun (j : Z) (st : list Q * RNG) =>
    Int.len st.1 = dimension /\ st.2 = advance r (Z.to_nat j) /\
    forall (i : nat) (lo hi : Q), Z.of_nat i < j ->
      bounds !! (2 * i)%nat = Some lo -> bounds !! (2 * i + 1)%nat = Some hi ->
      st.1 !! i = Some (lo + floats r (drawn r + i)%nat * (hi - lo))%Q).
  destruct (for_invariant Inv (drawCoordinate bounds) dimension
              (replicate (Z.to_nat dimension) 0%Q, r))
    as ([v r1] & Hrun & Hlen & Hrng & Hall).
  - done.
  - split; [|split].
    + unfold Int.len. simpl. rewrite length_replicate. lia.
    + simpl. by rewrite advance_0.
    + intros i lo hi Hi. lia.
  - intros j [v r0] Hj (Hlen & Hrng & Hall). cbn [fst snd] in *. subst r0.
    unfold Int.len in Hb, Hlen.
    unfold Int.in_range, Int.min_int, Int.max_int in Hr.
    destruct (lookup_lt_is_Some_2 bounds (2 * Z.to_nat j)) as [lo Hlo]; [lia|].
    destruct (lookup_lt_is_Some_2 bounds (2 * Z.to_nat j + 1)) as [hi Hhi]; [lia|].
    assert (Hm2 : Int.mul j 2 = j * 2).
    { unfold Int.mul. apply wrap_id.
      unfold Int.in_range, Int.min_int, Int.max_int. lia. }
    assert (Ha : Int.add (j * 2) 1 = j * 2 + 1).
    { unfold Int.add. apply wrap_id.
      unfold Int.in_range, Int.min_int, Int.max_int. lia. }
    unfold drawCoordinate. rewrite Hm2, Ha.
    rewrite (index_Ret bounds (j * 2) lo)
      by (lia || by replace (Z.to_nat (j * 2)) with (2 * Z.to_nat j)%nat by lia).
    cbn [mbind go_bind].
    rewrite (index_Ret bounds (j * 2 + 1) hi)
      by (lia || by replace (Z.to_nat (j * 2 + 1)) with (2 * Z.to_nat j + 1)%nat by lia).
    cbn [mbind go_bind]. rewrite rand_Float64_advance.
    rewrite assign_Ret by (unfold Int.len; lia). simpl.
    eexists. split; [done|]. split; [|split]; cbn [fst snd].
    + unfold Int.len. rewrite length_insert. lia.
    + f_equal. lia.
    + intros i lo' hi' Hi Hlo' Hhi'.
      destruct (decide (i = Z.to_nat j)) as [->|Hne].
      * rewrite list_lookup_insert_eq by lia. congruence.
      * rewrite list_lookup_insert_ne by done. apply Hall; (done || lia).
  - cbn [fst snd] in *. exists v. rewrite Hrun. simpl. subst r1.
    split; [done|]. split; [done|].
    intros i lo hi Hlo Hhi. apply Hall; [|done|done].
    apply lookup_lt_Some in Hhi. unfold Int.len in Hb. lia.
Qed.

(** X1: [NewRandomVector] fails exactly when [bounds] does not have
    [2*dimension] entries; it then returns the nil vector and leaves the
    random source alone.  Otherwise it returns a vector of [dimension]
    coordinates, coordinate [i] being
    [min_i + u_i * (max_i - min_i)] for the [i]-th draw [u_i], and it
    takes exactly [dimension] draws. *)
Theorem NewRandomVector_result (dimension : Z) (bounds : list Q) (r : RNG) :
  Int.in_range (2 * dimension) ->
  (Int.len bounds <> 2 * dimension ->
     NewRandomVector dimension bounds r
       = Ret (None, Some (ErrRandomBounds (Int.len bounds) (2 * dimension)), r)) /\
  (Int.len bounds = 2 * dimension ->
     exists v,
       NewRandomVector dimension bounds r
         = Ret (Some v, None, advance r (Z.to_nat dimension)) /\
       Int.len v = dimension /\
       forall (i : nat) (lo hi : Q),
         bounds !! (2 * i)%nat = Some lo -> bounds !! (2 * i + 1)%nat = Some hi ->
         v !! i = Some (lo + floats r (drawn r + i)%nat * (hi - lo))%Q).
Proof.
  intros Hr. split.
  - intros Hne. unfold NewRandomVector.
    assert (Hm : Int.mul dimension 2 = 2 * dimension).
    { unfold Int.mul. rewrite wrap_id; [lia|].
      by replace (dimension * 2) with (2 * dimension) by lia. }
    rewrite Hm. by rewrite decide_True.
  - intros Hb. by apply NewRandomVector_run.
Qed.

(** X2: with draws from the unit interval, every coordinate of a random
    vector lies between the bounds of its axis, provided the axis has
    [min <= max]. *)
Theorem NewRandomVector_within_bounds (dimension : Z) (bounds : list Q) (r : RNG) :
  Int.in_range (2 * dimension) ->
  Int.len bounds = 2 * dimension ->
  unitDraws r ->
  exists v r1,
    NewRandomVector dimension bounds r = Ret (Some v, None, r1) /\
    forall (i : nat) (lo hi x : Q),
      bounds !! (2 * i)%nat = Some lo -> bounds !! (2 * i + 1)%nat = Some hi ->
      v !! i = Some x ->
      (lo <= hi)%Q -> (lo <= x)%Q /\ (x <= hi)%Q.
Proof.
  intros Hr Hb Hu.
  destruct (NewRandomVector_run dimension bounds r Hr Hb) as (v & Hrun & _ & Hall).
  exists v, (advance r (Z.to_nat dimension)). split; [done|].
  intros i lo hi x Hlo Hhi Hx Hle.
  rewrite (Hall i lo hi Hlo Hhi) in Hx. injection Hx as <-.
  destruct (Hu (drawn r + i)%nat) as [H0 H1]. by apply between.
Qed.

End RandomVector.

(** In the square [0,10] x [0,10] with every draw [1/2] the random
    vector is the centre. *)
Example NewRandomVector_centre :
  common.NewRandomVector 2 [0; 10; 0; 10]%Q evenDraws
  = Ret (Some [0 + (1 # 2) * (10 - 0); 0 + (1 # 2) * (10 - 0)]%Q, None,
         advance evenDraws 2).
Proof. reflexivity. Qed.

(** The product [dimension*2] is computed in [int]: for the smallest
    [int] it wraps to 0, the empty bounds pass the test, and the
    allocation of the vector panics. *)
Example NewRandomVector_wraps :
  common.NewRandomVector Int.min_int [] evenDraws = Panic.
Proof. reflexivity. Qed.

Lemma NewRandomVector_result_witness :
  (Int.len [0; 10; 0; 10]%Q <> 2 * 2 ->
     common.NewRandomVector 2 [0; 10; 0; 10]%Q evenDraws
       = Ret (None, Some (ErrRandomBounds (Int.len [0; 10; 0; 10]%Q) (2 * 2)),
              evenDraws)) /\
  (Int.len [0; 10; 0; 10]%Q = 2 * 2 ->
     exists v,
       common.NewRandomVector 2 [0; 10; 0; 10]%Q evenDraws
         = Ret (Some v, None, advance evenDraws (Z.to_nat 2)) /\
       Int.len v = 2 /\
       forall (i : nat) (lo hi : Q),
         [0; 10; 0; 10]%Q !! (2 * i)%nat = Some lo ->
         [0; 10; 0; 10]%Q !! (2 * i + 1)%nat = Some hi ->
         v !! i = Some (lo + floats evenDraws (drawn evenDraws + i)%nat * (hi - lo))%Q).
Proof.
  apply (NewRandomVector_result 2 [0; 10; 0; 10]%Q evenDraws).
  unfold Int.in_range, Int.min_int, Int.max_int. lia.
Defined.

Lemma NewRandomVector_within_bounds_witness :
  exists v r1,
    common.NewRandomVector 2 [0; 10; 0; 10]%Q evenDraws = Ret (Some v, None, r1) /\
    forall (i : nat) (lo hi x : Q),
      [0; 10; 0; 10]%Q !! (2 * i)%nat = Some lo ->
      [0; 10; 0; 10]%Q !! (2 * i + 1)%nat = Some hi ->
      v !! i = Some x ->
      (lo <= hi)%Q -> (lo <= x)%Q /\ (x <= hi)%Q.
Proof.
  apply (NewRandomVector_within_bounds 2 [0; 10; 0; 10]%Q evenDraws).
  - unfold Int.in_range, Int.min_int, Int.max_int. lia.
  - reflexivity.
  - exact evenDraws_unit.
Defined.

Section Vectors.

Import common.
Context `{MathLib}.

Lemma sumSq_from (a : Q) (l : list Q) :
  (foldl (fun acc x => acc + x * x) a l == a + sumSq l)%Q.
Proof.
  unfold sumSq. revert a. induction l as [|x l IH]; intros a; simpl.
  - ring.
  - rewrite (IH (a + x * x)%Q), (IH (0 + x * x)%Q). ring.
Qed.

Lemma sumSq_cons (x : Q) (l : list Q) : (sumSq (x :: l) == x * x + sumSq l)%Q.
Proof. unfold sumSq at 1. simpl. rewrite sumSq_from. ring. Qed.

Lemma sumSq_swap (v w : list Q) :
  (sumSq (zip_with Qminus v w) == sumSq (zip_with Qminus w v))%Q.
Proof.
  revert w. induction v as [|x v IH]; intros [|y w]; simpl; try reflexivity.
  rewrite !sumSq_cons, IH. ring.
Qed.

Lemma sumSq_self (v : list Q) : (sumSq (zip_with Qminus v v) == 0)%Q.
Proof.
  induction v as [|x v IH]; simpl; [reflexivity|].
  rewrite sumSq_cons, IH. ring.
Qed.

(** X3: [Distance] fails in both directions when the dimensions differ,
    with value 0 and an error that names the two dimensions.  When they
    agree, [v.Distance(w)] and [w.Distance(v)] are the square roots of
    equal sums, and [v.Distance(v)] is the square root of a sum equal
    to 0. *)
Theorem Distance_symmetric (v w : Vector) :
  (Dimension v <> Dimension w ->
     Distance v w = (0%Q, Some (ErrVectorDimension (Dimension v) (Dimension w))) /\
     Distance w v = (0%Q, Some (ErrVectorDimension (Dimension w) (Dimension v)))) /\
  (Dimension v = Dimension w ->
     exists a b, Distance v w = (Sqrt a, None) /\ Distance w v = (Sqrt b, None) /\
                 (a == b)%Q) /\
  (exists z, Distance v v = (Sqrt z, None) /\ (z == 0)%Q).
Proof.
  unfold Distance. split; [|split].
  - intros Hne. rewrite !decide_True; [done| congruence | done].
  - intros Heq. rewrite !decide_False by (intros Hne; apply Hne; congruence).
    eexists _, _. split; [done|]. split; [done|]. apply sumSq_swap.
  - rewrite decide_False by (intros Hne; by apply Hne).
    eexists. split; [done|]. apply sumSq_self.
Qed.

End Vectors.

(** ** Sensors: range and noise *)

Section SensorFacts.

Import common simulation.
Context `{MathLib}.

(** X4: [MeasureDistance] reports the target in range exactly when the
    dimensions agree and the detection radius is not positive
    (unlimited range) or the true distance does not exceed it; the
    error is nil exactly when the dimensions agree; and when the target
    is not in range the distance is 0 and no random number was drawn. *)
Theorem MeasureDistance_in_range {T} `{SimulationObject T}
    (s : Sensor) (target : T) (r : RNG) :
  let trueDist := common.Distance (sensor_position s) (GetPosition target) in
  let '(dist, inRange, err, r1) := MeasureDistance s target r in
  (inRange = true <->
     Dimension (sensor_position s) = Dimension (GetPosition target) /\
     ((detectionRadius s <= 0)%Q \/ (trueDist.1 <= detectionRadius s)%Q)) /\
  (err = None <-> Dimension (sensor_position s) = Dimension (GetPosition target)) /\
  (inRange = false -> dist = 0%Q /\ r1 = r).
Proof.
  cbn zeta. unfold MeasureDistance, common.Distance.
  case_decide as Hd; simpl.
  - split; [|split]; [split; [done|tauto] |split; [done|tauto] |done].
  - destruct (Qltb 0 (detectionRadius s)) eqn:E1; simpl.
    + destruct (Qgtb _ _) eqn:E2; simpl.
      * apply Qltb_lt in E1. unfold Qgtb in E2. apply Qltb_lt in E2.
        split; [|split]; [|done|done]. split; [done|].
        intros [_ [Hle|Hle]]; exfalso; lra.
      * unfold Qgtb in E2. apply Qltb_ge in E2.
        destruct (match noiseFunc s with Some f => _ | None => _ end) as [noisy r1].
        split; [|split]; [|done|done]. split; [|done].
        intros _. split; [done|]. by right.
    + apply Qltb_ge in E1.
      destruct (match noiseFunc s with Some f => _ | None => _ end) as [noisy r1].
      split; [|split]; [|done|done]. split; [|done].
      intros _. split; [done|]. by left.
Qed.

(** X5: a sensor without a noise function, or with [NoNoise], reports a
    target in range at exactly the true distance and draws no random
    number: the clamp to 0 never changes a true distance. *)
Theorem MeasureDistance_noiseless `{!MathLibLaws} {T} `{SimulationObject T}
    (s : Sensor) (target : T) (r : RNG) :
  noiseFunc s = None \/ noiseFunc s = Some NoNoise ->
  Dimension (sensor_position s) = Dimension (GetPosition target) ->
  let trueDist := (common.Distance (sensor_position s) (GetPosition target)).1 in
  (detectionRadius s <= 0)%Q \/ (trueDist <= detectionRadius s)%Q ->
  MeasureDistance s target r = ((trueDist, true, None), r).
Proof.
  intros Hnoise Hd trueDist Hin. subst trueDist.
  unfold MeasureDistance, common.Distance in *.
  rewrite decide_False in * by (intros Hne; by apply Hne). simpl in *.
  set (d := Sqrt _) in *.
  assert (Hneg : Qltb d 0 = false).
  { apply Qltb_ge. apply Sqrt_nonneg, sumSq_nonneg. }
  assert (Hrange : Qltb 0 (detectionRadius s) && Qgtb d (detectionRadius s) = false).
  { destruct Hin as [Hin|Hin].
    - apply Qltb_ge in Hin. by rewrite Hin.
    - unfold Qgtb. apply Qltb_ge in Hin. rewrite Hin. apply andb_false_r. }
  rewrite Hrange.
  destruct Hnoise as [-> | ->]; simpl; by rewrite Hneg.
Qed.

(** X6: with draws from the unit interval and [size] the parameter
    raised to 0 when negative: [GaussianNoise] adds the normal draw
    times [size]; [UniformNoise] stays within [size] of the true
    distance; [PercentageNoise] stays within [d * size] of a true
    distance [d >= 0], hence is non-negative for a parameter up to 1;
    each of the three takes one draw, and [NoNoise] takes none. *)
Theorem noise_functions_bounded (param d : Q) (r : RNG) :
  unitDraws r ->
  let size := if Qltb param 0 then 0%Q else param in
  ((GaussianNoise param d r).1 == d + norms r (drawn r) * size)%Q /\
  ((d - size <= (UniformNoise param d r).1)%Q /\
   ((UniformNoise param d r).1 <= d + size)%Q) /\
  ((0 <= d)%Q ->
   (d - d * size <= (PercentageNoise param d r).1)%Q /\
   ((PercentageNoise param d r).1 <= d + d * size)%Q /\
   ((param <= 1)%Q -> (0 <= (PercentageNoise param d r).1)%Q)) /\
  (GaussianNoise param d r).2 = advance r 1 /\
  (UniformNoise param d r).2 = advance r 1 /\
  (PercentageNoise param d r).2 = advance r 1 /\
  NoNoise d r = (d, r).
Proof.
  intros Hu size.
  assert (Hsize : (0 <= size)%Q).
  { unfold size. destruct (Qltb param 0) eqn:E; [done|]. by apply Qltb_ge. }
  assert (Hle : (param <= 1)%Q -> (size <= 1)%Q).
  { unfold size. destruct (Qltb param 0) eqn:E; [done|]. done. }
  destruct (Hu (drawn r)) as [H0 H1].
  unfold GaussianNoise, UniformNoise, PercentageNoise, NoNoise,
    rand_Float64, rand_NormFloat64, advance. fold size. simpl.
  set (u := floats r (drawn r)) in *.
  replace (drawn r + 1)%nat with (Datatypes.S (drawn r)) by lia.
  split; [reflexivity|]. split; [split; nra|].
  split; [|done].
  intros Hd.
  assert (Hw : (0 <= d * size)%Q) by nra.
  assert (Hw1 : (param <= 1)%Q -> (d * size <= d)%Q).
  { intros Hp. specialize (Hle Hp). nra. }
  set (w := (d * size)%Q) in *.
  split; [nra|]. split; [nra|]. intros Hp. specialize (Hw1 Hp). nra.
Qed.

End SensorFacts.

Section SensorSamples.

Import simulation.

Lemma MeasureDistance_noiseless_witness :
  simulation.MeasureDistance
    (simulation.NewSensor "sensor-1" (Some [3; 4]%Q) 30 None) demo.target1 evenDraws
  = (((common.Distance
         (simulation.sensor_position
            (simulation.NewSensor "sensor-1" (Some [3; 4]%Q) 30 None))
         (simulation.GetPosition demo.target1)).1, true, None), evenDraws).
Proof.
  apply (MeasureDistance_noiseless
           (simulation.NewSensor "sensor-1" (Some [3; 4]%Q) 30 None)
           demo.target1 evenDraws).
  - by left.
  - reflexivity.
  - right. vm_compute. discriminate.
Defined.

Lemma noise_functions_bounded_witness :
  let size := if Qltb 3 0 then 0%Q else 3%Q in
  ((simulation.GaussianNoise 3 1%Q lowDraws).1
   == 1 + norms lowDraws (drawn lowDraws) * size)%Q /\
  ((1 - size <= (simulation.UniformNoise 3 1%Q lowDraws).1)%Q /\
   ((simulation.UniformNoise 3 1%Q lowDraws).1 <= 1 + size)%Q) /\
  ((0 <= 1)%Q ->
   (1 - 1 * size <= (simulation.PercentageNoise 3 1%Q lowDraws).1)%Q /\
   ((simulation.PercentageNoise 3 1%Q lowDraws).1 <= 1 + 1 * size)%Q /\
   ((3 <= 1)%Q -> (0 <= (simulation.PercentageNoise 3 1%Q lowDraws).1)%Q)) /\
  (simulation.GaussianNoise 3 1%Q lowDraws).2 = advance lowDraws 1 /\
  (simulation.UniformNoise 3 1%Q lowDraws).2 = advance lowDraws 1 /\
  (simulation.PercentageNoise 3 1%Q lowDraws).2 = advance lowDraws 1 /\
  simulation.NoNoise 1%Q lowDraws = (1%Q, lowDraws).
Proof.
  apply (noise_functions_bounded 3 1%Q lowDraws). exact lowDraws_unit.
Defined.

End SensorSamples.

(** ** Targets: what a move keeps *)

Section TargetFacts.

Import common simulation.
Context `{MathLib}.

Lemma perturb_step (deltaTime : Q) (i : Z) (v : list Q) (r : RNG) (n : nat)
    (st : list Q * RNG) :
  perturb deltaTime i (v, advance r n) = Ret st -> st.2 = advance r (S n).
Proof.
  unfold perturb. destruct (index v i) as [x|]; [|discriminate].
  cbn [mbind go_bind]. rewrite rand_Float64_advance.
  destruct (assign v i _) as [v2|]; [|discriminate].
  cbn [mbind go_bind]. by intros [= <-].
Qed.

(** The velocity loop takes one draw per axis. *)
Lemma perturb_draws (deltaTime : Q) (dim : Z) (vel vel1 : list Q) (r r1 : RNG) :
  0 <= dim ->
  foldM (perturb deltaTime) (upto dim) (vel, r) = Ret (vel1, r1) ->
  r1 = advance r (Z.to_nat dim).
Proof.
  intros Hdim Hrun.
  assert (Hgen : forall (l : list Z) (n : nat) (v v' : list Q) (r' : RNG),
    foldM (perturb deltaTime) l (v, advance r n) = Ret (v', r') ->
    r' = advance r (n + length l)).
  { induction l as [|i l IH]; intros n v v' r' Hl.
    - injection Hl as _ <-. simpl. by rewrite Nat.add_0_r.
    - cbn [foldM] in Hl.
      destruct (perturb deltaTime i (v, advance r n)) as [[v2 r2]|] eqn:E;
        [|discriminate].
      apply perturb_step in E. cbn [snd] in E. subst r2.
      cbn [mbind go_bind] in Hl. apply IH in Hl. subst r'. simpl. f_equal. lia. }
  specialize (Hgen (upto dim) 0%nat vel vel1 r1). rewrite advance_0 in Hgen.
  rewrite (Hgen Hrun). unfold upto. by rewrite length_seqZ.
Qed.

(** X7: [Target.Update] with bounds of another length than
    [2*dimension] changes nothing and draws nothing.  With bounds of
    that length it returns, takes exactly one draw per axis, and keeps
    the identifier and the dimensions of position and velocity.
    [Sensor.Update] changes nothing at all. *)
Theorem Target_Update_frame (t : Target) (deltaTime : Q) (bounds : list Q) (r : RNG) :
  Dimension (velocity t) = Dimension (target_position t) ->
  2 * Dimension (target_position t) <= Int.max_int ->
  let dim := Dimension (target_position t) in
  (Int.len bounds <> 2 * dim -> Target_Update t deltaTime bounds r = Ret (t, r)) /\
  (Int.len bounds = 2 * dim ->
     exists t',
       Target_Update t deltaTime bounds r = Ret (t', advance r (Z.to_nat dim)) /\
       target_id t' = target_id t /\
       Dimension (target_position t') = dim /\
       Dimension (velocity t') = dim) /\
  (forall (sen : Sensor), Update sen deltaTime bounds r = Ret (sen, r)).
Proof.
  intros Hvel Hfit dim. split; [|split].
  - intros Hne. unfold Target_Update. fold dim.
    assert (Hdim : 0 <= dim) by apply len_nonneg.
    unfold Int.mul. rewrite wrap_id
      by (unfold Int.in_range, Int.min_int, Int.max_int in *; lia).
    rewrite decide_True by lia. done.
  - intros Hb.
    destruct (Target_Update_run t deltaTime bounds r Hvel Hb) as
      (vel1 & r1 & t' & Hrun1 & Hrun & Hid & Hp & Hv & _); [lia|].
    exists t'. apply perturb_draws in Hrun1; [|apply len_nonneg]. subst r1.
    done.
  - done.
Qed.

Lemma reflect_inside (lo hi p p' : Q) :
  (lo <= hi)%Q ->
  ((p < lo)%Q -> (p' == lo + (lo - p))%Q) ->
  ((lo <= p)%Q -> (hi < p)%Q -> (p' == hi + (hi - p))%Q) ->
  ((lo <= p)%Q -> (p <= hi)%Q -> (p' == p)%Q) ->
  ((lo - (hi - lo) <= p)%Q -> (p <= hi + (hi - lo))%Q ->
     (lo <= p')%Q /\ (p' <= hi)%Q) /\
  ((p < lo - (hi - lo))%Q -> (hi < p')%Q) /\
  ((hi + (hi - lo) < p)%Q -> (p' < lo)%Q).
Proof.
  intros Hle H1 H2 H3.
  destruct (Qlt_le_dec p lo) as [Hlt|Hge].
  - specialize (H1 Hlt). split; [|split]; intros; try split; lra.
  - destruct (Qlt_le_dec hi p) as [Hgt|Hle2].
    + specialize (H2 Hge Hgt). split; [|split]; intros; try split; lra.
    + specialize (H3 Hge Hle2). split; [|split]; intros; try split; lra.
Qed.

(** X8: on an axis with [min <= max], [Update] leaves the coordinate
    inside [min, max] whenever the integrated coordinate overshoots a
    bound by no more than the width [max - min] of the axis; a larger
    overshoot is mirrored to the other side and the target ends outside
    the bounds: the reflection is applied once and not clamped. *)
Theorem Target_Update_stays_inside (t : Target) (deltaTime : Q)
    (bounds : list Q) (r : RNG) :
  Dimension (velocity t) = Dimension (target_position t) ->
  Int.len bounds = 2 * Dimension (target_position t) ->
  Int.len bounds <= Int.max_int ->
  exists vel1 r1 t',
    foldM (perturb deltaTime) (upto (Dimension (target_position t)))
      (elems (velocity t), r) = Ret (vel1, r1) /\
    Target_Update t deltaTime bounds r = Ret (t', r1) /\
    let vel2 := elems (limitSpeed (stored (velocity t) vel1)) in
    let integ := zip_with Qplus (elems (target_position t))
                   (map (fun x => x * deltaTime)%Q vel2) in
    forall (i : nat) (p lo hi : Q),
      integ !! i = Some p ->
      bounds !! (2 * i)%nat = Some lo -> bounds !! (2 * i + 1)%nat = Some hi ->
      (lo <= hi)%Q ->
      exists p',
        elems (target_position t') !! i = Some p' /\
        ((lo - (hi - lo) <= p)%Q -> (p <= hi + (hi - lo))%Q ->
           (lo <= p')%Q /\ (p' <= hi)%Q) /\
        ((p < lo - (hi - lo))%Q -> (hi < p')%Q) /\
        ((hi + (hi - lo) < p)%Q -> (p' < lo)%Q).
Proof.
  intros Hvel Hb Hfit.
  destruct (Target_Update_run t deltaTime bounds r Hvel Hb Hfit)
    as (vel1 & r1 & t' & Hrun1 & Hrun & _ & _ & _ & Hax).
  exists vel1, r1, t'. split; [done|]. split; [done|].
  cbn zeta in *. intros i p lo hi Hp Hlo Hhi Hle.
  destruct (lookup_lt_is_Some_2
              (elems (limitSpeed (stored (velocity t) vel1))) i) as [v Hv].
  { apply lookup_lt_Some in Hp. rewrite length_zip_with, length_map in Hp. lia. }
  destruct (Hax i p v lo hi Hp Hv Hlo Hhi) as (p' & v' & Hp' & _ & H1 & H2 & H3).
  exists p'. split; [done|].
  apply reflect_inside; [done| | |].
  - intros Hlt. destruct (H1 Hlt) as [-> _]. reflexivity.
  - intros Hge Hgt. by destruct (H2 Hge Hgt) as [-> _].
  - intros Hge Hle2. destruct (H3 Hge Hle2) as [-> _]. reflexivity.
Qed.

End TargetFacts.

(** A target at 9 on the axis [0, 1] moving at 10 per second arrives at
    19, is mirrored at 1 to -17 and ends outside the axis. *)
Example runner_leaves :
  match simulation.Target_Update runner 1 [0; 1]%Q evenDraws with
  | Ret (t', _) =>
      Forall2 Qeq (common.elems (simulation.target_position t')) [(-17)%Q]
  | Panic => False
  end.
Proof. vm_compute. repeat constructor. Qed.

Section TargetSamples.

Import simulation.

Lemma Target_Update_frame_witness :
  let dim := common.Dimension (simulation.target_position runner) in
  (Int.len [0; 10]%Q <> 2 * dim ->
     simulation.Target_Update runner 1 [0; 10]%Q evenDraws = Ret (runner, evenDraws)) /\
  (Int.len [0; 10]%Q = 2 * dim ->
     exists t',
       simulation.Target_Update runner 1 [0; 10]%Q evenDraws
         = Ret (t', advance evenDraws (Z.to_nat dim)) /\
       simulation.target_id t' = simulation.target_id runner /\
       common.Dimension (simulation.target_position t') = dim /\
       common.Dimension (simulation.velocity t') = dim) /\
  (forall (sen : simulation.Sensor),
     simulation.Update sen 1 [0; 10]%Q evenDraws = Ret (sen, evenDraws)).
Proof.
  apply (Target_Update_frame runner 1 [0; 10]%Q evenDraws).
  - reflexivity.
  - vm_compute. discriminate.
Defined.

Lemma Target_Update_stays_inside_witness :
  exists vel1 r1 t',
    foldM (simulation.perturb 1)
      (upto (common.Dimension (simulation.target_position runner)))
      (common.elems (simulation.velocity runner), evenDraws) = Ret (vel1, r1) /\
    simulation.Target_Update runner 1 [0; 10]%Q evenDraws = Ret (t', r1) /\
    let vel2 := common.elems (simulation.limitSpeed
                  (common.stored (simulation.velocity runner) vel1)) in
    let integ := zip_with Qplus (common.elems (simulation.target_position runner))
                   (map (fun x => x * 1)%Q vel2) in
    forall (i : nat) (p lo hi : Q),
      integ !! i = Some p ->
      [0; 10]%Q !! (2 * i)%nat = Some lo -> [0; 10]%Q !! (2 * i + 1)%nat = Some hi ->
      (lo <= hi)%Q ->
      exists p',
        common.elems (simulation.target_position t') !! i = Some p' /\
        ((lo - (hi - lo) <= p)%Q -> (p <= hi + (hi - lo))%Q ->
           (lo <= p')%Q /\ (p' <= hi)%Q) /\
        ((p < lo - (hi - lo))%Q -> (hi < p')%Q) /\
        ((hi + (hi - lo) < p)%Q -> (p' < lo)%Q).
Proof.
  apply (Target_Update_stays_inside runner 1 [0; 10]%Q evenDraws).
  - reflexivity.
  - reflexivity.
  - vm_compute. discriminate.
Defined.

End TargetSamples.

(** ** Loops that leave early *)

Lemma foldM_return_ext {A St R} (body1 body2 : A -> St -> go (St + R)) (l : list A) :
  (forall x s, body1 x s = body2 x s) ->
  forall s, foldM_return body1 l s = foldM_return body2 l s.
Proof.
  intros Hext. induction l as [|x l IH]; intros s; simpl; [done|].
  rewrite Hext. destruct (body2 x s) as [[s1|v]|]; simpl; [apply IH|done|done].
Qed.

Lemma foldM_return_early {A St R} (body : A -> St -> go (St + R))
    (l1 l2 : list A) (x : A) (s s1 : St) (v : R) :
  foldM_return body l1 s = Ret (inl s1) ->
  body x s1 = Ret (inr v) ->
  foldM_return body (l1 ++ x :: l2) s = Ret (inr v).
Proof.
  revert s. induction l1 as [|y l1 IH]; intros s; simpl.
  - intros [= ->] ->. done.
  - destruct (body y s) as [[s2|w]|]; simpl; [|discriminate|discriminate].
    apply IH.
Qed.

(** ** The solver: its system and its outcomes *)

Section SolverFacts.

Import common multilateration.
Context `{MathLib} `{Gonum}.

Lemma nonNegative_idem (d : Q) : nonNegative (nonNegative d) = nonNegative d.
Proof.
  unfold nonNegative. destruct (Qltb d 0) eqn:E; [done|]. by rewrite E.
Qed.

Lemma index_map {A B} (f : A -> B) (l : list A) (i : Z) :
  index (map f l) i = (x ← index l i; Ret (f x)).
Proof.
  unfold index. case_decide; [|done].
  rewrite list_lookup_fmap. by destruct (l !! Z.to_nat i).
Qed.

(** X9: the solver reads a negative distance as 0: replacing every
    negative distance of the input by 0 beforehand changes nothing of
    the result, for any input and dimension. *)
Theorem SolveLeastSquares_clamps (ms : list Measurement) (D : Z) :
  SolveLeastSquares (map clamp ms) D = SolveLeastSquares ms D.
Proof.
  unfold SolveLeastSquares.
  assert (Hlen : Int.len (map clamp ms) = Int.len ms).
  { unfold Int.len. by rewrite length_map. }
  rewrite Hlen. case_decide; [done|].
  rewrite index_map.
  destruct (index ms (Int.sub (Int.len ms) 1)) as [ref|]; [|done].
  cbn [mbind go_bind clamp SensorPosition Distance].
  rewrite nonNegative_idem.
  destruct (make (Int.mul (Int.sub (Int.len ms) 1) D)) as [aData|]; [|done].
  cbn [mbind go_bind].
  destruct (make (Int.sub (Int.len ms) 1)) as [bData|]; [|done].
  cbn [mbind go_bind].
  rewrite (foldM_return_ext _
    (fillEquation ms D (SensorPosition ref)
       (nonNegative (Distance ref) * nonNegative (Distance ref))%Q
       (NormSq (SensorPosition ref)))); [done|].
  intros i [a b]. unfold fillEquation. rewrite index_map.
  destruct (index ms i) as [m|]; [|done].
  cbn [mbind go_bind clamp SensorPosition Distance].
  by rewrite nonNegative_idem.
Qed.

(** The system the solver hands to the QR solve. *)
Lemma SolveLeastSquares_system (others : list Measurement) (ref : Measurement) (D : Z) :
  1 <= D ->
  D <= Int.len others ->
  Int.len (others ++ [ref]) * D <= Int.max_int ->
  Forall (fun m => Dimension (SensorPosition m) = D) (others ++ [ref]) ->
  let A := mat.NewDense (Int.len others) D (concat (map (equationRow ref) others)) in
  let b := map (fun m => equationRhs (clamp ref) (clamp m)) others in
  SolveLeastSquares (others ++ [ref]) D =
    ('(x, err) ← QR_SolveVecTo A b;
     match err with
     | Some e => Ret (emptySolution, Some (ErrQRSolveFailed e))
     | None => finish A b x (Int.len others) D
     end).
Proof.
  intros HD Hm Hfit Hdim. cbn zeta.
  set (ms := others ++ [ref]) in *.
  set (n := Int.len others) in *.
  assert (Hlen : Int.len ms = n + 1).
  { unfold ms, n, Int.len. rewrite length_app. simpl. lia. }
  assert (Hrange : forall z, 0 <= z <= (n + 1) * D -> Int.wrap z = z).
  { intros z Hz. apply wrap_id. rewrite Hlen in Hfit.
    unfold Int.in_range, Int.min_int, Int.max_int in *. lia. }
  unfold SolveLeastSquares. rewrite Hlen.
  unfold Int.add, Int.sub, Int.mul.
  rewrite (Hrange (D + 1)) by nia.
  rewrite decide_False by lia.
  replace (n + 1 - 1) with n by lia.
  rewrite (Hrange n) by nia. rewrite (Hrange (n * D)) by nia.
  rewrite (index_Ret ms n ref).
  2:{ lia. }
  2:{ unfold ms, n, Int.len. rewrite Nat2Z.id.
      rewrite lookup_app_r by lia. by rewrite Nat.sub_diag. }
  cbn [mbind go_bind].
  unfold make. rewrite !decide_True by nia. cbn [mbind go_bind].
  pose proof (fill_system others ref D HD Hfit Hdim) as Hfill.
  fold ms in Hfill. fold n in Hfill. rewrite Hfill. done.
Qed.

Lemma dot_from (a : Q) (l : list Q) : (foldl Qplus a l == a + foldl Qplus 0 l)%Q.
Proof.
  revert a. induction l as [|x l IH]; intros a; simpl; [ring|].
  rewrite (IH (a + x)%Q), (IH (0 + x)%Q). ring.
Qed.

Lemma dot_cons (x y : Q) (u v : list Q) :
  (mat.dot (x :: u) (y :: v) == x * y + mat.dot u v)%Q.
Proof. unfold mat.dot. simpl. rewrite dot_from. ring. Qed.

(** The linearisation: subtracting the sphere of the reference from the
    sphere of a sensor leaves a linear equation in the point. *)
Lemma spheres_subtract (r s p : list Q) :
  length r = length s -> length s = length p ->
  (mat.dot (map (Qmult 2) (zip_with Qminus r s)) p
   == sumSq (zip_with Qminus s p) - sumSq (zip_with Qminus r p)
      - sumSq s + sumSq r)%Q.
Proof.
  revert s p. induction r as [|x r IH]; intros [|y s] [|z p] Hrs Hsp;
    simpl in *; try discriminate.
  - reflexivity.
  - rewrite dot_cons, !sumSq_cons, IH by lia. ring.
Qed.

(** X10: when every distance is the exact Euclidean distance from its
    sensor to one point [p], the system [A, b] that the solver hands to
    the QR solve is satisfied by [p]: [A*p] equals [b] row by row, so
    the residual of [p] is zero. *)
Theorem SolveLeastSquares_exact_system (ms : list Measurement) (D : Z) (p : list Q) :
  1 <= D ->
  D + 1 <= Int.len ms ->
  Int.len ms * D <= Int.max_int ->
  Forall (fun m => Dimension (SensorPosition m) = D) ms ->
  Int.len p = D ->
  Forall (fun m => (0 <= Distance m)%Q /\
            (Distance m * Distance m
             == sumSq (zip_with Qminus (elems (SensorPosition m)) p))%Q) ms ->
  exists A b Ap,
    SolveLeastSquares ms D =
      ('(x, err) ← QR_SolveVecTo A b;
       match err with
       | Some e => Ret (emptySolution, Some (ErrQRSolveFailed e))
       | None => finish A b x (Int.len ms - 1) D
       end) /\
    mat.MulVec A p = Ret Ap /\
    Forall2 Qeq Ap b.
Proof.
  intros HD Hm Hfit Hdim Hp Hexact.
  destruct ms as [|ref others _] using rev_ind.
  { unfold Int.len in Hm. simpl in Hm. lia. }
  assert (Hlen : Int.len (others ++ [ref]) - 1 = Int.len others).
  { unfold Int.len. rewrite length_app. simpl. lia. }
  rewrite Hlen.
  set (rowsA := map (equationRow ref) others).
  exists (mat.NewDense (Int.len others) D (concat rowsA)),
         (map (fun m => equationRhs (clamp ref) (clamp m)) others),
         (map (fun row => mat.dot row p) rowsA).
  split; [apply SolveLeastSquares_system; (done || lia)|].
  apply Forall_app in Hdim as [Hdo Hdr]. rewrite Forall_singleton in Hdr.
  apply Forall_app in Hexact as [Heo Her]. rewrite Forall_singleton in Her.
  destruct Her as [Hr0 Hr].
  split.
  - replace (Int.len others) with (Int.len rowsA)
      by (unfold rowsA, Int.len; by rewrite length_map).
    apply MulVec_rows; [lia| |done]. by apply length_rows.
  - unfold rowsA. rewrite map_map. apply Forall2_fmap.
    apply Forall_Forall2_diag.
    apply Forall_forall. intros m Hin.
    rewrite Forall_forall in Hdo, Heo.
    specialize (Hdo m Hin). destruct (Heo m Hin) as [Hm0 Hme].
    unfold equationRow, equationRhs, clamp. simpl.
    rewrite !nonNegative_id by done.
    rewrite spheres_subtract.
    + rewrite Hme, Hr. unfold NormSq. ring.
    + unfold Dimension, Int.len in *. lia.
    + unfold Dimension, Int.len in *. lia.
Qed.

(** A row of the matrix is written without touching the length. *)
Lemma fillEntry_loop (i D n : Z) (row aData : list Q) :
  0 <= i < n -> 0 <= D ->
  Int.len row = D -> Int.len aData = n * D ->
  n * D <= Int.max_int ->
  exists aData1,
    foldM (fillEntry i D (Some row)) (upto D) aData = Ret aData1 /\
    Int.len aData1 = n * D.
Proof.
  intros Hi HD Hrow Ha Hfit.
  apply (for_invariant (fun _ (a : list Q) => Int.len a = n * D)); [done|done|].
  intros j a Hj Hlen. unfold fillEntry. simpl.
  unfold Int.len in Hrow, Hlen.
  destruct (lookup_lt_is_Some_2 row (Z.to_nat j)) as [x Hx]; [lia|].
  rewrite (index_Ret row j x) by (done || lia). simpl.
  assert (Hidx : Int.add (Int.mul i D) j = i * D + j).
  { unfold Int.add, Int.mul.
    rewrite (wrap_id (i * D)) by (unfold Int.in_range, Int.min_int, Int.max_int in *; nia).
    apply wrap_id. unfold Int.in_range, Int.min_int, Int.max_int in *. nia. }
  rewrite Hidx. rewrite assign_Ret by (unfold Int.len; nia).
  eexists. split; [done|]. unfold Int.len. rewrite length_insert. lia.
Qed.

(** X11: when the measurements before [bad] and the reference have [D]
    coordinates and the sensor position of [bad] has not, the solver
    returns the empty solution and the "dimension mismatch calculating
    A" error that wraps the vector error with the two dimensions; the
    QR solve is not reached. *)
Theorem SolveLeastSquares_dimension_mismatch (good rest : list Measurement)
    (bad ref : Measurement) (D : Z) :
  let others := good ++ bad :: rest in
  1 <= D ->
  D <= Int.len others ->
  Int.len (others ++ [ref]) * D <= Int.max_int ->
  Dimension (SensorPosition ref) = D ->
  Forall (fun m => Dimension (SensorPosition m) = D) good ->
  Dimension (SensorPosition bad) <> D ->
  SolveLeastSquares (others ++ [ref]) D =
    Ret (emptySolution,
         Some (ErrDimensionMismatchA
                 (ErrVectorDimension D (Dimension (SensorPosition bad))))).
Proof.
  intros others HD Hm Hfit Href Hgood Hbad.
  set (ms := others ++ [ref]) in *.
  set (n := Int.len others) in *.
  assert (Hlen : Int.len ms = n + 1).
  { unfold ms, n, Int.len. rewrite length_app. simpl. lia. }
  assert (Hrange : forall z, 0 <= z <= (n + 1) * D -> Int.wrap z = z).
  { intros z Hz. apply wrap_id. rewrite Hlen in Hfit.
    unfold Int.in_range, Int.min_int, Int.max_int in *. lia. }
  unfold SolveLeastSquares. rewrite Hlen.
  unfold Int.add, Int.sub, Int.mul.
  rewrite (Hrange (D + 1)) by nia.
  rewrite decide_False by lia.
  replace (n + 1 - 1) with n by lia.
  rewrite (Hrange n) by nia. rewrite (Hrange (n * D)) by nia.
  rewrite (index_Ret ms n ref).
  2:{ lia. }
  2:{ unfold ms, n, Int.len. rewrite Nat2Z.id.
      rewrite lookup_app_r by lia. by rewrite Nat.sub_diag. }
  cbn [mbind go_bind].
  unfold make. rewrite !decide_True by nia. cbn [mbind go_bind].
  set (body := fillEquation ms D (SensorPosition ref)
       (nonNegative (Distance ref) * nonNegative (Distance ref))%Q
       (NormSq (SensorPosition ref))).
  set (k := Int.len good).
  assert (Hk : 0 <= k < n).
  { unfold k, n, others, Int.len. rewrite length_app. simpl. lia. }
  assert (Hsplit : upto n = upto k ++ k :: seqZ (k + 1) (n - k - 1)).
  { unfold upto. replace n with (k + (n - k)) at 1 by lia.
    rewrite seqZ_app by lia. f_equal. simpl.
    rewrite seqZ_cons by lia. repeat f_equal; lia. }
  rewrite Hsplit.
  destruct (for_return_invariant
    (fun _ (st : list Q * list Q) => Int.len st.1 = n * D /\ Int.len st.2 = n)
    body k (replicate (Z.to_nat (n * D)) 0%Q, replicate (Z.to_nat n) 0%Q))
    as ([a1 b1] & Hrun & Ha1 & Hb1).
  - lia.
  - unfold Int.len. simpl. rewrite !length_replicate. nia.
  - intros i [a b] Hi [Ha Hb]. cbn [fst snd] in Ha, Hb.
    unfold body, fillEquation.
    destruct (lookup_lt_is_Some_2 good (Z.to_nat i)) as [m Hmi].
    { unfold k, Int.len in Hi. lia. }
    rewrite (index_Ret ms i m).
    2:{ lia. }
    2:{ unfold ms, others. rewrite <- app_assoc.
        by rewrite lookup_app_l by (by eapply lookup_lt_Some). }
    cbn [mbind go_bind].
    assert (Hmd : Dimension (SensorPosition m) = D).
    { eapply Forall_lookup_1 in Hgood; [|exact Hmi]. exact Hgood. }
    destruct (scaled_row ref m) as [Hsub Hscaled]; [congruence|].
    rewrite Hsub.
    destruct (fillEntry_loop i D n
                (map (fun x => x * 2)%Q
                   (zip_with Qminus (elems (SensorPosition ref))
                      (elems (SensorPosition m)))) a)
      as (a2 & Hfill & Ha2); [lia|lia| |done|nia|].
    { unfold Int.len. rewrite length_map, length_zip_with.
      unfold Dimension, Int.len in *. lia. }
    unfold MultiplyByScalar. cbn [elems default from_option id].
    rewrite Hfill. cbn [mbind go_bind].
    rewrite assign_Ret by lia. cbn [mbind go_bind].
    eexists. split; [done|]. cbn [fst snd]. split; [done|].
    unfold Int.len. rewrite length_insert. done.
  - cbn [fst snd] in Ha1, Hb1.
    rewrite (foldM_return_early body _ _ k _ (a1, b1)
               (emptySolution,
                Some (ErrDimensionMismatchA
                        (ErrVectorDimension D (Dimension (SensorPosition bad))))));
      [done|done|].
    unfold body, fillEquation.
    rewrite (index_Ret ms k bad).
    2:{ lia. }
    2:{ unfold ms, others, k, Int.len. rewrite Nat2Z.id, <- app_assoc.
        rewrite lookup_app_r by lia. by rewrite Nat.sub_diag. }
    cbn [mbind go_bind]. unfold Subtract.
    rewrite decide_True by congruence. by rewrite Href.
Qed.

Section SolverLaws.

Context `{!MathLibLaws} `{!GonumLaws}.

Lemma Qdiv_nonneg (a b : Q) : (0 <= a)%Q -> (0 <= b)%Q -> (0 <= a / b)%Q.
Proof.
  intros Ha Hb. unfold Qdiv. apply Qmult_le_0_compat; [done|].
  by apply Qinv_le_0_compat.
Qed.

(** A solution returned without an error holds one coordinate per
    dimension. *)
Lemma SolveLeastSquares_position (ms : list Measurement) (D : Z) (sol : Solution) :
  1 <= D ->
  D + 1 <= Int.len ms ->
  Int.len ms * D <= Int.max_int ->
  Forall (fun m => Dimension (SensorPosition m) = D) ms ->
  SolveLeastSquares ms D = Ret (sol, None) ->
  exists x, Position sol = Some x /\ Int.len x = D.
Proof.
  intros HD Hm Hfit Hdim.
  destruct ms as [|ref others _] using rev_ind.
  { unfold Int.len in Hm. simpl in Hm. lia. }
  assert (Hn : D <= Int.len others).
  { unfold Int.len in *. rewrite length_app in Hm. simpl in Hm. lia. }
  rewrite SolveLeastSquares_run by done. cbn zeta.
  destruct (QR_SolveVecTo _ _) as [[x [e|]]|] eqn:Hqr; simpl; try discriminate.
  intros [= <-]. apply QR_SolveVecTo_shape in Hqr. simpl in Hqr.
  exists x. done.
Qed.

(** X12: on at least [D+1] measurements of dimension [D >= 1] the
    solver returns, and there are two outcomes only: no error, with a
    position of exactly [D] coordinates and a residual error [>= 0]
    (never the sentinel [-1]); or the "QR least squares solve failed"
    error, with the empty solution. *)
Theorem SolveLeastSquares_outcome (ms : list Measurement) (D : Z) :
  1 <= D ->
  D + 1 <= Int.len ms ->
  Int.len ms * D <= Int.max_int ->
  Forall (fun m => Dimension (SensorPosition m) = D) ms ->
  exists sol err,
    SolveLeastSquares ms D = Ret (sol, err) /\
    match err with
    | None =>
        exists x, Position sol = Some x /\ Int.len x = D /\
                  (0 <= ResidualError sol)%Q
    | Some e => sol = emptySolution /\ exists inner, e = ErrQRSolveFailed inner
    end.
Proof.
  intros HD Hm Hfit Hdim.
  destruct ms as [|ref others _] using rev_ind.
  { unfold Int.len in Hm. simpl in Hm. lia. }
  assert (Hn : D <= Int.len others).
  { unfold Int.len in *. rewrite length_app in Hm. simpl in Hm. lia. }
  rewrite SolveLeastSquares_run by done. cbn zeta.
  set (rowsA := map (equationRow ref) others).
  set (b := map (fun m => equationRhs (clamp ref) (clamp m)) others).
  assert (Hrows : Forall (fun row => Int.len row = D) rowsA).
  { apply Forall_app in Hdim as [Ho Hr]. rewrite Forall_singleton in Hr.
    by apply length_rows. }
  destruct (QR_SolveVecTo_returns
              (mat.NewDense (Int.len others) D (concat rowsA)) b)
    as [[x err] Hqr]; simpl.
  { lia. }
  { rewrite (length_concat_rows _ D) by done.
    unfold rowsA, Int.len. by rewrite length_map. }
  { unfold b, Int.len. by rewrite length_map. }
  rewrite Hqr. simpl. destruct err as [e|]; simpl.
  { eexists _, _. split; [done|]. simpl. eauto. }
  apply QR_SolveVecTo_shape in Hqr. simpl in Hqr.
  eexists _, None. split; [done|]. exists x. simpl.
  split; [done|]. split; [done|].
  apply Qdiv_nonneg; [|apply Sqrt_nonneg].
  - unfold mat.Nrm2. apply Sqrt_nonneg, sumSq_nonneg.
  - change 0%Q with (inject_Z 0). rewrite <- Zle_Qle. apply len_nonneg.
Qed.

(** X13: [CalculateLocalizationError] returns no error exactly when
    both vectors are non-nil, non-empty and of the same dimension; the
    value is then the square root of the sum of the squared coordinate
    differences and is [>= 0].  Whenever it returns an error the value
    is 0, and a nil vector gives the "nil vectors" error. *)
Theorem CalculateLocalizationError_outcome (truePosition estimatedPosition : Vector) :
  let r := CalculateLocalizationError truePosition estimatedPosition in
  (r.2 = None <->
     truePosition <> None /\ estimatedPosition <> None /\
     0 < Dimension truePosition /\
     Dimension truePosition = Dimension estimatedPosition) /\
  (r.2 = None ->
     r.1 = Sqrt (sumSq (zip_with Qminus (elems truePosition) (elems estimatedPosition))) /\
     (0 <= r.1)%Q) /\
  (r.2 <> None -> r.1 = 0%Q) /\
  (truePosition = None \/ estimatedPosition = None -> r.2 = Some ErrNilVectors).
Proof.
  cbn zeta. unfold CalculateLocalizationError.
  destruct truePosition as [t|], estimatedPosition as [e|]; simpl.
  2,3,4: split; [|split; [|split]];
         [split; [done|intros (Ha & Hb & _); congruence] |done|done|done].
  pose proof (len_nonneg t). pose proof (len_nonneg e).
  case_decide as Hz; [simpl|].
  - split; [|split; [|split]]; [split; [done|]|done|done|].
    + unfold Dimension. simpl. intros (_ & _ & Hpos & Heq). lia.
    + intros [|]; done.
  - unfold common.Distance. case_decide as Hd; simpl.
    + split; [|split; [|split]]; [split; [done|]|done|done|].
      * intros (_ & _ & _ & Heq). done.
      * intros [|]; done.
    + split; [|split; [|split]]; [split; [intros _|done]|intros _|done|].
      * unfold Dimension in *. simpl in *.
        repeat split; try done. lia.
      * split; [done|]. apply Sqrt_nonneg, sumSq_nonneg.
      * intros [|]; done.
Qed.

End SolverLaws.

End SolverFacts.

Example spatial_sensor_rejected :
  multilateration.SolveLeastSquares
    [ {| multilateration.SensorPosition := Some [3; 4]%Q; multilateration.Distance := 5 |};
      spatial;
      {| multilateration.SensorPosition := Some [8; 15]%Q; multilateration.Distance := 17 |} ] 2
  = Ret (multilateration.emptySolution,
         Some (ErrDimensionMismatchA (ErrVectorDimension 2 3))).
Proof. vm_compute. reflexivity. Qed.

Lemma SolveLeastSquares_dimension_mismatch_witness :
  multilateration.SolveLeastSquares
    (([ {| multilateration.SensorPosition := Some [3; 4]%Q;
           multilateration.Distance := 5 |} ] ++ spatial :: [])
     ++ [ {| multilateration.SensorPosition := Some [8; 15]%Q;
             multilateration.Distance := 17 |} ]) 2
  = Ret (multilateration.emptySolution,
         Some (ErrDimensionMismatchA
                 (ErrVectorDimension 2
                    (common.Dimension (multilateration.SensorPosition spatial))))).
Proof.
  apply (SolveLeastSquares_dimension_mismatch
           [ {| multilateration.SensorPosition := Some [3; 4]%Q;
                multilateration.Distance := 5 |} ] [] spatial
           {| multilateration.SensorPosition := Some [8; 15]%Q;
              multilateration.Distance := 17 |} 2).
  - lia.
  - vm_compute. discriminate.
  - vm_compute. discriminate.
  - reflexivity.
  - repeat constructor.
  - vm_compute. discriminate.
Defined.

Lemma SolveLeastSquares_exact_system_witness :
  exists A b Ap,
    multilateration.SolveLeastSquares threeSensors 2 =
      ('(x, err) ← QR_SolveVecTo A b;
       match err with
       | Some e => Ret (multilateration.emptySolution, Some (ErrQRSolveFailed e))
       | None => multilateration.finish A b x (Int.len threeSensors - 1) 2
       end) /\
    mat.MulVec A [0; 0]%Q = Ret Ap /\
    Forall2 Qeq Ap b.
Proof.
  apply (SolveLeastSquares_exact_system threeSensors 2 [0; 0]%Q).
  - lia.
  - vm_compute. discriminate.
  - vm_compute. discriminate.
  - repeat constructor.
  - reflexivity.
  - repeat constructor; vm_compute; (discriminate || reflexivity).
Defined.

Lemma SolveLeastSquares_outcome_witness :
  exists sol err,
    multilateration.SolveLeastSquares threeSensors 2 = Ret (sol, err) /\
    match err with
    | None =>
        exists x, multilateration.Position sol = Some x /\ Int.len x = 2 /\
                  (0 <= multilateration.ResidualError sol)%Q
    | Some e =>
        sol = multilateration.emptySolution /\
        exists inner, e = ErrQRSolveFailed inner
    end.
Proof.
  apply (SolveLeastSquares_outcome threeSensors 2).
  - lia.
  - vm_compute. discriminate.
  - vm_compute. discriminate.
  - repeat constructor.
Defined.

Lemma CalculateLocalizationError_outcome_witness :
  let r := multilateration.CalculateLocalizationError
             (Some [3; 4]%Q) (Some [0; 0]%Q) in
  (r.2 = None <->
     Some [3; 4]%Q <> None /\ Some [0; 0]%Q <> None /\
     0 < common.Dimension (Some [3; 4]%Q) /\
     common.Dimension (Some [3; 4]%Q) = common.Dimension (Some [0; 0]%Q)) /\
  (r.2 = None ->
     r.1 = Sqrt (common.sumSq (zip_with Qminus (common.elems (Some [3; 4]%Q))
                                 (common.elems (Some [0; 0]%Q)))) /\
     (0 <= r.1)%Q) /\
  (r.2 <> None -> r.1 = 0%Q) /\
  (Some [3; 4]%Q = None \/ Some [0; 0]%Q = None -> r.2 = Some ErrNilVectors).
Proof.
  exact (CalculateLocalizationError_outcome (Some [3; 4]%Q) (Some [0; 0]%Q)).
Defined.

Section SolverPanics.

Import common multilateration.
Context `{MathLib} `{Gonum}.

(** The row loop runs out of the row when the row is shorter than the
    dimension. *)
Lemma fillEntry_short (D n : Z) (row aData : list Q) :
  0 <= Int.len row < D -> 1 <= n ->
  Int.len aData = n * D ->
  n * D <= Int.max_int ->
  foldM (fillEntry 0 D (Some row)) (upto D) aData = Panic.
Proof.
  intros Hrow Hn Ha Hfit.
  set (d := Int.len row) in *.
  assert (Hsplit : upto D = upto d ++ d :: seqZ (d + 1) (D - d - 1)).
  { unfold upto. replace D with (d + (D - d)) at 1 by lia.
    rewrite seqZ_app by lia. f_equal. simpl.
    rewrite seqZ_cons by lia. repeat f_equal; lia. }
  rewrite Hsplit, foldM_app.
  destruct (for_invariant (fun _ (a : list Q) => Int.len a = n * D)
              (fillEntry 0 D (Some row)) d aData) as (a1 & Hrun & Ha1).
  - lia.
  - done.
  - intros j a Hj Hlen. unfold fillEntry. simpl.
    destruct (lookup_lt_is_Some_2 row (Z.to_nat j)) as [x Hx].
    { unfold d, Int.len in Hj. lia. }
    rewrite (index_Ret row j x) by (done || lia). simpl.
    assert (Hidx : Int.add (Int.mul 0 D) j = j).
    { unfold Int.add, Int.mul. rewrite Z.mul_0_l.
      rewrite (wrap_id 0) by (unfold Int.in_range, Int.min_int, Int.max_int; lia).
      rewrite Z.add_0_l.
      apply wrap_id. unfold Int.in_range, Int.min_int, Int.max_int in *. nia. }
    rewrite Hidx. rewrite assign_Ret by (unfold Int.len in *; nia).
    eexists. split; [done|]. unfold Int.len in *. rewrite length_insert. lia.
  - assert (Hstep : fillEntry 0 D (Some row) d a1 = Panic).
    { unfold fillEntry, index. cbn [elems default from_option id].
      rewrite decide_True by lia.
      rewrite (proj2 (lookup_ge_None row (Z.to_nat d))); [done|].
      unfold d, Int.len. lia. }
    rewrite Hrun. cbn [mbind go_bind foldM]. by rewrite Hstep.
Qed.

(** X26: when the sensor positions of the first measurement and of the
    reference have the same number of coordinates and that number is
    smaller than [dimension], the solver does not return an error: it
    panics with an index out of range while it fills the first row of
    the matrix. *)
Theorem SolveLeastSquares_short_vectors (first ref : Measurement)
    (middle : list Measurement) (D : Z) :
  D + 1 <= Int.len (first :: middle ++ [ref]) ->
  Int.len (first :: middle ++ [ref]) * D <= Int.max_int ->
  Dimension (SensorPosition first) = Dimension (SensorPosition ref) ->
  Dimension (SensorPosition first) < D ->
  SolveLeastSquares (first :: middle ++ [ref]) D = Panic.
Proof.
  intros Hm Hfit Hsame Hshort.
  pose proof (len_nonneg (elems (SensorPosition first))) as Hd0.
  fold (Dimension (SensorPosition first)) in Hd0.
  set (ms := first :: middle ++ [ref]) in *.
  set (n := Int.len (first :: middle)).
  assert (Hn : 1 <= n).
  { unfold n, Int.len. simpl. lia. }
  assert (Hlen : Int.len ms = n + 1).
  { unfold ms, n, Int.len. simpl. rewrite length_app. simpl. lia. }
  assert (Hrange : forall z, 0 <= z <= (n + 1) * D -> Int.wrap z = z).
  { intros z Hz. apply wrap_id. rewrite Hlen in Hfit.
    unfold Int.in_range, Int.min_int, Int.max_int in *. lia. }
  unfold SolveLeastSquares. rewrite Hlen.
  unfold Int.add, Int.sub, Int.mul.
  rewrite (Hrange (D + 1)) by nia.
  rewrite decide_False by lia.
  replace (n + 1 - 1) with n by lia.
  rewrite (Hrange n) by nia. rewrite (Hrange (n * D)) by nia.
  rewrite (index_Ret ms n ref).
  2:{ lia. }
  2:{ unfold ms, n, Int.len. rewrite Nat2Z.id.
      change (first :: middle ++ [ref]) with ((first :: middle) ++ [ref]).
      rewrite lookup_app_r by lia. by rewrite Nat.sub_diag. }
  cbn [mbind go_bind].
  unfold make. rewrite !decide_True by nia. cbn [mbind go_bind].
  assert (Hup : upto n = 0 :: seqZ 1 (n - 1)).
  { unfold upto. rewrite seqZ_cons by lia. repeat f_equal; lia. }
  assert (Hfirst : forall refDistSq refNormSq,
    fillEquation ms D (SensorPosition ref) refDistSq refNormSq 0
      (replicate (Z.to_nat (n * D)) 0%Q, replicate (Z.to_nat n) 0%Q) = Panic).
  { intros refDistSq refNormSq. unfold fillEquation.
    rewrite (index_Ret ms 0 first) by done.
    cbn [mbind go_bind]. unfold Subtract.
    rewrite decide_False by (intros Hne; apply Hne; by rewrite Hsame).
    unfold MultiplyByScalar. cbn [elems default from_option id].
    rewrite (fillEntry_short D n); [done| |done| |nia].
    - unfold Int.len. rewrite length_map, length_zip_with.
      unfold Dimension, Int.len in *. lia.
    - unfold Int.len. rewrite length_replicate. nia. }
  rewrite Hup. cbn [foldM_return]. by rewrite Hfirst.
Qed.

End SolverPanics.

(** Planar sensors and dimension 3: the call panics. *)
Example planar_sensors_in_space :
  multilateration.SolveLeastSquares
    (threeSensors ++ [ {| multilateration.SensorPosition := Some [0; 7]%Q;
                          multilateration.Distance := 7 |} ]) 3 = Panic.
Proof. vm_compute. reflexivity. Qed.

Lemma SolveLeastSquares_short_vectors_witness :
  multilateration.SolveLeastSquares
    ({| multilateration.SensorPosition := Some [3; 4]%Q;
        multilateration.Distance := 5 |}
     :: [ {| multilateration.SensorPosition := Some [5; 12]%Q;
             multilateration.Distance := 13 |};
          {| multilateration.SensorPosition := Some [8; 15]%Q;
             multilateration.Distance := 17 |} ]
     ++ [ {| multilateration.SensorPosition := Some [0; 7]%Q;
             multilateration.Distance := 7 |} ]) 3 = Panic.
Proof.
  apply SolveLeastSquares_short_vectors.
  - vm_compute. discriminate.
  - vm_compute. discriminate.
  - reflexivity.
  - reflexivity.
Defined.

(** ** The engine: its registry *)

Section Registry.

Import common simulation.
Context `{MathLib} `{Gonum}.

Lemma AddObject_failure (mem : Memory) (obj : ObjectRef) (s s' : Simulation) (e : error) :
  AddObject mem obj s = Ret (s', Some e) -> s' = s.
Proof.
  unfold AddObject.
  destruct (match obj with SensorPtr p => _ | TargetPtr p => _ end) as [[pos id]|];
    [|discriminate].
  cbn [mbind go_bind].
  repeat case_decide; try (by intros [= <-]).
  destruct obj; discriminate.
Qed.

Lemma AddObject_success (mem : Memory) (obj : ObjectRef) (s s' : Simulation) :
  AddObject mem obj s = Ret (s', None) ->
  exists id,
    identifier mem obj = Some id /\
    objects s !! id = None /\
    objects s' = <[id := obj]> (objects s) /\
    dimension s' = dimension s /\ bounds s' = bounds s /\
    simulationTime s' = simulationTime s /\
    match obj with
    | SensorPtr p =>
        sensors s' = <[id := p]> (sensors s) /\ targets s' = targets s /\
        lastEstimates s' = lastEstimates s /\ lastErrors s' = lastErrors s
    | TargetPtr p =>
        targets s' = <[id := p]> (targets s) /\ sensors s' = sensors s /\
        lastEstimates s' = <[id := noEstimate]> (lastEstimates s) /\
        lastErrors s' = <[id := noError]> (lastErrors s)
    end.
Proof.
  unfold AddObject, identifier.
  destruct obj as [p|p].
  - unfold deref. destruct (sensorCells mem !! p) as [sen|]; [|discriminate].
    cbn [mbind go_bind]. repeat case_decide; try discriminate.
    intros [= <-]. exists (sensor_id sen). simpl.
    split; [done|]. split; [by apply eq_None_not_Some|]. done.
  - unfold deref. destruct (targetCells mem !! p) as [tar|]; [|discriminate].
    cbn [mbind go_bind]. repeat case_decide; try discriminate.
    intros [= <-]. exists (target_id tar). simpl.
    split; [done|]. split; [by apply eq_None_not_Some|]. done.
Qed.

(** X14: an [AddObject] that returns an error leaves the engine as it
    was.  After a successful [AddObject], adding the same object again
    fails with the "already exists" error, and so does, with that or the
    dimension error, adding any other object that carries the same
    identifier; the engine is unchanged by these calls. *)
Theorem AddObject_rejects (mem : Memory) (obj : ObjectRef) (s s' : Simulation)
    (e : option error) :
  AddObject mem obj s = Ret (s', e) ->
  (e <> None -> s' = s) /\
  (e = None ->
     exists id, identifier mem obj = Some id /\
       AddObject mem obj s' = Ret (s', Some (ErrDuplicateID id)) /\
       forall obj2, identifier mem obj2 = Some id ->
         exists e2, AddObject mem obj2 s' = Ret (s', Some e2)).
Proof.
  intros Hadd. split.
  - destruct e as [e|]; [|done]. intros _. by eapply AddObject_failure.
  - intros ->. destruct (AddObject_success _ _ _ _ Hadd)
      as (id & Hid & Hfresh & Hobjs & Hdim & _).
    exists id. split; [done|].
    assert (Hdup : is_Some (objects s' !! id)).
    { rewrite Hobjs, lookup_insert_eq. eauto. }
    split.
    + unfold AddObject, identifier in *.
      destruct obj as [p|p]; unfold deref in *.
      * destruct (sensorCells mem !! p) as [sen|]; [|discriminate].
        injection Hid as Hid. cbn [mbind go_bind GetID Sensor_object] in *.
        rewrite Hid in *. rewrite Hdim.
        case_decide; [discriminate|]. by rewrite decide_True.
      * destruct (targetCells mem !! p) as [tar|]; [|discriminate].
        injection Hid as Hid. cbn [mbind go_bind GetID Target_object] in *.
        rewrite Hid in *. rewrite Hdim.
        case_decide; [discriminate|]. by rewrite decide_True.
    + intros obj2 Hid2. unfold AddObject, identifier in *.
      destruct obj2 as [q|q]; unfold deref.
      * destruct (sensorCells mem !! q) as [sen|]; [|discriminate].
        injection Hid2 as Hid2. cbn [mbind go_bind GetID Sensor_object].
        rewrite Hid2. case_decide; [eauto|]. rewrite decide_True by done. eauto.
      * destruct (targetCells mem !! q) as [tar|]; [|discriminate].
        injection Hid2 as Hid2. cbn [mbind go_bind GetID Target_object].
        rewrite Hid2. case_decide; [eauto|]. rewrite decide_True by done. eauto.
Qed.

(** X15: a successful [AddObject] registers the object under its own
    identifier, which was free before: [GetObject] then finds exactly
    this object under it, and what it returns for every other
    identifier is unchanged. *)
Theorem GetObject_AddObject (mem : Memory) (obj : ObjectRef) (s s' : Simulation) :
  AddObject mem obj s = Ret (s', None) ->
  exists id,
    identifier mem obj = Some id /\
    GetObject s id = (None, false) /\
    GetObject s' id = (Some obj, true) /\
    forall id', id' <> id -> GetObject s' id' = GetObject s id'.
Proof.
  intros Hadd. destruct (AddObject_success _ _ _ _ Hadd)
    as (id & Hid & Hfresh & Hobjs & _).
  exists id. unfold GetObject. rewrite Hobjs, Hfresh, lookup_insert_eq.
  split; [done|]. split; [done|]. split; [done|].
  intros id' Hne. by rewrite lookup_insert_ne.
Qed.

Lemma AddObject_partitioned (mem : Memory) (obj : ObjectRef) (s s' : Simulation)
    (e : option error) :
  partitioned s -> AddObject mem obj s = Ret (s', e) -> partitioned s'.
Proof.
  intros Hp Hadd. destruct e as [e|].
  { by rewrite (AddObject_failure _ _ _ _ _ Hadd). }
  destruct (AddObject_success _ _ _ _ Hadd)
    as (id & _ & Hfresh & Hobjs & _ & _ & _ & Hreg).
  intros k. destruct (Hp k) as [Hs Ht]. rewrite Hobjs.
  destruct obj as [p|p]; destruct Hreg as (-> & -> & _).
  - destruct (decide (k = id)) as [->|Hne].
    + rewrite !lookup_insert_eq. split; intros q.
      * split; congruence.
      * rewrite Ht, Hfresh. split; discriminate.
    + rewrite !lookup_insert_ne by done. done.
  - destruct (decide (k = id)) as [->|Hne].
    + rewrite !lookup_insert_eq. split; intros q.
      * rewrite Hs, Hfresh. split; discriminate.
      * split; congruence.
    + rewrite !lookup_insert_ne by done. done.
Qed.

Lemma record_fields (k : string) (sol : Solution) (e : Q) (s : Simulation) :
  let s1 := record k sol e s in
  dimension s1 = dimension s /\ bounds s1 = bounds s /\
  objects s1 = objects s /\ sensors s1 = sensors s /\ targets s1 = targets s /\
  simulationTime s1 = simulationTime s /\ tickDuration s1 = tickDuration s.
Proof. done. Qed.

(** What a tick leaves alone. *)
Lemma Step_fields (sched : Schedule) (deltaTime : Q) (s s' : Simulation)
    (mem mem' : Memory) (r r' : RNG) :
  Step sched deltaTime (s, mem, r) = Ret (s', mem', r') ->
  (dimension s' = dimension s /\ bounds s' = bounds s /\
   objects s' = objects s /\ sensors s' = sensors s /\ targets s' = targets s /\
   simulationTime s' = (simulationTime s + deltaTime)%Q /\
   tickDuration s' = tickDuration s) /\
  sensorCells mem' = sensorCells mem /\
  dom (targetCells mem') = dom (targetCells mem).
Proof.
  unfold Step.
  set (s0 := {| dimension := dimension s; bounds := bounds s;
                objects := objects s; sensors := sensors s;
                targets := targets s;
                simulationTime := (simulationTime s + deltaTime)%Q;
                tickDuration := tickDuration s;
                lastEstimates := lastEstimates s;
                lastErrors := lastErrors s |}).
  destruct (foldM (updateObject s0 deltaTime) (objOrder sched) (mem, r))
    as [[mem1 r1]|] eqn:Hupd; [|discriminate].
  cbn [mbind go_bind].
  destruct (foldM (localize sched mem1) (tarOrder sched) (s0, r1))
    as [[s1 r2]|] eqn:Hloc; [|discriminate].
  cbn [mbind go_bind]. intros [= <- <- <-]. split.
  - apply (foldM_preserves
      (fun st : Simulation * RNG =>
         dimension st.1 = dimension s /\ bounds st.1 = bounds s /\
         objects st.1 = objects s /\ sensors st.1 = sensors s /\
         targets st.1 = targets s /\
         simulationTime st.1 = (simulationTime s + deltaTime)%Q /\
         tickDuration st.1 = tickDuration s)
      (localize sched mem1) (tarOrder sched)) in Hloc; [done| |done].
    intros k [sa ra] [sb rb] Hsa. cbn [fst] in *. unfold localize.
    destruct (targets sa !! k) as [p|]; [|by intros [= <- <-]].
    destruct (deref (targetCells mem1) p) as [tar|]; [|discriminate].
    cbn [mbind go_bind].
    destruct (collect sched sa mem1 tar k ra) as [[tm rc]|]; [|discriminate].
    cbn [mbind go_bind].
    destruct (estimate sa tar tm) as [sc|] eqn:Hest; [|discriminate].
    cbn [mbind go_bind]. intros [= <- <-].
    apply estimate_records in Hest as (sol & e & ->). done.
  - apply (foldM_preserves
      (fun st : Memory * RNG =>
         sensorCells st.1 = sensorCells mem /\
         dom (targetCells st.1) = dom (targetCells mem))
      (updateObject s0 deltaTime) (objOrder sched)) in Hupd; [done| |done].
    intros k [ma ra] [mb rb] [Hsen Htar]. cbn [fst] in *. unfold updateObject.
    destruct (objects s0 !! k) as [[p|p]|]; [| |by intros [= <- <-]].
    + unfold deref. destruct (sensorCells ma !! p) as [sen|] eqn:Hp; [|discriminate].
      cbn [mbind go_bind Update Sensor_object]. intros [= <- <-]. simpl.
      split; [|done]. by rewrite insert_id.
    + unfold deref. destruct (targetCells ma !! p) as [tar|] eqn:Hp; [|discriminate].
      cbn [mbind go_bind].
      destruct (Update tar deltaTime (bounds s0) ra) as [[tar1 rc]|]; [|discriminate].
      cbn [mbind go_bind]. intros [= <- <-]. simpl. split; [done|].
      rewrite dom_insert_L, <- Htar.
      apply subseteq_union_1_L, singleton_subseteq_l.
      by eapply elem_of_dom_2.
Qed.

(** X16: a tick advances the clock by exactly [deltaTime] and leaves
    the dimension, the bounds and the three registries as they were;
    sensors do not move, and no target appears or disappears. *)
Theorem Step_frame (sched : Schedule) (deltaTime : Q) (s s' : Simulation)
    (mem mem' : Memory) (r r' : RNG) :
  Step sched deltaTime (s, mem, r) = Ret (s', mem', r') ->
  GetCurrentTime s' = (GetCurrentTime s + deltaTime)%Q /\
  GetDimension s' = GetDimension s /\
  bounds s' = bounds s /\
  (forall id, GetObject s' id = GetObject s id) /\
  sensors s' = sensors s /\ targets s' = targets s /\
  sensorCells mem' = sensorCells mem /\
  dom (targetCells mem') = dom (targetCells mem).
Proof.
  intros Hstep.
  destruct (Step_fields _ _ _ _ _ _ _ _ Hstep)
    as ((Hd & Hb & Ho & Hs & Ht & Htime & _) & Hsen & Htar).
  unfold GetCurrentTime, GetDimension, GetObject. rewrite Ho. done.
Qed.

Lemma reachable_partitioned (n : nat) (s : Simulation) (mem : Memory) :
  reachable n s mem -> partitioned s.
Proof.
  induction 1 as [D bounds tick s HD Hb Hnew| | | | |n s mem obj s' e _ IH Hadd
                 |n s mem sched dt r s' mem' r' _ IH _ Hstep]; try done.
  - unfold NewSimulation in Hnew. repeat case_decide; try discriminate.
    injection Hnew as <-. intros k. simpl. rewrite !lookup_empty.
    split; intros p; split; discriminate.
  - by eapply AddObject_partitioned.
  - destruct (Step_fields _ _ _ _ _ _ _ _ Hstep) as ((_ & _ & Ho & Hs & Ht & _) & _).
    intros k. rewrite Ho, Hs, Ht. apply IH.
Qed.

Lemma omap_lookup_length {V} (m : gmap string V) (order : list string) :
  order ≡ₚ elements (dom m) ->
  length (omap (fun k => m !! k) order) = size m.
Proof.
  intros Hperm.
  assert (Hall : Forall (fun k => is_Some (m !! k)) order).
  { apply Forall_forall. intros k Hk. rewrite Hperm in Hk.
    apply elem_of_elements in Hk. by apply elem_of_dom. }
  assert (Hlen : length (omap (fun k => m !! k) order) = length order).
  { clear Hperm. induction Hall as [|k l [v Hk] _ IH]; simpl; [done|].
    rewrite Hk. simpl. f_equal. exact IH. }
  rewrite Hlen, Hperm. rewrite <- size_dom. done.
Qed.

Lemma partitioned_size (s : Simulation) :
  partitioned s ->
  size (objects s) = (size (sensors s) + size (targets s))%nat.
Proof.
  intros Hp.
  assert (Hobj : objects s = (SensorPtr <$> sensors s) ∪ (TargetPtr <$> targets s)).
  { apply map_eq. intros k. destruct (Hp k) as [Hs Ht].
    destruct (objects s !! k) as [[p|p]|] eqn:Ho; symmetry.
    - apply lookup_union_Some_raw. left. rewrite lookup_fmap.
      by rewrite (proj2 (Hs p) eq_refl).
    - apply lookup_union_Some_raw. right. rewrite !lookup_fmap.
      rewrite (proj2 (Ht p) eq_refl). split; [|done].
      destruct (sensors s !! k) as [q|]; [|done].
      pose proof (proj1 (Hs q) eq_refl). discriminate.
    - apply lookup_union_None. rewrite !lookup_fmap.
      destruct (sensors s !! k) as [q|];
        [pose proof (proj1 (Hs q) eq_refl); discriminate|].
      destruct (targets s !! k) as [q|];
        [pose proof (proj1 (Ht q) eq_refl); discriminate|].
      done. }
  rewrite Hobj, map_size_disj_union, !map_size_fmap; [done|].
  apply map_disjoint_spec. intros k o1 o2. rewrite !lookup_fmap.
  destruct (Hp k) as [Hs Ht].
  destruct (sensors s !! k) as [q|]; [|discriminate].
  destruct (targets s !! k) as [q2|]; [|discriminate].
  pose proof (proj1 (Hs q) eq_refl). pose proof (proj1 (Ht q2) eq_refl).
  congruence.
Qed.

(** X17: in every state the engine can reach, with [range] visiting
    each key once, [GetAllObjects] returns as many objects as
    [GetSensors] and [GetTargets] together; an identifier is found by
    [GetObject] exactly when it is the key of a sensor or of a target,
    never of both; and [GetTargets] returns exactly the registered
    targets. *)
Theorem objects_are_sensors_and_targets (n : nat) (s : Simulation) (mem : Memory)
    (objs sens tars : list string) :
  reachable n s mem ->
  objs ≡ₚ elements (dom (objects s)) ->
  sens ≡ₚ elements (dom (sensors s)) ->
  tars ≡ₚ elements (dom (targets s)) ->
  length (GetAllObjects objs s)
    = (length (GetSensors sens s) + length (GetTargets tars s))%nat /\
  (forall id,
     (GetObject s id).2 = true <->
     is_Some (sensors s !! id) \/ is_Some (targets s !! id)) /\
  (forall id, ~ (is_Some (sensors s !! id) /\ is_Some (targets s !! id))) /\
  (forall p, p ∈ GetTargets tars s <-> exists id, targets s !! id = Some p).
Proof.
  intros Hr Ho Hs Ht. apply reachable_partitioned in Hr.
  unfold GetAllObjects, GetSensors, GetTargets.
  rewrite !omap_lookup_length by done.
  split; [by apply partitioned_size|]. split; [|split].
  - intros id. destruct (Hr id) as [Hsen Htar]. unfold GetObject.
    destruct (objects s !! id) as [[p|p]|] eqn:Hobj; simpl.
    + split; [intros _|done]. left. exists p. by apply Hsen.
    + split; [intros _|done]. right. exists p. by apply Htar.
    + split; [done|]. intros [[p Hp]|[p Hp]].
      * apply Hsen in Hp. discriminate.
      * apply Htar in Hp. discriminate.
  - intros id [[p Hp] [q Hq]]. destruct (Hr id) as [Hsen Htar].
    apply Hsen in Hp. apply Htar in Hq. congruence.
  - intros p. rewrite list_elem_of_omap. split.
    + intros (id & _ & Hid). eauto.
    + intros (id & Hid). exists id. split; [|done].
      rewrite Ht. apply elem_of_elements, elem_of_dom. eauto.
Qed.

(** X18: in every state the engine can reach, also after callers moved
    objects with [SetPosition] and after ticks, the object that
    [GetObject] finds under an identifier carries this identifier, sits
    in the typed index of its kind, and has a position (and, for a
    target, a velocity) of the engine's dimension. *)
Theorem registered_objects_fit (n : nat) (s : Simulation) (mem : Memory)
    (key : string) (obj : ObjectRef) :
  reachable n s mem ->
  GetObject s key = (Some obj, true) ->
  identifier mem obj = Some key /\
  match obj with
  | SensorPtr p =>
      sensors s !! key = Some p /\
      exists sen, sensorCells mem !! p = Some sen /\
                  Dimension (GetPosition sen) = GetDimension s
  | TargetPtr p =>
      targets s !! key = Some p /\
      exists tar, targetCells mem !! p = Some tar /\
                  Dimension (GetPosition tar) = GetDimension s /\
                  Dimension (velocity tar) = GetDimension s
  end.
Proof.
  intros Hr Hget. apply reachable_consistent in Hr.
  unfold GetObject in Hget.
  destruct (objects s !! key) as [o|] eqn:Ho; [|discriminate].
  injection Hget as ->.
  pose proof (objects_ok _ _ Hr key obj Ho) as Hidx.
  unfold identifier, GetDimension. destruct obj as [p|p].
  - destruct (sensors_ok _ _ Hr key p Hidx) as (sen & Hsen & Hid & Hdim).
    rewrite Hsen. simpl. split; [by rewrite Hid|]. split; [done|].
    exists sen. split; [done|]. exact Hdim.
  - destruct (targets_ok _ _ Hr key p Hidx) as (tar & Htar & Hid & Hdim).
    rewrite Htar. simpl. split; [by rewrite Hid|]. split; [done|].
    exists tar. split; [done|]. split; [exact Hdim|].
    rewrite (memory_ok _ _ Hr p tar Htar). exact Hdim.
Qed.

End Registry.

(** *** Registration of a target *)

Section Registration.

Import common simulation multilateration.
Context `{MathLib} `{Gonum} `{!MathLibLaws} `{!GonumLaws}.

(** C10: on an engine in use, [AddObject] on a target whose position has
    the engine's dimension and whose identifier is free returns without
    an error, registers the target and initialises its pair to the
    sentinel.  Before the call both getters return [found = false] for
    the identifier; right after it, and before any tick, they return
    [found = true] with the sentinel values.  What they return for any
    other identifier is left as it was.  In the engine after the call
    both getters find every registered target, with the sentinel values
    as long as no tick has run, and for an identifier that is not
    registered as a target they return the zero values with
    [found = false]. *)
Theorem AddObject_initialises_bookkeeping (n : nat) (s : Simulation)
    (mem : Memory) (p : ptr) (tar : Target) :
  reachable n s mem ->
  targetCells mem !! p = Some tar ->
  Dimension (GetPosition tar) = GetDimension s ->
  GetObject s (GetID tar) = (None, false) ->
  GetLastEstimate s (GetID tar) = (emptySolution, false) /\
  GetLastLocalizationError s (GetID tar) = (0%Q, false) /\
  exists s',
    AddObject mem (TargetPtr p) s = Ret (s', None) /\
    targets s' !! GetID tar = Some p /\
    GetLastEstimate s' (GetID tar)
      = ({| Position := None; ResidualError := -1 |}, true) /\
    GetLastLocalizationError s' (GetID tar) = ((-1)%Q, true) /\
    (forall id, id <> GetID tar ->
       targets s' !! id = targets s !! id /\
       GetLastEstimate s' id = GetLastEstimate s id /\
       GetLastLocalizationError s' id = GetLastLocalizationError s id) /\
    (forall id,
       match targets s' !! id with
       | Some _ =>
           (GetLastEstimate s' id).2 = true /\
           (GetLastLocalizationError s' id).2 = true /\
           (n = 0%nat ->
              GetLastEstimate s' id
                = ({| Position := None; ResidualError := -1 |}, true) /\
              GetLastLocalizationError s' id = ((-1)%Q, true))
       | None =>
           GetLastEstimate s' id = (emptySolution, false) /\
           GetLastLocalizationError s' id = (0%Q, false)
       end).
Proof.
  intros Hr Hp Hdim Hfree.
  assert (Hobj : objects s !! target_id tar = None).
  { unfold GetObject in Hfree. cbn [GetID Target_object] in Hfree.
    by destruct (objects s !! target_id tar). }
  assert (Hnot : targets s !! target_id tar = None).
  { destruct (targets s !! target_id tar) as [q|] eqn:Hq; [|done].
    apply (reachable_partitioned n s mem Hr (target_id tar)) in Hq. congruence. }
  pose proof (reachable_getters n s mem (target_id tar) Hr) as Hbefore.
  rewrite Hnot in Hbefore. destruct Hbefore as [Hb1 Hb2].
  cbn [GetID Target_object]. split; [done|]. split; [done|].
  assert (Hadd : exists s', AddObject mem (TargetPtr p) s = Ret (s', None)).
  { unfold AddObject, deref. rewrite Hp. cbn [mbind go_bind].
    rewrite decide_False by (intros Hne; apply Hne; exact Hdim).
    cbn [GetID Target_object].
    rewrite decide_False by (rewrite Hobj; by intros []).
    eauto. }
  destruct Hadd as [s' Hadd]. exists s'. split; [done|].
  destruct (AddObject_target mem p tar s s' Hp Hadd) as (Ht & He & Hx).
  pose proof (reach_AddObject n s mem (TargetPtr p) s' None Hr Hadd) as Hr'.
  split; [by rewrite Ht, lookup_insert_eq|].
  split; [unfold GetLastEstimate; by rewrite He, lookup_insert_eq|].
  split; [unfold GetLastLocalizationError; by rewrite Hx, lookup_insert_eq|].
  split.
  - intros id Hid. unfold GetLastEstimate, GetLastLocalizationError.
    rewrite Ht, He, Hx. by rewrite !lookup_insert_ne.
  - intros id. apply (reachable_getters n s' mem id Hr').
Qed.

End Registration.

Section RegistrySamples.

Import simulation.

Lemma sensorsOnly_reachable (radius : Q) :
  reachable 0 (sensorsOnly radius) (demo.memory radius).
Proof.
  unfold sensorsOnly.
  set (s1 := demo.add radius (SensorPtr 1%nat) demo.fresh).
  set (s2 := demo.add radius (SensorPtr 2%nat) s1).
  apply reach_AddObject with (s := s2) (obj := SensorPtr 3%nat) (e := None);
    [|vm_compute; reflexivity].
  apply reach_AddObject with (s := s1) (obj := SensorPtr 2%nat) (e := None);
    [|vm_compute; reflexivity].
  apply reach_AddObject with (s := demo.fresh) (obj := SensorPtr 1%nat) (e := None);
    [|vm_compute; reflexivity].
  unfold demo.memory.
  eapply reach_NewTarget with (id := "target-1"%string) (pos := Some [0; 0]%Q);
    [|reflexivity|reflexivity].
  apply reach_NewSensor; [|reflexivity].
  apply reach_NewSensor; [|reflexivity].
  apply reach_NewSensor; [|reflexivity].
  apply (reach_new 2 [-100; 100; -100; 100]%Q 100).
  - unfold Int.in_range, Int.min_int, Int.max_int. lia.
  - vm_compute. discriminate.
  - reflexivity.
Qed.

Lemma target1_added :
  AddObject (demo.memory 30) (TargetPtr 1%nat) (sensorsOnly 30)
  = Ret (demo.engine 30, None).
Proof. vm_compute. reflexivity. Qed.

Lemma AddObject_initialises_bookkeeping_witness :
  GetLastEstimate (sensorsOnly 30) (GetID demo.target1)
    = (multilateration.emptySolution, false) /\
  GetLastLocalizationError (sensorsOnly 30) (GetID demo.target1) = (0%Q, false) /\
  exists s',
    AddObject (demo.memory 30) (TargetPtr 1%nat) (sensorsOnly 30) = Ret (s', None) /\
    targets s' !! GetID demo.target1 = Some 1%nat /\
    GetLastEstimate s' (GetID demo.target1)
      = ({| multilateration.Position := None;
            multilateration.ResidualError := -1 |}, true) /\
    GetLastLocalizationError s' (GetID demo.target1) = ((-1)%Q, true) /\
    (forall id, id <> GetID demo.target1 ->
       targets s' !! id = targets (sensorsOnly 30) !! id /\
       GetLastEstimate s' id = GetLastEstimate (sensorsOnly 30) id /\
       GetLastLocalizationError s' id = GetLastLocalizationError (sensorsOnly 30) id) /\
    (forall id,
       match targets s' !! id with
       | Some _ =>
           (GetLastEstimate s' id).2 = true /\
           (GetLastLocalizationError s' id).2 = true /\
           (0%nat = 0%nat ->
              GetLastEstimate s' id
                = ({| multilateration.Position := None;
                      multilateration.ResidualError := -1 |}, true) /\
              GetLastLocalizationError s' id = ((-1)%Q, true))
       | None =>
           GetLastEstimate s' id = (multilateration.emptySolution, false) /\
           GetLastLocalizationError s' id = (0%Q, false)
       end).
Proof.
  apply (AddObject_initialises_bookkeeping 0 (sensorsOnly 30) (demo.memory 30)
           1%nat demo.target1).
  - apply sensorsOnly_reachable.
  - reflexivity.
  - reflexivity.
  - vm_compute. reflexivity.
Defined.

Lemma AddObject_rejects_witness :
  (@None error <> None -> demo.engine 30 = sensorsOnly 30) /\
  (@None error = None ->
     exists key, identifier (demo.memory 30) (TargetPtr 1%nat) = Some key /\
       AddObject (demo.memory 30) (TargetPtr 1%nat) (demo.engine 30)
         = Ret (demo.engine 30, Some (ErrDuplicateID key)) /\
       forall obj2, identifier (demo.memory 30) obj2 = Some key ->
         exists e2, AddObject (demo.memory 30) obj2 (demo.engine 30)
                    = Ret (demo.engine 30, Some e2)).
Proof.
  exact (AddObject_rejects (demo.memory 30) (TargetPtr 1%nat)
           (sensorsOnly 30) (demo.engine 30) None target1_added).
Defined.

Lemma GetObject_AddObject_witness :
  exists key,
    identifier (demo.memory 30) (TargetPtr 1%nat) = Some key /\
    GetObject (sensorsOnly 30) key = (None, false) /\
    GetObject (demo.engine 30) key = (Some (TargetPtr 1%nat), true) /\
    forall key', key' <> key ->
      GetObject (demo.engine 30) key' = GetObject (sensorsOnly 30) key'.
Proof.
  exact (GetObject_AddObject (demo.memory 30) (TargetPtr 1%nat)
           (sensorsOnly 30) (demo.engine 30) target1_added).
Defined.

Lemma objects_are_sensors_and_targets_witness :
  let s := demo.engine 30 in
  length (GetAllObjects (elements (dom (objects s))) s)
    = (length (GetSensors (elements (dom (sensors s))) s)
       + length (GetTargets (elements (dom (targets s))) s))%nat /\
  (forall key,
     (GetObject s key).2 = true <->
     is_Some (sensors s !! key) \/ is_Some (targets s !! key)) /\
  (forall key, ~ (is_Some (sensors s !! key) /\ is_Some (targets s !! key))) /\
  (forall p, p ∈ GetTargets (elements (dom (targets s))) s
             <-> exists key, targets s !! key = Some p).
Proof.
  exact (objects_are_sensors_and_targets 0 (demo.engine 30) (demo.memory 30)
           _ _ _ (demo_reachable 30) (reflexivity _) (reflexivity _) (reflexivity _)).
Defined.

(** The small world has four objects: three sensors and one target. *)
Example demo_counts :
  length (GetAllObjects (elements (dom (objects (demo.engine 30)))) (demo.engine 30))
  = 4%nat /\
  length (GetSensors (elements (dom (sensors (demo.engine 30)))) (demo.engine 30))
  = 3%nat /\
  GetTargets (elements (dom (targets (demo.engine 30)))) (demo.engine 30) = [1%nat].
Proof. vm_compute. done. Qed.

Lemma target1_found :
  GetObject (demo.engine 30) "target-1" = (Some (TargetPtr 1%nat), true).
Proof. vm_compute. reflexivity. Qed.

Lemma registered_objects_fit_witness :
  identifier (demo.memory 30) (TargetPtr 1%nat) = Some "target-1"%string /\
  (targets (demo.engine 30) !! "target-1" = Some 1%nat /\
   exists tar, targetCells (demo.memory 30) !! 1%nat = Some tar /\
               common.Dimension (GetPosition tar) = GetDimension (demo.engine 30) /\
               common.Dimension (velocity tar) = GetDimension (demo.engine 30)).
Proof.
  exact (registered_objects_fit 0 (demo.engine 30) (demo.memory 30) "target-1"
           (TargetPtr 1%nat) (demo_reachable 30) target1_found).
Defined.

Lemma Step_frame_witness :
  exists s' mem' r',
    Step (demo.schedule (demo.engine 30)) (1 # 10)
      (demo.engine 30, demo.memory 30, evenDraws) = Ret (s', mem', r') /\
    GetCurrentTime s' = (GetCurrentTime (demo.engine 30) + (1 # 10))%Q /\
    GetDimension s' = GetDimension (demo.engine 30) /\
    bounds s' = bounds (demo.engine 30) /\
    (forall key, GetObject s' key = GetObject (demo.engine 30) key) /\
    sensors s' = sensors (demo.engine 30) /\
    targets s' = targets (demo.engine 30) /\
    sensorCells mem' = sensorCells (demo.memory 30) /\
    dom (targetCells mem') = dom (targetCells (demo.memory 30)).
Proof.
  destruct (Step_total (demo.schedule (demo.engine 30)) (1 # 10)
              (demo.engine 30) (demo.memory 30) evenDraws)
    as (s' & mem' & r' & Hrun & _).
  - apply (reachable_consistent 0), demo_reachable.
  - vm_compute. discriminate.
  - apply demo_schedule_valid.
  - intros k. vm_compute. discriminate.
  - exists s', mem', r'. split; [exact Hrun|].
    exact (Step_frame _ _ _ _ _ _ _ _ Hrun).
Defined.

End RegistrySamples.

(** ** The engine: random population *)

Section Random.

Import common simulation.
Context `{MathLib} `{Gonum}.

(** X19: on an engine whose bounds have [2*dimension] entries,
    [AddRandomTarget] with an identifier that is free succeeds: it takes
    one draw per axis, creates a target with zero velocity and a
    position of the engine's dimension, registers it, and initialises
    its estimate and error to the sentinel pair; with draws from the
    unit interval the position lies within the bounds of every axis
    that has [min <= max]. *)
Theorem AddRandomTarget_registers (p : ptr) (key : string) (s : Simulation)
    (mem : Memory) (r : RNG) :
  Int.in_range (2 * dimension s) ->
  Int.len (bounds s) = 2 * dimension s ->
  objects s !! key = None ->
  exists s' tar,
    AddRandomTarget p key (s, mem, r)
      = Ret (s', {| sensorCells := sensorCells mem;
                    targetCells := <[p := tar]> (targetCells mem) |},
             advance r (Z.to_nat (dimension s)), None) /\
    target_id tar = key /\
    Dimension (target_position tar) = dimension s /\
    elems (velocity tar) = replicate (Z.to_nat (dimension s)) 0%Q /\
    GetObject s' key = (Some (TargetPtr p), true) /\
    targets s' !! key = Some p /\
    GetLastEstimate s' key = (noEstimate, true) /\
    GetLastLocalizationError s' key = (noError, true) /\
    (unitDraws r ->
     forall (i : nat) (lo hi x : Q),
       bounds s !! (2 * i)%nat = Some lo -> bounds s !! (2 * i + 1)%nat = Some hi ->
       elems (target_position tar) !! i = Some x ->
       (lo <= hi)%Q -> (lo <= x)%Q /\ (x <= hi)%Q).
Proof.
  intros Hr Hb Hfresh.
  destruct (NewRandomVector_run (dimension s) (bounds s) r Hr Hb)
    as (v & Hrun & Hlen & Hall).
  assert (Hd : 0 <= dimension s) by (rewrite <- Hlen; apply len_nonneg).
  unfold AddRandomTarget. rewrite Hrun. cbn [mbind go_bind].
  unfold NewTarget, NewVector, make, Clone, Dimension.
  cbn [elems default from_option id]. fold (Int.len v). rewrite Hlen.
  rewrite decide_True by done. cbn [mbind go_bind].
  set (tar := {| target_id := key; target_position := Some v;
                 velocity := Some (replicate (Z.to_nat (dimension s)) 0%Q) |}).
  unfold AddObject, deref. cbn [targetCells].
  rewrite lookup_insert_eq. cbn [mbind go_bind GetPosition GetID Target_object
    target_position target_id tar Clone elems default from_option].
  unfold Dimension. cbn [elems default from_option]. 
  rewrite decide_False by (intros Hne; apply Hne; exact Hlen).
  rewrite decide_False by (rewrite Hfresh; intros [? ?]; discriminate).
  cbn [mbind go_bind option_map].
  eexists _, tar. split; [reflexivity|].
  unfold GetObject, GetLastEstimate, GetLastLocalizationError. simpl.
  rewrite !lookup_insert_eq.
  repeat (split; [done|]).
  intros Hu i lo hi x Hlo Hhi Hx Hle.
  rewrite (Hall i lo hi Hlo Hhi) in Hx. injection Hx as <-.
  destruct (Hu (drawn r + i)%nat) as [H0' H1']. by apply between.
Qed.

(** X20: under the same conditions [AddRandomSensor] succeeds: the new
    sensor carries the given radius and noise function and a position
    of the engine's dimension within the bounds, it is registered as a
    sensor, and the targets and their bookkeeping are untouched. *)
Theorem AddRandomSensor_registers (p : ptr) (key : string) (radius : Q)
    (noise : option NoiseFunction) (s : Simulation) (mem : Memory) (r : RNG) :
  Int.in_range (2 * dimension s) ->
  Int.len (bounds s) = 2 * dimension s ->
  objects s !! key = None ->
  exists s' sen,
    AddRandomSensor p key radius noise (s, mem, r)
      = Ret (s', {| sensorCells := <[p := sen]> (sensorCells mem);
                    targetCells := targetCells mem |},
             advance r (Z.to_nat (dimension s)), None) /\
    sensor_id sen = key /\
    detectionRadius sen = radius /\ noiseFunc sen = noise /\
    Dimension (sensor_position sen) = dimension s /\
    GetObject s' key = (Some (SensorPtr p), true) /\
    sensors s' !! key = Some p /\
    targets s' = targets s /\
    lastEstimates s' = lastEstimates s /\ lastErrors s' = lastErrors s /\
    (unitDraws r ->
     forall (i : nat) (lo hi x : Q),
       bounds s !! (2 * i)%nat = Some lo -> bounds s !! (2 * i + 1)%nat = Some hi ->
       elems (sensor_position sen) !! i = Some x ->
       (lo <= hi)%Q -> (lo <= x)%Q /\ (x <= hi)%Q).
Proof.
  intros Hr Hb Hfresh.
  destruct (NewRandomVector_run (dimension s) (bounds s) r Hr Hb)
    as (v & Hrun & Hlen & Hall).
  unfold AddRandomSensor. rewrite Hrun. cbn [mbind go_bind].
  set (sen := NewSensor key (Some v) radius noise).
  unfold AddObject, deref. cbn [sensorCells].
  rewrite lookup_insert_eq. cbn [mbind go_bind GetPosition GetID Sensor_object
    sensor_position sensor_id sen NewSensor Clone elems default from_option].
  unfold Dimension. cbn [elems default from_option].
  rewrite decide_False by (intros Hne; apply Hne; exact Hlen).
  rewrite decide_False by (rewrite Hfresh; intros [? ?]; discriminate).
  cbn [mbind go_bind option_map].
  eexists _, sen. split; [reflexivity|].
  unfold GetObject. simpl. rewrite !lookup_insert_eq.
  repeat (split; [done|]).
  intros Hu i lo hi x Hlo Hhi Hx Hle.
  rewrite (Hall i lo hi Hlo Hhi) in Hx. injection Hx as <-.
  destruct (Hu (drawn r + i)%nat) as [H0' H1']. by apply between.
Qed.

(** X21: on an engine whose bounds do not have [2*dimension] entries
    both random constructors fail with the wrapped "bounds length"
    error, take no draw and change nothing.  The constructor does let
    such an engine through: dimension 0 with any bounds. *)
Theorem AddRandom_needs_bounds (p : ptr) (key : string) (radius : Q)
    (noise : option NoiseFunction) (s : Simulation) (mem : Memory) (r : RNG) :
  Int.in_range (2 * dimension s) ->
  Int.len (bounds s) <> 2 * dimension s ->
  let e := ErrRandomBounds (Int.len (bounds s)) (2 * dimension s) in
  AddRandomSensor p key radius noise (s, mem, r)
    = Ret (s, mem, r, Some (ErrRandomSensor e)) /\
  AddRandomTarget p key (s, mem, r) = Ret (s, mem, r, Some (ErrRandomTarget e)) /\
  (dimension s = 0 ->
   is_Some (NewSimulation (dimension s) (bounds s) (tickDuration s)).1).
Proof.
  intros Hr Hne e.
  assert (Hrun : NewRandomVector (dimension s) (bounds s) r = Ret (None, Some e, r)).
  { unfold NewRandomVector.
    assert (Hm : Int.mul (dimension s) 2 = 2 * dimension s).
    { unfold Int.mul. rewrite wrap_id; [lia|].
      by replace (dimension s * 2) with (2 * dimension s) by lia. }
    rewrite Hm. by rewrite decide_True. }
  unfold AddRandomSensor, AddRandomTarget. rewrite Hrun. cbn [mbind go_bind].
  split; [done|]. split; [done|].
  intros Hz. unfold NewSimulation. rewrite Hz.
  rewrite decide_False by lia. rewrite decide_False by lia. simpl. eauto.
Qed.

End Random.

(** ** Package main: bounds that the engine accepts *)

Section Bounds.

Import simulation.

Lemma createBounds_loop (bound : Q) (order : list Z) (acc : list Q) :
  foldM (fun _ bounds => Ret (bounds ++ [(- bound)%Q; bound])) order acc
  = Ret (acc ++ mjoin (replicate (length order) [(- bound)%Q; bound])).
Proof.
  revert acc. induction order as [|x order IH]; intros acc; simpl.
  - by rewrite app_nil_r.
  - rewrite IH. by rewrite <- app_assoc.
Qed.

(** X22: [createBounds] panics on a negative dimension (the allocation
    with capacity [2*dim] comes before the test [dim <= 0]).  For
    [dim >= 0] it returns the pair [-bound, bound] once per axis, and
    [NewSimulation] accepts the result for that dimension; the axes are
    ordered when [bound >= 0]. *)
Theorem createBounds_accepted (dim : Z) (bound : Q) (tick : Z) :
  Int.in_range (2 * dim) ->
  (dim < 0 -> main.createBounds dim bound = Panic) /\
  (0 <= dim ->
   main.createBounds dim bound
     = Ret (mjoin (replicate (Z.to_nat dim) [(- bound)%Q; bound])) /\
   exists s,
     NewSimulation dim (mjoin (replicate (Z.to_nat dim) [(- bound)%Q; bound])) tick
       = (Some s, None) /\
     GetDimension s = dim /\
     Int.len (bounds s) = 2 * dim /\
     ((0 <= bound)%Q -> axesOrdered (bounds s) = true)).
Proof.
  intros Hr.
  assert (Hm : Int.mul 2 dim = 2 * dim) by (unfold Int.mul; by apply wrap_id).
  unfold main.createBounds. rewrite Hm. split.
  - intros Hneg. by rewrite decide_True by lia.
  - intros Hpos. rewrite decide_False by lia.
    set (b := mjoin (replicate (Z.to_nat dim) [(- bound)%Q; bound])).
    assert (Hlen : Int.len b = 2 * dim).
    { unfold b, Int.len. rewrite length_join.
      rewrite fmap_replicate, sum_list_replicate. simpl. lia. }
    split.
    + case_decide as Hz.
      * assert (dim = 0) as -> by lia. done.
      * rewrite createBounds_loop. unfold upto. rewrite length_seqZ. done.
    + unfold NewSimulation.
      assert (Hm2 : Int.mul dim 2 = 2 * dim).
      { unfold Int.mul. rewrite wrap_id; [lia|].
        by replace (dim * 2) with (2 * dim) by lia. }
      rewrite Hm2, decide_False by (intros [Hne _]; by apply Hne).
      rewrite decide_False by lia.
      eexists. split; [done|]. simpl. split; [done|]. split; [done|].
      intros Hb. unfold b. clear -Hb.
      induction (Z.to_nat dim) as [|n IH]; simpl; [done|].
      rewrite IH, andb_true_r. apply Qle_bool_iff. lra.
Qed.

End Bounds.


Section RandomSamples.

Import simulation.

Lemma AddRandomTarget_registers_witness :
  exists s' tar,
    AddRandomTarget 2%nat "target-2" (demo.engine 30, demo.memory 30, evenDraws)
      = Ret (s', {| sensorCells := sensorCells (demo.memory 30);
                    targetCells := <[2%nat := tar]> (targetCells (demo.memory 30)) |},
             advance evenDraws (Z.to_nat (dimension (demo.engine 30))), None) /\
    target_id tar = "target-2"%string /\
    common.Dimension (target_position tar) = dimension (demo.engine 30) /\
    common.elems (velocity tar)
      = replicate (Z.to_nat (dimension (demo.engine 30))) 0%Q /\
    GetObject s' "target-2" = (Some (TargetPtr 2%nat), true) /\
    targets s' !! "target-2" = Some 2%nat /\
    GetLastEstimate s' "target-2" = (noEstimate, true) /\
    GetLastLocalizationError s' "target-2" = (noError, true) /\
    (unitDraws evenDraws ->
     forall (i : nat) (lo hi x : Q),
       bounds (demo.engine 30) !! (2 * i)%nat = Some lo ->
       bounds (demo.engine 30) !! (2 * i + 1)%nat = Some hi ->
       common.elems (target_position tar) !! i = Some x ->
       (lo <= hi)%Q -> (lo <= x)%Q /\ (x <= hi)%Q).
Proof.
  apply (AddRandomTarget_registers 2%nat "target-2" (demo.engine 30)
           (demo.memory 30) evenDraws).
  - vm_compute. split; discriminate.
  - reflexivity.
  - vm_compute. reflexivity.
Defined.

Lemma AddRandomSensor_registers_witness :
  exists s' sen,
    AddRandomSensor 4%nat "sensor-4" 30 (Some (GaussianNoise 1))
      (demo.engine 30, demo.memory 30, evenDraws)
      = Ret (s', {| sensorCells := <[4%nat := sen]> (sensorCells (demo.memory 30));
                    targetCells := targetCells (demo.memory 30) |},
             advance evenDraws (Z.to_nat (dimension (demo.engine 30))), None) /\
    sensor_id sen = "sensor-4"%string /\
    detectionRadius sen = 30%Q /\ noiseFunc sen = Some (GaussianNoise 1) /\
    common.Dimension (sensor_position sen) = dimension (demo.engine 30) /\
    GetObject s' "sensor-4" = (Some (SensorPtr 4%nat), true) /\
    sensors s' !! "sensor-4" = Some 4%nat /\
    targets s' = targets (demo.engine 30) /\
    lastEstimates s' = lastEstimates (demo.engine 30) /\
    lastErrors s' = lastErrors (demo.engine 30) /\
    (unitDraws evenDraws ->
     forall (i : nat) (lo hi x : Q),
       bounds (demo.engine 30) !! (2 * i)%nat = Some lo ->
       bounds (demo.engine 30) !! (2 * i + 1)%nat = Some hi ->
       common.elems (sensor_position sen) !! i = Some x ->
       (lo <= hi)%Q -> (lo <= x)%Q /\ (x <= hi)%Q).
Proof.
  apply (AddRandomSensor_registers 4%nat "sensor-4" 30 (Some (GaussianNoise 1))
           (demo.engine 30) (demo.memory 30) evenDraws).
  - vm_compute. split; discriminate.
  - reflexivity.
  - vm_compute. reflexivity.
Defined.

Lemma AddRandom_needs_bounds_witness :
  let e := ErrRandomBounds (Int.len (bounds pointEngine)) (2 * dimension pointEngine) in
  AddRandomSensor 1%nat "object-1" 30 None (pointEngine, demo.memory 30, evenDraws)
    = Ret (pointEngine, demo.memory 30, evenDraws, Some (ErrRandomSensor e)) /\
  AddRandomTarget 1%nat "object-1" (pointEngine, demo.memory 30, evenDraws)
    = Ret (pointEngine, demo.memory 30, evenDraws, Some (ErrRandomTarget e)) /\
  (dimension pointEngine = 0 ->
   is_Some (NewSimulation (dimension pointEngine) (bounds pointEngine)
              (tickDuration pointEngine)).1).
Proof.
  apply (AddRandom_needs_bounds 1%nat "object-1" 30 None pointEngine
           (demo.memory 30) evenDraws).
  - vm_compute. split; discriminate.
  - vm_compute. discriminate.
Defined.

Lemma createBounds_accepted_witness :
  (3 < 0 -> main.createBounds 3 100 = Panic) /\
  (0 <= 3 ->
   main.createBounds 3 100
     = Ret (mjoin (replicate (Z.to_nat 3) [(- 100)%Q; 100%Q])) /\
   exists s,
     NewSimulation 3 (mjoin (replicate (Z.to_nat 3) [(- 100)%Q; 100%Q])) 100
       = (Some s, None) /\
     GetDimension s = 3 /\
     Int.len (bounds s) = 2 * 3 /\
     ((0 <= 100)%Q -> axesOrdered (bounds s) = true)).
Proof.
  apply (createBounds_accepted 3 100 100).
  vm_compute. split; discriminate.
Defined.

End RandomSamples.

(** ** Shared storage: what SetPosition keeps *)

Section Copies.

Import aliasing.

Lemma contents_length (h : Heap) (v : Vector) :
  allocated h v -> length (contents h v) = len v.
Proof.
  destruct v as [|a n]; [done|]. intros (l & Hl & Hn). simpl.
  rewrite Hl. simpl. rewrite length_take. lia.
Qed.

Lemma contents_slice (h : Heap) (a n : nat) (l : list Q) :
  h !! a = Some l -> contents h (sliceOf a n) = take n l.
Proof. intros Hl. simpl. by rewrite Hl. Qed.

(** X23: [Target.SetPosition] rejects a vector of another length and
    then changes nothing.  Otherwise it stores a copy in an array of
    its own: the target keeps its identifier and velocity, its position
    and what [GetPosition] returns hold the elements of the argument,
    and a later write of the caller into the vector it passed does not
    change the position of the target. *)
Theorem SetPosition_stores_a_copy (t : Target) (pos : Vector) (h : Heap) :
  allocated h pos ->
  (len pos <> len (target_position t) ->
     exists e, SetPosition t pos h = (t, Some e, h)) /\
  (len pos = len (target_position t) ->
     exists t' h1,
       SetPosition t pos h = (t', None, h1) /\
       target_id t' = target_id t /\ velocity t' = velocity t /\
       contents h1 (target_position t') = contents h pos /\
       (forall v h2, GetPosition t' h1 = (v, h2) ->
          contents h2 v = contents h pos) /\
       (forall i x h2, store h1 pos i x = Ret h2 ->
          contents h2 (target_position t') = contents h pos)).
Proof.
  intros Hpos. unfold SetPosition. split.
  - intros Hne. rewrite decide_True by done. eauto.
  - intros Heq. rewrite decide_False by (intros Hne; by apply Hne).
    destruct (Clone pos h) as [c h1] eqn:Hclone.
    destruct (Clone_fresh _ _ _ _ Hpos Hclone) as (-> & Hnew & Hold).
    pose proof (contents_length h pos Hpos) as Hlen.
    eexists _, h1. split; [done|]. simpl.
    assert (Hc : contents h1 (sliceOf (length h) (len pos)) = contents h pos).
    { rewrite (contents_slice _ _ _ _ Hnew), <- Hlen. apply firstn_all. }
    split; [done|]. split; [done|]. split; [done|]. split.
    + intros v h2 Hget. unfold GetPosition in Hget. cbn [target_position] in Hget.
      assert (Hal : allocated h1 (sliceOf (length h) (len pos))).
      { simpl. eexists. split; [exact Hnew|]. lia. }
      destruct (Clone_fresh _ _ _ _ Hal Hget) as (-> & Hnew2 & _).
      rewrite (contents_slice _ _ _ _ Hnew2), Hc.
      change (len (sliceOf (length h) (len pos))) with (len pos).
      rewrite <- Hlen. apply firstn_all.
    + intros i x h2. unfold store.
      destruct pos as [|a n]; [discriminate|].
      destruct Hpos as (l & Hl & Hn).
      pose proof (lookup_lt_Some _ _ _ Hl) as Ha.
      rewrite (Hold a Ha), Hl. case_decide; [|discriminate].
      intros [= <-]. rewrite <- Hc. cbn [target_position].
      rewrite list_lookup_insert_ne by lia.
      by rewrite (contents_slice _ _ _ _ Hnew), Hnew.
Qed.

End Copies.

Lemma SetPosition_stores_a_copy_witness :
  (aliasing.len (aliasing.sliceOf 1 2) <> aliasing.len (aliasing.target_position resident) ->
     exists e, aliasing.SetPosition resident (aliasing.sliceOf 1 2) twoArrays
               = (resident, Some e, twoArrays)) /\
  (aliasing.len (aliasing.sliceOf 1 2) = aliasing.len (aliasing.target_position resident) ->
     exists t' h1,
       aliasing.SetPosition resident (aliasing.sliceOf 1 2) twoArrays = (t', None, h1) /\
       aliasing.target_id t' = aliasing.target_id resident /\
       aliasing.velocity t' = aliasing.velocity resident /\
       aliasing.contents h1 (aliasing.target_position t')
         = aliasing.contents twoArrays (aliasing.sliceOf 1 2) /\
       (forall v h2, aliasing.GetPosition t' h1 = (v, h2) ->
          aliasing.contents h2 v = aliasing.contents twoArrays (aliasing.sliceOf 1 2)) /\
       (forall i x h2, aliasing.store h1 (aliasing.sliceOf 1 2) i x = Ret h2 ->
          aliasing.contents h2 (aliasing.target_position t')
            = aliasing.contents twoArrays (aliasing.sliceOf 1 2))).
Proof.
  apply (SetPosition_stores_a_copy resident (aliasing.sliceOf 1 2) twoArrays).
  simpl. exists [3; 4]%Q. split; [reflexivity|simpl; lia].
Defined.

(** The caller sets the position from its vector (3, 4) and then
    writes 99 into that vector: the target still is at (3, 4). *)
Example SetPosition_then_write :
  match aliasing.SetPosition resident (aliasing.sliceOf 1 2) twoArrays with
  | (t', None, h1) =>
      match aliasing.store h1 (aliasing.sliceOf 1 2) 0 99 with
      | Ret h2 =>
          aliasing.contents h2 (aliasing.sliceOf 1 2) = [99; 4]%Q /\
          aliasing.contents h2 (aliasing.target_position t') = [3; 4]%Q
      | Panic => False
      end
  | _ => False
  end.
Proof. vm_compute. split; reflexivity. Qed.
(** ** The engine: what a tick measures and stores *)

Section TickFacts.

Import common simulation.
Context `{MathLib} `{Gonum} `{!MathLibLaws} `{!GonumLaws}.

(** X24: the measurements that the engine collects for a target: at
    most one per sensor visited, each with a distance [>= 0] and with
    the position of a registered sensor, which has the engine's
    dimension.  These are the inputs the solver is called with. *)
Theorem collect_measurements (sched : Schedule) (s : Simulation) (mem : Memory)
    (tar : Target) (k : string) (r : RNG) :
  consistent s mem ->
  exists tm r',
    collect sched s mem tar k r = Ret (tm, r') /\
    (length tm <= length (senOrder sched k))%nat /\
    Forall (fun m =>
      (0 <= Distance m)%Q /\
      Dimension (SensorPosition m) = dimension s /\
      exists key p sen,
        key ∈ senOrder sched k /\ sensors s !! key = Some p /\
        sensorCells mem !! p = Some sen /\
        SensorPosition m = GetPosition sen) tm.
Proof.
  intros Hc. unfold collect.
  destruct (foldM_invariant
    (fun i (st : list Measurement * RNG) =>
       (length st.1 <= i)%nat /\
       Forall (fun m =>
         (0 <= Distance m)%Q /\
         Dimension (SensorPosition m) = dimension s /\
         exists key p sen,
           key ∈ senOrder sched k /\ sensors s !! key = Some p /\
           sensorCells mem !! p = Some sen /\
           SensorPosition m = GetPosition sen) st.1)
    (measure s mem tar) (senOrder sched k) ([], r)) as ([tm r'] & Hrun & Hlen & Hall).
  - simpl. split; [lia|constructor].
  - intros i sid [tm0 r0] Hsid' [Hlen Hall]. simpl in Hall, Hlen. unfold measure.
    destruct (sensors s !! sid) as [p|] eqn:Hsid.
    2:{ eexists. split; [done|]. simpl. split; [lia|done]. }
    destruct (sensors_ok _ _ Hc _ _ Hsid) as (sen & Hsen & _ & Hdim).
    unfold deref. rewrite Hsen. simpl.
    pose proof (MeasureDistance_clamped sen tar r0) as Hpos.
    destruct (MeasureDistance sen tar r0) as [[[dist inRange] [err|]] r1].
    { eexists. split; [done|]. simpl. split; [lia|done]. }
    destruct inRange.
    2:{ eexists. split; [done|]. simpl. split; [lia|done]. }
    eexists. split; [done|]. simpl. split.
    + rewrite length_app. simpl. lia.
    + apply Forall_app. split; [done|]. apply Forall_singleton. simpl.
      split; [exact Hpos|]. split; [exact Hdim|].
      exists sid, p, sen. split; [|done].
      by eapply list_elem_of_lookup_2.
  - exists tm, r'. auto.
Qed.

(** What the loop over the targets holds for a target afterwards is
    what [estimate] made of the measurements of that target. *)
Lemma localizeAll_stores (sched : Schedule) (mem : Memory) (order : list string) :
  forall (s s' : Simulation) (r r' : RNG),
  consistent s mem ->
  1 <= dimension s ->
  fitsMemory sched s ->
  NoDup order ->
  foldM (localize sched mem) order (s, r) = Ret (s', r') ->
  forall k tm p tar,
    collectedFor sched s mem k order r = Ret (Some tm) ->
    targets s !! k = Some p ->
    targetCells mem !! p = Some tar ->
    Forall (fun m => Dimension (SensorPosition m) = dimension s) tm /\
    Int.len tm * dimension s <= Int.max_int /\
    exists sol e sk,
      dimension sk = dimension s /\
      estimate sk tar tm = Ret (record k sol e sk) /\
      lastEstimates s' !! k = Some sol /\ lastErrors s' !! k = Some e.
Proof.
  induction order as [|k0 rest IH]; intros s s' r r' Hc HD Hfit Hnd Hrun k tm p tar Hcf Hk Hp.
  { discriminate. }
  apply NoDup_cons in Hnd as [Hk0 Hnd].
  pose proof (localize_total sched s mem k0 r Hc HD Hfit) as Hloc.
  cbn [foldM collectedFor] in Hrun, Hcf.
  destruct (targets s !! k0) as [p0|] eqn:Htk.
  - destruct Hloc as (tar0 & tm0 & r1 & sol & e & Htar & Hcol & Hone & Hsync & Hfew).
    rewrite Hone in Hrun. cbn [mbind go_bind] in Hrun.
    assert (Hc1 : consistent (record k0 sol e s) mem).
    { apply record_consistent; [done|]. by rewrite Htk. }
    unfold deref in Hcf. rewrite Htar in Hcf. cbn [mbind go_bind] in Hcf.
    rewrite Hcol in Hcf. cbn [mbind go_bind] in Hcf.
    case_decide as Hkk.
    + subst k0. injection Hcf as <-.
      rewrite Hk in Htk. injection Htk as <-.
      rewrite Hp in Htar. injection Htar as <-.
      destruct (localizeAll_total sched mem rest (record k sol e s) r1 Hc1 HD Hfit Hnd)
        as (s2 & r2 & Hrest & _ & _ & _ & Hout & _).
      rewrite Hrun in Hrest. injection Hrest as <- <-.
      destruct (Hout k Hk0) as [He1 He2].
      destruct (collect_total sched s mem tar k r Hc)
        as (tm1 & r3 & Hcol1 & Hdims & Hlen).
      rewrite Hcol in Hcol1. injection Hcol1 as <- <-.
      split; [done|]. split.
      { specialize (Hfit k). unfold Int.len in *. nia. }
      exists sol, e, s. split; [done|]. split.
      * unfold localize in Hone. rewrite Hk in Hone.
        unfold deref in Hone. rewrite Hp in Hone. cbn [mbind go_bind] in Hone.
        rewrite Hcol in Hone. cbn [mbind go_bind] in Hone.
        destruct (estimate s tar tm0) as [s1|]; [|discriminate].
        cbn [mbind go_bind] in Hone. by injection Hone as ->.
      * rewrite He1, He2. simpl. by rewrite !lookup_insert_eq.
    + apply (IH (record k0 sol e s) s' r1 r' Hc1 HD Hfit Hnd Hrun k tm p tar);
        [|done|done].
      by rewrite (collectedFor_ext sched _ s).
  - rewrite Hloc in Hrun. cbn [mbind go_bind] in Hrun.
    by apply (IH s s' r r' Hc HD Hfit Hnd Hrun k tm p tar).
Qed.

(** X25: after a tick, for every registered target that collected at
    least [D+1] measurements: when the solver succeeds on them, the
    stored estimate is the solver's solution and the stored error is
    the distance between the target's position after its move and the
    estimated position; when the solver fails, the sentinel pair is
    stored. *)
Theorem Step_stores_the_solution (sched : Schedule) (deltaTime : Q)
    (s : Simulation) (mem : Memory) (r : RNG) :
  consistent s mem ->
  1 <= dimension s ->
  validSchedule sched s ->
  fitsMemory sched s ->
  exists s' mem' r',
    Step sched deltaTime (s, mem, r) = Ret (s', mem', r') /\
    forall k tm p tar sol err,
      collected sched deltaTime (s, mem, r) k = Ret (Some tm) ->
      targets s !! k = Some p ->
      targetCells mem' !! p = Some tar ->
      dimension s + 1 <= Int.len tm ->
      SolveLeastSquares tm (dimension s) = Ret (sol, err) ->
      match err with
      | None =>
          GetLastEstimate s' k = (sol, true) /\
          GetLastLocalizationError s' k
            = ((common.Distance (GetPosition tar) (Position sol)).1, true)
      | Some _ =>
          GetLastEstimate s' k = (noEstimate, true) /\
          GetLastLocalizationError s' k = (noError, true)
      end.
Proof.
  intros Hc HD (Hobj & Htar & Hsen) Hfit.
  unfold Step, collected.
  set (s0 := {| dimension := dimension s; bounds := bounds s;
                objects := objects s; sensors := sensors s;
                targets := targets s;
                simulationTime := (simulationTime s + deltaTime)%Q;
                tickDuration := tickDuration s;
                lastEstimates := lastEstimates s;
                lastErrors := lastErrors s |}).
  assert (Hc0 : forall m, consistent s m -> consistent s0 m).
  { intros m []. by split. }
  change (foldM (updateObject s deltaTime) (objOrder sched) (mem, r))
    with (foldM (updateObject s0 deltaTime) (objOrder sched) (mem, r)).
  destruct (updateAll_total s deltaTime (objOrder sched) mem r Hc)
    as (mem1 & r1 & Hupd & Hc1).
  change (foldM (updateObject s deltaTime) (objOrder sched) (mem, r))
    with (foldM (updateObject s0 deltaTime) (objOrder sched) (mem, r)) in Hupd.
  rewrite Hupd. cbn [mbind go_bind].
  assert (Hnd : NoDup (tarOrder sched)) by (rewrite Htar; apply NoDup_elements).
  destruct (localizeAll_total sched mem1 (tarOrder sched) s0 r1)
    as (s' & r' & Hrun & _); [by apply Hc0|done|done|done|].
  rewrite Hrun. cbn [mbind go_bind]. exists s', mem1, r'. split; [done|].
  intros k tm p tar sol err Hcf Hk Hp Hlen Hsolve.
  destruct (localizeAll_stores sched mem1 (tarOrder sched) s0 s' r1 r'
              (Hc0 _ Hc1) HD Hfit Hnd Hrun k tm p tar)
    as (Hdims & Hfits & sol' & e' & sk & Hdim & Hest & Hs1 & Hs2); [|done|done|].
  { by rewrite (collectedFor_ext sched s0 s). }
  unfold GetLastEstimate, GetLastLocalizationError. rewrite Hs1, Hs2.
  change (dimension s0) with (dimension s) in Hdim, Hdims, Hfits.
  unfold estimate in Hest. rewrite Hdim in Hest.
  assert (Hadd : Int.add (dimension s) 1 = dimension s + 1).
  { unfold Int.add. apply wrap_id. destruct Hc.
    unfold Int.in_range, Int.min_int, Int.max_int in *. lia. }
  rewrite Hadd, decide_True in Hest by lia.
  rewrite Hsolve in Hest. cbn [mbind go_bind] in Hest.
  assert (Hinj : forall a b a' b',
    Ret (record k a b sk) = Ret (record k a' b' sk) -> a = a' /\ b = b').
  { intros a b a' b' Heq.
    assert (Hrec : record k a b sk = record k a' b' sk) by congruence.
    pose proof (f_equal (fun x => lastEstimates x !! k) Hrec) as He1.
    pose proof (f_equal (fun x => lastErrors x !! k) Hrec) as He2.
    cbn [record lastEstimates lastErrors] in He1, He2.
    rewrite !lookup_insert_eq in He1. rewrite !lookup_insert_eq in He2.
    split; congruence. }
  destruct (targets_ok _ _ Hc1 k p Hk) as (tar' & Htar' & Hid & Hdimt).
  rewrite Hp in Htar'. injection Htar' as <-.
  cbn [GetID Target_object] in Hest. rewrite Hid in Hest.
  destruct err as [e|].
  { apply Hinj in Hest as [<- <-]. done. }
  destruct (SolveLeastSquares_position tm (dimension s) sol HD Hlen Hfits Hdims Hsolve)
    as (x & Hx & Hlx).
  assert (Hcle : CalculateLocalizationError (GetPosition tar) (Position sol)
                 = common.Distance (GetPosition tar) (Position sol)).
  { unfold CalculateLocalizationError. rewrite Hx.
    cbn [GetPosition Target_object Clone].
    rewrite decide_False; [done|].
    unfold Dimension in Hdimt. rewrite Hdimt, Hlx. lia. }
  rewrite Hcle in Hest.
  destruct (Distance_same_dimension (GetPosition tar) (Position sol)) as (d & Hd & _).
  { rewrite Hx. cbn [GetPosition Target_object].
    unfold Clone, Dimension in *. simpl. congruence. }
  rewrite Hd in Hest. rewrite Hd. cbn [fst].
  apply Hinj in Hest as [<- <-]. done.
Qed.

End TickFacts.

Section TickSamples.

Import simulation.

Lemma collect_measurements_witness :
  exists tm r',
    collect (demo.schedule (demo.engine 30)) (demo.engine 30) (demo.memory 30)
      demo.target1 "target-1" evenDraws = Ret (tm, r') /\
    (length tm
     <= length (senOrder (demo.schedule (demo.engine 30)) "target-1"))%nat /\
    Forall (fun m =>
      (0 <= Distance m)%Q /\
      common.Dimension (SensorPosition m) = dimension (demo.engine 30) /\
      exists key p sen,
        key ∈ senOrder (demo.schedule (demo.engine 30)) "target-1" /\
        sensors (demo.engine 30) !! key = Some p /\
        sensorCells (demo.memory 30) !! p = Some sen /\
        SensorPosition m = GetPosition sen) tm.
Proof.
  apply (collect_measurements (demo.schedule (demo.engine 30)) (demo.engine 30)
           (demo.memory 30) demo.target1 "target-1" evenDraws).
  apply (reachable_consistent 0), demo_reachable.
Defined.

Lemma Step_stores_the_solution_witness :
  exists s' mem' r',
    Step (demo.schedule (demo.engine 30)) (1 # 10)
      (demo.engine 30, demo.memory 30, evenDraws) = Ret (s', mem', r') /\
    forall k tm p tar sol err,
      collected (demo.schedule (demo.engine 30)) (1 # 10)
        (demo.engine 30, demo.memory 30, evenDraws) k = Ret (Some tm) ->
      targets (demo.engine 30) !! k = Some p ->
      targetCells mem' !! p = Some tar ->
      dimension (demo.engine 30) + 1 <= Int.len tm ->
      SolveLeastSquares tm (dimension (demo.engine 30)) = Ret (sol, err) ->
      match err with
      | None =>
          GetLastEstimate s' k = (sol, true) /\
          GetLastLocalizationError s' k
            = ((common.Distance (GetPosition tar) (Position sol)).1, true)
      | Some _ =>
          GetLastEstimate s' k = (noEstimate, true) /\
          GetLastLocalizationError s' k = (noError, true)
      end.
Proof.
  apply (Step_stores_the_solution (demo.schedule (demo.engine 30)) (1 # 10)
           (demo.engine 30) (demo.memory 30) evenDraws).
  - apply (reachable_consistent 0), demo_reachable.
  - vm_compute. discriminate.
  - apply demo_schedule_valid.
  - intros k. vm_compute. discriminate.
Defined.

(** In the small world the target collects one measurement from each of
    its three sensors, in the order in which the keys are visited. *)
Example demo_collects_three :
  match collected (demo.schedule (demo.engine 30)) (1 # 10)
          (demo.engine 30, demo.memory 30, evenDraws) "target-1" with
  | Ret (Some tm) => Forall2 Qeq (map Distance tm) [17; 5; 13]%Q
  | _ => False
  end.
Proof. vm_compute. repeat constructor. Qed.

End TickSamples.

(** ** The solver: the least-squares problem it solves *)

Section LeastSquares.

Import common multilateration.











Context `{MathLib} `{Gonum} `{!GonumLaws} `{!GonumLeastSquares}.


End LeastSquares.

(** ** The certifying solve is a least-squares solve *)



















(** On the three sensors the certifying solve succeeds. *)
Example threeSensors_certified :
  match @multilateration.SolveLeastSquares reference_math checked_gonum threeSensors 2 with
  | Ret (sol, None) =>
      Forall2 Qeq (common.elems (multilateration.Position sol)) [0; 0]%Q /\
      (multilateration.ResidualError sol == 0)%Q
  | _ => False
  end.
Proof. vm_compute. split; repeat constructor. Qed.
